(* ===== verification/_CoqProject ===== *)
-Q . S2P
Prelude.v
StrToU32.v
Checksum.v
EfuseMerge.v
Device.v
Flash.v
EfuseEdit.v
EfuseText.v
EfuseProg.v
Commands.v
ExitStatus.v
EfuseInvariant.v
