(* ===== verification/Prelude.v ===== *)
(** * A verification development of the AX88179A/AX88772D flash and eFuse
    programming tool ([src/ax88179a_programmer.c])

    The tool is one C file.  [main] prints a banner, scans for the
    adapter, picks a command from the table [ax88179a_cmd_list] by a
    prefix match on [argv[1]] and runs its handler.  The handler talks
    to the driver through [ioctl] requests on the interface named in
    [ifr], prints on stdout and stderr, and leaves its result in the
    global [exit_code], which [main] negates and returns.  Two handlers
    do the real work.  [writeflash_func] erases the SPI flash and
    programs a firmware image in two verified phases.  [writeefuse_func]
    loads an eFuse image from a text file, optionally edits the MAC
    address or serial number, dumps the chip, merges the new blocks
    behind the last used chip block, programs them and checks them by a
    second dump.

    ** Files and what they model

    - [Prelude.v] (this file): [enum _exit_code] as [exit_code] and
      [code]; bytes as [Z] in [0, 256); the state monad [st] with the
      notations [x <- c ;; k] and [c ;; k]; [write_range] for [memcpy];
      the hint databases [ax], [ax_rw], [ax_bits], the tactics [zlia],
      [run] and [st_norm], and shared lemmas on nibbles and lists.
    - [StrToU32.v]: [STR_TO_U32] (lines 216-241), with [unsigned long]
      wrap-around.  Nothing calls it.
    - [Checksum.v]: a 20-byte eFuse block; [checksum_efuse_block] and
      [check_efuse_block_valid], with the [while (Sum > 0xF)] loop as a
      fuelled [Fixpoint].
    - [EfuseMerge.v]: [__find_efuse_index], [find_empty_block_index] and
      [merge_efuse] with its out-parameters; the abstract contract
      [merge_spec] and the refinement [merge_refines].
    - [Device.v]: the request surface of ax_ioctl.h ([request],
      [reply]), the build constants as the class [AxConfig], and the
      kernel as the class [Backend] ([ioctl], [getifaddrs], [usleep]).
      It also holds the session state [world]: the device, the [ifr]
      name, the log of requests and sleeps, the out-of-bounds accesses,
      stdout and stderr.  On that state it models [scan_ax_device],
      [boot_to_rom], [sw_reset], the help text, the [PRINT_*] macros and
      [fprintf(stderr, ...)] as [eprint].  The classes [Appends],
      [Silent], [ErrQuiet] and [Reports] describe what an action does to
      the log, stdout and stderr; [Reports] comes with Hoare-style
      sequencing rules and the tactic [rep_tac].
    - [Flash.v]: [write_flash], [read_flash], [erase_flash] and
      [writeflash_func].  This covers the header parsing ([SWAP_32] of
      an 8-byte load, [(x + 256) & ~0xFF]), the two
      write/read-back/compare phases, the [fail:] label and every
      diagnostic.  A memory flash device [mem_flash] is an instance of
      [Backend].
    - [EfuseEdit.v]: the [type01]/[type04] views of a block,
      [change_mac_address] and [change_serial_number].
    - [EfuseText.v]: [load_efuse_from_file], with the part of
      [fscanf("%02X ")] it relies on, the text [readefuse_func] writes,
      and [%02x]/[%02X].
    - [EfuseProg.v]: the eFuse handlers.  It models [__dump_efuse],
      [__program_efuse_block], the option parsing, the body of
      [writeefuse_func], [readefuse_func] and [dump_efuse_data] (its body
      is under [__DEBUG], which line 46 leaves undefined).  The messages
      of [merge_efuse], [load_efuse_from_file] and the edits are lists
      the handler prints.  A memory eFuse device [mem_efuse] is an
      instance of [Backend].
    - [Commands.v]: glibc's [getopt] for plain-letter option strings,
      [show_usage], [help_func], [read_version], [read_mac_address],
      [readversion_func], [readmac_func], [reload_func], the dispatch
      and [main], with a crash of the process as [None].
    - [ExitStatus.v]: the range of every value each handler can leave in
      [exit_code], given that [ioctl(2)] fails only with [-1], and the
      range of what [main] returns.
    - [EfuseInvariant.v]: what an eFuse device promises, as the class
      [OtpEfuse] (burns only set bits; failed burns change nothing); the
      shape [chip_inv] of the array; runs of the tool as the step
      relation [tool_step].

    The handlers read the device only through [Backend], so every
    theorem about a handler holds for any device that meets the stated
    class.  [main] threads the file system ([env]) and the [world]
    through the handlers, so runs compose.

    ** What is proved

    - Checksum: the writer makes any non-empty block valid; validity is
      exactly being a fixed point of the writer; every single-bit error
      in bytes 0..3 is detected; bytes 4..19 are not covered at all.
    - Merge: [merge_efuse] refines [merge_spec].  It writes only at or
      above the high-water mark and below block 58 of its 64-block half,
      and it stages only valid blocks.  It fails when no block is free
      or a new block is invalid.
    - Discovery: a successful scan is bound to an interface whose
      signature matched.  The scan always returns, after fewer than
      [SCAN_DEV_MAX_RETRY] sleeps or exactly that many.  With a device
      that appears after [k] sleeps, it succeeds iff [k] is in budget.
    - Flash: whatever the device answers, [writeflash_func] either ends
      in [SUCCESS], sends no flash request, or ends with an erase.  On a
      healthy device a well-formed image is programmed and verified,
      with no out-of-bounds access.
    - eFuse: every program request [writeefuse_func] sends burns a valid
      block into blocks 5..31.  On a memory device, [wefuse] programs
      the new blocks of a file behind the mark and [refuse] writes a
      text that reads back as the chip.  The edits change exactly their
      field, keep blocks 20 bytes long and never reach the [reserve]
      byte, because the parser bounds the serial at 18 characters.  Every sequence of runs of
      [main] keeps the array's shape, by rule induction on [tool_step].
    - Text: the text [readefuse_func] writes reads back byte for byte,
      and a truncated text fills only its prefix.  The MAC text
      [readmac] prints is read back by the [sscanf] of [wefuse -m].
    - Diagnostics: [writeflash_func] (with its one argument),
      [writeefuse_func] and [readefuse_func] (once a file is named) only
      append to stderr.
      They append something exactly when their return code is not
      [SUCCESS].
    - Exit status: [main] returns a value in [-3 .. 99].  It is negative
      only for [wflash], whose failures reach the shell as 253..255.

    ** Bounds and fuel

    The nibble loop gets [Sum] turns.  Each turn removes at least 15, so
    this is enough ([fold_nibble_fuel_enough]).  Every other loop is
    bounded in the code itself, and each is a [Fixpoint] on its bound:
    the scan on the retry budget, the merge and the eFuse loops on
    their block counts, the text loader on its 160 groups of four
    bytes.  Properties of every byte or every nibble value are checked
    by evaluation over the finite range ([forall_range_Z],
    [forall_range_Z2]).

    ** Not modelled

    The driver and ax_ioctl.h are not in [src/].  The requests are the
    [request] type, the constants the class [AxConfig], and the driver's
    behaviour an instance of [Backend].  The wording of glibc's own
    [getopt] message for an unknown option is not modelled either (the
    code prints nothing itself there).  Every function of the C file
    is modelled. *)

From Stdlib Require Import ZArith Lia.
From stdpp Require Import base list decidable.

Open Scope Z_scope.

Declare Scope ax_scope.
Delimit Scope ax_scope with ax.

(** ** Exit codes: [enum _exit_code] (lines 29-43) *)

Inductive exit_code :=
| SUCCESS
| FAIL_INVALID_PARAMETER
| FAIL_IOCTL
| FAIL_SCAN_DEV
| FAIL_ALLCATE_MEM
| FAIL_LOAD_FILE
| FAIL_FLASH_WRITE
| FAIL_IVALID_VALUE
| FAIL_IVALID_CHKSUM
| FAIL_NON_EMPTY_RFUSE_BLOCK
| FAIL_EFUSE_WRITE
| FAIL_GENERIAL_ERROR
| FAIL_NONE.

#[export] Instance exit_code_eq_dec : EqDecision exit_code.
Proof. solve_decision. Defined.

(** The integer each enumerator denotes; the source returns these as
    plain [int]s, negated on the error paths. *)
Definition code (e : exit_code) : Z :=
  match e with
  | SUCCESS => 0
  | FAIL_INVALID_PARAMETER => 1
  | FAIL_IOCTL => 2
  | FAIL_SCAN_DEV => 3
  | FAIL_ALLCATE_MEM => 4
  | FAIL_LOAD_FILE => 5
  | FAIL_FLASH_WRITE => 6
  | FAIL_IVALID_VALUE => 7
  | FAIL_IVALID_CHKSUM => 8
  | FAIL_NON_EMPTY_RFUSE_BLOCK => 9
  | FAIL_EFUSE_WRITE => 10
  | FAIL_GENERIAL_ERROR => 99
  | FAIL_NONE => 100
  end.

(** [-FAIL_X] as the source writes it. *)
Notation "'-!' e" := (Z.opp (code e)) (at level 35, e at level 0) : ax_scope.
Open Scope ax_scope.

(** ** Bytes

    An [unsigned char] is a [Z] in [0, 256); the cast from a wider integer
    keeps the low eight bits. *)

Definition is_byte (z : Z) : Prop := 0 <= z < 256.
#[export] Instance is_byte_dec z : Decision (is_byte z).
Proof. unfold is_byte. apply _. Defined.

Definition bytes_ok (l : list Z) : Prop := Forall is_byte l.

Definition u8 (z : Z) : Z := Z.land z 255.

(** ** A state monad for the code that threads the device and its buffers *)

Definition st (S A : Type) : Type := S -> A * S.

Definition st_ret {S A} (x : A) : st S A := fun s => (x, s).
Definition st_bind {S A B} (c : st S A) (k : A -> st S B) : st S B :=
  fun s => let '(x, s') := c s in k x s'.
Definition st_get {S} : st S S := fun s => (s, s).
Definition st_put {S} (s : S) : st S unit := fun _ => (tt, s).
Definition st_modify {S} (f : S -> S) : st S unit := fun s => (tt, f s).

Notation "x <- c ;; k" := (st_bind c (fun x => k))
  (at level 100, c at next level, right associativity) : ax_scope.
Notation "c ;; k" := (st_bind c (fun _ => k))
  (at level 100, right associativity) : ax_scope.

Lemma st_bind_eq {S A B} (c : st S A) (k : A -> st S B) s x s' :
  c s = (x, s') -> st_bind c k s = k x s'.
Proof. intros H. unfold st_bind. rewrite H. reflexivity. Qed.

Lemma st_bind_assoc {S A B C} (c : st S A) (k1 : A -> st S B) (k2 : B -> st S C) s :
  st_bind (st_bind c k1) k2 s = st_bind c (fun x => st_bind (k1 x) k2) s.
Proof. unfold st_bind. destruct (c s). reflexivity. Qed.

Lemma st_bind_ret {S A B} (x : A) (k : A -> st S B) s : st_bind (st_ret x) k s = k x s.
Proof. reflexivity. Qed.

(** A step before a [return] does not change the value returned. *)
Lemma st_seq_ret_fst {S A B} (c : st S A) (x : B) s : fst (st_bind c (fun _ => st_ret x) s) = x.
Proof. unfold st_bind. destruct (c s). reflexivity. Qed.

(** Run the first action of a sequence, given its outcome [H]. *)
Ltac run H := rewrite (st_bind_eq _ _ _ _ _ H); cbn beta iota.

(** Bring the first action of a nested sequence to the front and run
    the returns. *)
Ltac st_norm := repeat (rewrite st_bind_assoc || rewrite st_bind_ret); cbn beta iota.

(** ** Writing a range of a buffer ([memcpy] into an array) *)

Definition write_range {A} (l : list A) (off : nat) (src : list A) : list A :=
  firstn off l ++ src ++ skipn (off + length src) l.

(** ** Automation *)

Create HintDb ax discriminated.
Create Rewrite HintDb ax_rw.
Create Rewrite HintDb ax_bits.

Ltac unfold_bytes := unfold is_byte, u8 in *.

(** [lia] after turning [mod] and [/] by constants into equations. *)
Ltac zlia := unfold is_byte in *; Z.div_mod_to_equations; lia.

(** ** Generic lemmas on bytes, nibbles and lists *)

Lemma land_ones_mod (x : Z) (n : Z) :
  0 <= n -> Z.land x (2 ^ n - 1) = x mod 2 ^ n.
Proof.
  intros Hn. rewrite <- Z.land_ones by lia. f_equal.
  rewrite Z.ones_equiv. lia.
Qed.

Lemma land_15 x : Z.land x 15 = x mod 16.
Proof. apply (land_ones_mod x 4). lia. Qed.

Lemma land_255 x : Z.land x 255 = x mod 256.
Proof. apply (land_ones_mod x 8). lia. Qed.

Lemma shiftr_4 x : Z.shiftr x 4 = x / 16.
Proof. rewrite Z.shiftr_div_pow2 by lia. reflexivity. Qed.

Lemma u8_mod z : u8 z = z mod 256.
Proof. apply land_255. Qed.

Lemma u8_byte z : is_byte (u8 z).
Proof. rewrite u8_mod. zlia. Qed.

Lemma u8_id z : is_byte z -> u8 z = z.
Proof. unfold is_byte. rewrite u8_mod. intros. apply Z.mod_small. lia. Qed.

(** Properties of all integers of a small range, checked by evaluation. *)
Lemma forall_range_Z (P : Z -> Prop) `{!forall x, Decision (P x)} (n : nat) :
  forallb (fun i => bool_decide (P (Z.of_nat i))) (seq 0 n) = true ->
  forall x, 0 <= x < Z.of_nat n -> P x.
Proof.
  intros Hall x Hx.
  rewrite forallb_forall in Hall.
  specialize (Hall (Z.to_nat x)).
  rewrite Z2Nat.id in Hall by lia.
  apply (bool_decide_eq_true (P x)), Hall, in_seq. lia.
Qed.

Lemma forall_range_nat (P : nat -> Prop) `{!forall x, Decision (P x)} (a n : nat) :
  forallb (fun i => bool_decide (P i)) (seq a n) = true ->
  forall k, (a <= k < a + n)%nat -> P k.
Proof.
  intros Hall k Hk. rewrite forallb_forall in Hall.
  apply (bool_decide_eq_true (P k)), Hall, in_seq. lia.
Qed.

Lemma forall_range_Z2 (P : Z -> Z -> Prop) `{!forall x y, Decision (P x y)}
    (n m : nat) :
  forallb (fun i => forallb (fun j => bool_decide (P (Z.of_nat i) (Z.of_nat j)))
                            (seq 0 m)) (seq 0 n) = true ->
  forall x y, 0 <= x < Z.of_nat n -> 0 <= y < Z.of_nat m -> P x y.
Proof.
  intros Hall x y Hx Hy.
  rewrite forallb_forall in Hall.
  specialize (Hall (Z.to_nat x) ltac:(apply in_seq; lia)).
  rewrite forallb_forall in Hall.
  specialize (Hall (Z.to_nat y) ltac:(apply in_seq; lia)).
  rewrite !Z2Nat.id in Hall by lia.
  apply (bool_decide_eq_true (P x y)), Hall.
Qed.

(** Packing a low and a high nibble into one byte:
    [lo | ((hi << 4) & 0xF0)] is [lo + 16 * hi]. *)
Lemma nibble_pack lo hi :
  0 <= lo < 16 -> 0 <= hi < 16 ->
  Z.lor lo (Z.land (Z.shiftl hi 4) 240) = lo + 16 * hi.
Proof.
  apply (@forall_range_Z2
    (fun lo hi => Z.lor lo (Z.land (Z.shiftl hi 4) 240) = lo + 16 * hi)
    (fun _ _ => ltac:(cbv beta; apply _)) 16 16).
  vm_compute. reflexivity.
Qed.

Lemma length_write_range {A} (l : list A) off src :
  (off + length src <= length l)%nat ->
  length (write_range l off src) = length l.
Proof.
  intros H. unfold write_range.
  rewrite !length_app, length_firstn, length_skipn. lia.
Qed.

Lemma nth_write_range_in {A} (l : list A) off src i d :
  (off + length src <= length l)%nat -> (off <= i < off + length src)%nat ->
  nth i (write_range l off src) d = nth (i - off) src d.
Proof.
  intros H Hi. unfold write_range.
  rewrite app_nth2 by (rewrite length_firstn; lia).
  rewrite length_firstn, Nat.min_l by lia.
  rewrite app_nth1 by lia. reflexivity.
Qed.

Lemma nth_write_range_out {A} (l : list A) off src i d :
  (off + length src <= length l)%nat -> (i < off \/ off + length src <= i)%nat ->
  nth i (write_range l off src) d = nth i l d.
Proof.
  intros H [Hi|Hi]; unfold write_range.
  - rewrite app_nth1 by (rewrite length_firstn; lia).
    rewrite nth_firstn. destruct (Nat.ltb_spec i off); [reflexivity | lia].
  - rewrite app_nth2 by (rewrite length_firstn; lia).
    rewrite length_firstn, Nat.min_l by lia.
    rewrite app_nth2 by lia.
    rewrite nth_skipn. f_equal. lia.
Qed.

Lemma nth_insert_eq {A} (l : list A) i x d :
  (i < length l)%nat -> nth i (<[i:=x]> l) d = x.
Proof.
  intros Hi. rewrite nth_lookup, list_lookup_insert_eq by done. reflexivity.
Qed.

Lemma nth_insert_ne {A} (l : list A) i j x d :
  i <> j -> nth j (<[i:=x]> l) d = nth j l d.
Proof.
  intros Hij. rewrite !nth_lookup, list_lookup_insert_ne by done. reflexivity.
Qed.

(** One step of the copy loop: writing [x] at [j] and the rest after it. *)
Lemma write_range_cons {A} (l : list A) j x src :
  (j < length l)%nat ->
  write_range (<[j:=x]> l) (S j) src = write_range l j (x :: src).
Proof.
  intros Hj. unfold write_range. rewrite insert_take_drop by done.
  rewrite take_app, drop_app, length_take, Nat.min_l by lia.
  rewrite take_take, Nat.min_r by lia.
  rewrite (drop_ge (take j l)) by (rewrite length_take; lia).
  replace (S j - j)%nat with 1%nat by lia.
  replace (S j + length src - j)%nat with (S (length src)) by lia.
  simpl. rewrite take_0, drop_drop, <- app_assoc. simpl.
  rewrite Nat.add_succ_r. reflexivity.
Qed.

Lemma write_range_nil {A} (l : list A) j : write_range l j [] = l.
Proof. unfold write_range. simpl. rewrite Nat.add_0_r. apply take_drop. Qed.

Lemma lookup_nth {A} (l : list A) i d :
  (i < length l)%nat -> l !! i = Some (nth i l d).
Proof. intros Hi. destruct (nth_lookup_or_length l i d); [done | lia]. Qed.

Lemma take_S_drop {A} (l : list A) i n d :
  (i < length l)%nat -> take (S n) (drop i l) = nth i l d :: take n (drop (S i) l).
Proof.
  revert i. induction l as [|x l IH]; intros [|i] Hi; simpl in *; try lia; [reflexivity|].
  apply IH. lia.
Qed.

(** Reading back [length src] elements at [length pre]. *)
Lemma map_nth_seq_app {A} (pre src post : list A) d :
  map (fun j => nth j (pre ++ src ++ post) d) (seq (length pre) (length src)) = src.
Proof.
  revert pre. induction src as [|x src IH]; intros pre; [reflexivity|]. simpl.
  rewrite app_nth2, Nat.sub_diag by lia. f_equal.
  specialize (IH (pre ++ [x])). rewrite <- app_assoc, length_app, Nat.add_1_r in IH. exact IH.
Qed.

Lemma map_nth_write_range {A} (l src : list A) off d :
  (off + length src <= length l)%nat ->
  map (fun j => nth j (write_range l off src) d) (seq off (length src)) = src.
Proof.
  intros Hl. unfold write_range.
  pose proof (map_nth_seq_app (firstn off l) src (skipn (off + length src) l) d) as H.
  rewrite length_firstn, Nat.min_l in H by lia. exact H.
Qed.

#[export] Hint Resolve u8_byte : ax.
#[export] Hint Rewrite @length_insert : ax_rw.
#[export] Hint Rewrite land_15 land_255 shiftr_4 u8_mod : ax_bits.
