(* ===== verification/StrToU32.v ===== *)
(** * [STR_TO_U32] (lines 216-241)

    A number parser in the style of [simple_strtoul]: an optional ["0"]
    or ["0x"] prefix picks the base when the caller passes [0], digits
    are read while they are below the base, and the result is an
    [unsigned long].  No path of the tool calls it.

    The string is the list of its characters before the NUL; the result
    is the value and the number of characters consumed ([*endp - cp]).
    [unsigned long] is 64 bits wide: [result * base + value] wraps
    modulo [2^64]. *)

From Stdlib Require Import ZArith Lia String Ascii List.
From stdpp Require Import base list.
From S2P Require Import Prelude.

Open Scope Z_scope.

Definition ULONG_MAX_1 : Z := 2 ^ 64.

Definition code_of (c : ascii) : Z := Z.of_nat (nat_of_ascii c).

(** [isdigit], [islower], [isxdigit] of the C locale. *)
Definition isdigit (c : ascii) : bool := (48 <=? code_of c) && (code_of c <=? 57).
Definition islower (c : ascii) : bool := (97 <=? code_of c) && (code_of c <=? 122).
Definition isxdigit (c : ascii) : bool :=
  isdigit c || ((97 <=? code_of c) && (code_of c <=? 102)) || ((65 <=? code_of c) && (code_of c <=? 70)).

(** [isdigit(c) ? c - '0' : (islower(c) ? toupper(c) : c) - 'A' + 10] for [c = *cp] *)
Definition digit_value (c : ascii) : Z :=
  if isdigit c then code_of c - 48
  else (if islower c then code_of c - 32 else code_of c) - 65 + 10.

(** The [while] loop: [pos] characters consumed so far. *)
Fixpoint strtou_loop (cs : list ascii) (base result : Z) (pos : nat) : Z * nat :=
  match cs with
  | c :: cs' =>
      if isxdigit c && (digit_value c <? base)
      then strtou_loop cs' base ((result * base + digit_value c) mod ULONG_MAX_1) (S pos)
      else (result, pos)
  | [] => (result, pos)
  end.

(** The prefix: after a leading ['0'], an ['x'] followed by a hex digit
    forces base 16 (whatever the caller passed); a base still [0] is 8
    after a ['0'] and 10 otherwise. *)
Definition STR_TO_U32 (s : list ascii) (base : Z) : Z * nat :=
  match s with
  | c0 :: rest =>
      if (c0 =? "0")%char then
        let '(cs, base1, pos) :=
          match rest with
          | cx :: (c2 :: _) as r2 =>
              if (cx =? "x")%char && isxdigit c2 then (r2, 16, 2%nat) else (rest, base, 1%nat)
          | _ => (rest, base, 1%nat)
          end in
        let base2 := if base1 =? 0 then 8 else base1 in
        strtou_loop cs base2 0 pos
      else strtou_loop s (if base =? 0 then 10 else base) 0 0
  | [] => (0, 0%nat)
  end.

(** ** Numerals *)

(** The value of a digit sequence in base [b], unbounded. *)
Definition numeral_value (b : Z) (ds : list Z) : Z := fold_left (fun acc d => acc * b + d) ds 0.

(** The lower-case digit of [d]. *)
Definition digit_char (d : Z) : ascii := ascii_of_nat (Z.to_nat (if d <? 10 then 48 + d else 87 + d)).

Definition digit_char_fact (d : Z) : Prop :=
  isxdigit (digit_char d) = true /\ digit_value (digit_char d) = d.

#[local] Instance digit_char_fact_dec d : Decision (digit_char_fact d).
Proof. unfold digit_char_fact. apply _. Defined.

Lemma digit_char_fact_all d : 0 <= d < 16 -> digit_char_fact d.
Proof. change 16 with (Z.of_nat 16). apply (@forall_range_Z digit_char_fact digit_char_fact_dec). vm_compute. reflexivity. Qed.

(** Folding modulo [m] at every step gives the unbounded value modulo [m]. *)
Lemma fold_mod (b m acc : Z) (ds : list Z) : 0 < m ->
  fold_left (fun a d => (a * b + d) mod m) ds (acc mod m) =
  fold_left (fun a d => a * b + d) ds acc mod m.
Proof.
  intros Hm. revert acc. induction ds as [|d ds IH]; intros acc; simpl; [reflexivity|].
  rewrite <- IH. f_equal.
  rewrite <- (Z.add_mod_idemp_l (acc * b)), <- (Z.add_mod_idemp_l (acc mod m * b)), Z.mul_mod_idemp_l
    by lia.
  reflexivity.
Qed.

Lemma strtou_loop_digits (ds : list Z) b acc pos :
  2 <= b <= 16 -> Forall (fun d => 0 <= d < b) ds ->
  strtou_loop (map digit_char ds) b acc pos =
  (fold_left (fun a d => (a * b + d) mod ULONG_MAX_1) ds acc, (pos + length ds)%nat).
Proof.
  intros Hb Hds. revert acc pos. induction Hds as [|d ds Hd Hds IH]; intros acc pos; simpl.
  - f_equal. lia.
  - destruct (digit_char_fact_all d) as [Hx Hv]; [lia|]. rewrite Hx, Hv.
    rewrite (proj2 (Z.ltb_lt _ _)) by lia. simpl. rewrite IH. f_equal. lia.
Qed.

Lemma digit_char_not_zero d : 0 < d < 16 -> (digit_char d =? "0")%char = false.
Proof.
  intros Hd. destruct (digit_char_fact_all d) as [_ Hv]; [lia|].
  destruct (Ascii.eqb_spec (digit_char d) "0"%char) as [E|]; [|reflexivity].
  rewrite E in Hv. vm_compute in Hv. lia.
Qed.

(** C23: [STR_TO_U32] reads every digit of a numeral in base [2..16]
    that does not start with ['0'] and returns its value modulo [2^64]:
    the result wraps silently and is not limited to 32 bits. *)
Theorem str_to_u32_wraps (ds : list Z) (b : Z) :
  2 <= b <= 16 -> Forall (fun d => 0 <= d < b) ds -> hd 1 ds <> 0 ->
  STR_TO_U32 (map digit_char ds) b = (numeral_value b ds mod ULONG_MAX_1, length ds).
Proof.
  intros Hb Hds Hhd. destruct ds as [|d ds]; [reflexivity|].
  inversion Hds as [|? ? Hd Hrest]; subst. simpl in Hhd.
  cbn [map STR_TO_U32]. rewrite digit_char_not_zero by lia.
  rewrite (proj2 (Z.eqb_neq b 0)) by lia.
  change (digit_char d :: map digit_char ds) with (map digit_char (d :: ds)).
  rewrite strtou_loop_digits by auto. f_equal.
  unfold numeral_value. rewrite <- fold_mod by (unfold ULONG_MAX_1; lia). reflexivity.
Qed.

Lemma str_to_u32_wraps_witness :
  STR_TO_U32 (map digit_char (repeat 15 17)) 16 =
  (numeral_value 16 (repeat 15 17) mod ULONG_MAX_1, length (repeat 15 17)).
Proof. apply str_to_u32_wraps; [lia | apply Forall_forall; intros x Hx; apply list_elem_of_In, repeat_spec in Hx; lia | discriminate]. Defined.

(** Seventeen [f]s wrap to [2^64 - 1]. *)
Example str_to_u32_17f : STR_TO_U32 (list_ascii_of_string "fffffffffffffffff") 16 = (2 ^ 64 - 1, 17%nat).
Proof. vm_compute. reflexivity. Qed.

(** A ["0x"] prefix overrides the base the caller asked for. *)
Example str_to_u32_hex_prefix : STR_TO_U32 (list_ascii_of_string "0x1f") 10 = (31, 4%nat).
Proof. vm_compute. reflexivity. Qed.
