(* ===== verification/Checksum.v ===== *)
(** * eFuse blocks and their checksum nibble

    A block is the 20-byte [struct _ef_data_struct] (source lines 164-205),
    seen as the byte array the code addresses through
    [(unsigned char * )&efuse[i]].  This file models
    [checksum_efuse_block] (lines 599-617) and [check_efuse_block_valid]
    (lines 781-807), with the [while (Sum > 0xF)] folding loop as a
    fuelled [Fixpoint], and proves what the checksum does and does not
    protect. *)

From Stdlib Require Import ZArith Lia.
From stdpp Require Import base list decidable.
From S2P Require Import Prelude.

Open Scope Z_scope.
Open Scope ax_scope.

(** ** Data *)

(** [enum _ef_Type_Def] (lines 166-170). *)
Inductive ef_type := EF_TYPE_REV | EF_TYPE_01 | EF_TYPE_04.

Definition ef_type_val (t : ef_type) : Z :=
  match t with EF_TYPE_REV => 0 | EF_TYPE_01 => 1 | EF_TYPE_04 => 4 end.

Definition EFUSE_NUM_BLOCK : nat := 32.
Definition EF_DATA_STRUCT_SIZE : nat := 20.

Abbreviation block := (list Z).

(** [block[i]] as an [unsigned char]. *)
Definition blk (b : block) (i : nat) : Z := nth i b 0.

Definition block_wf (b : block) : Prop :=
  length b = EF_DATA_STRUCT_SIZE /\ bytes_ok b.

(** The [type : 4] bit-field of [struct _ef_type] (lines 171-174): the
    first bit-field of a byte occupies its low bits. *)
Definition ef_type_of (b : block) : Z := Z.land (blk b 0) 15.

(** The [checksum : 4] bit-field, the high nibble of byte 0. *)
Definition ef_checksum_of (b : block) : Z := Z.shiftr (blk b 0) 4.

(** ** Operations *)

(** [for (j = 0; j < 4; j++) { if (j == 0) Sum += block[j] & 0xF; else
    Sum += block[j]; }] *)
Definition efuse_sum (b : block) : Z :=
  fold_left (fun sum j => if (j =? 0)%nat then sum + Z.land (blk b j) 15
                          else sum + blk b j)
            [0; 1; 2; 3]%nat 0.

(** [while (Sum > 0xF) Sum = (Sum & 0xF) + (Sum >> 4);], with fuel. *)
Fixpoint fold_nibble_fuel (fuel : nat) (sum : Z) : Z :=
  match fuel with
  | O => sum
  | S f => if 15 <? sum then fold_nibble_fuel f (Z.land sum 15 + Z.shiftr sum 4)
           else sum
  end.

(** Each turn of the loop removes [15 * (Sum >> 4) >= 15] from [Sum], so
    [Sum] turns are more than enough. *)
Definition fold_nibble (sum : Z) : Z := fold_nibble_fuel (Z.to_nat sum) sum.

(** [Sum = 0xF - Sum; block[0] = (block[0] & 0xF) | ((Sum << 4) & 0xF0);] *)
Definition checksum_efuse_block (b : block) : block :=
  let sum := 15 - fold_nibble (efuse_sum b) in
  <[0%nat := Z.lor (Z.land (blk b 0) 15) (Z.land (Z.shiftl sum 4) 240)]> b.

Definition check_efuse_block_valid (b : block) : Z :=
  if Z.land (blk b 0) 15 =? ef_type_val EF_TYPE_REV then -! FAIL_IVALID_VALUE
  else
    let sum := 15 - fold_nibble (efuse_sum b) in
    let tmp := Z.lor (Z.land (blk b 0) 15) (Z.land (Z.shiftl sum 4) 240) in
    if negb (tmp =? blk b 0) then -! FAIL_IVALID_CHKSUM
    else code SUCCESS.

(** A block as a decidable predicate, as the merge engine uses it. *)
Definition block_valid (b : block) : bool := check_efuse_block_valid b =? 0.

(** A single-bit error in byte [i] of a block. *)
Definition flip (b : block) (i : nat) (k : Z) : block :=
  <[i := Z.lxor (blk b i) (2 ^ k)]> b.

(** ** The folding loop *)

(** What the loop computes: the digit sum modulo 15, in [1, 15] for a
    positive sum. *)
Definition nibble_residue (s : Z) : Z := if s =? 0 then 0 else (s - 1) mod 15 + 1.

Lemma fold_nibble_fuel_closed (n : nat) (s : Z) :
  0 <= s -> (Z.to_nat s <= n)%nat -> fold_nibble_fuel n s = nibble_residue s.
Proof.
  revert s. induction n as [|n IH]; intros s Hs Hn; simpl.
  - assert (s = 0) as -> by lia. reflexivity.
  - destruct (Z.ltb_spec 15 s) as [Hlt|Hge].
    + rewrite land_15, shiftr_4. rewrite IH by zlia.
      unfold nibble_residue.
      destruct (Z.eqb_spec (s mod 16 + s / 16) 0), (Z.eqb_spec s 0); zlia.
    + unfold nibble_residue. destruct (Z.eqb_spec s 0); zlia.
Qed.

(** With [Sum] turns of fuel the loop has exited, whatever
    fuel is given beyond that. *)
Lemma fold_nibble_fuel_enough (n : nat) (s : Z) :
  0 <= s -> (Z.to_nat s <= n)%nat -> fold_nibble_fuel n s = fold_nibble s.
Proof.
  intros Hs Hn. unfold fold_nibble.
  rewrite !fold_nibble_fuel_closed by lia. reflexivity.
Qed.

Lemma fold_nibble_closed s : 0 <= s -> fold_nibble s = nibble_residue s.
Proof. intros Hs. apply fold_nibble_fuel_closed; lia. Qed.

Lemma nibble_residue_range s : 0 <= s -> 0 <= nibble_residue s <= 15.
Proof. intros. unfold nibble_residue. destruct (Z.eqb_spec s 0); zlia. Qed.

Lemma nibble_residue_ne s s' :
  0 < s -> 0 < s' -> (s' - s) mod 15 <> 0 -> nibble_residue s <> nibble_residue s'.
Proof.
  intros. unfold nibble_residue.
  destruct (Z.eqb_spec s 0), (Z.eqb_spec s' 0); zlia.
Qed.

(** ** Closed forms of the two operations *)

Lemma efuse_sum_eq b :
  efuse_sum b = blk b 0 mod 16 + blk b 1 + blk b 2 + blk b 3.
Proof. unfold efuse_sum. simpl. rewrite land_15. lia. Qed.

Lemma blk_byte b i : block_wf b -> is_byte (blk b i).
Proof.
  intros [Hl Hb]. unfold blk.
  destruct (decide (i < length b)%nat) as [Hi|Hi].
  - apply Forall_nth; [exact Hb | exact Hi].
  - rewrite nth_overflow by lia. unfold is_byte. lia.
Qed.

Lemma efuse_sum_nonneg b : block_wf b -> 0 <= efuse_sum b.
Proof.
  intros Hwf. rewrite efuse_sum_eq.
  pose proof (blk_byte b 1 Hwf). pose proof (blk_byte b 2 Hwf).
  pose proof (blk_byte b 3 Hwf). zlia.
Qed.

(** The nibble the code writes into (or expects in) byte 0. *)
Definition expected_hi (b : block) : Z := 15 - nibble_residue (efuse_sum b).

Lemma packed_byte0 b :
  block_wf b ->
  Z.lor (Z.land (blk b 0) 15)
        (Z.land (Z.shiftl (15 - fold_nibble (efuse_sum b)) 4) 240)
  = blk b 0 mod 16 + 16 * expected_hi b.
Proof.
  intros Hwf. pose proof (efuse_sum_nonneg b Hwf).
  unfold expected_hi. rewrite fold_nibble_closed by lia.
  pose proof (nibble_residue_range _ H).
  rewrite land_15, nibble_pack by zlia. reflexivity.
Qed.

Lemma check_valid_iff b :
  block_wf b ->
  check_efuse_block_valid b = 0 <->
  blk b 0 mod 16 <> 0 /\ blk b 0 / 16 = expected_hi b.
Proof.
  intros Hwf. pose proof (blk_byte b 0 Hwf).
  unfold check_efuse_block_valid. rewrite packed_byte0 by exact Hwf.
  rewrite land_15. simpl.
  destruct (Z.eqb_spec (blk b 0 mod 16) 0);
    [split; [discriminate | intuition] |].
  destruct (Z.eqb_spec (blk b 0 mod 16 + 16 * expected_hi b) (blk b 0));
    simpl; split; intros; try discriminate; try reflexivity; zlia.
Qed.

#[export] Hint Rewrite efuse_sum_eq : ax_rw.

(** ** Effect of [checksum_efuse_block] on the block *)

Lemma blk_insert_eq b i v : (i < length b)%nat -> blk (<[i:=v]> b) i = v.
Proof. apply nth_insert_eq. Qed.

Lemma blk_insert_ne b i j v : i <> j -> blk (<[i:=v]> b) j = blk b j.
Proof. apply nth_insert_ne. Qed.

#[export] Hint Rewrite blk_insert_eq blk_insert_ne using lia : ax_rw.

Lemma checksum_blk0 b :
  block_wf b -> blk (checksum_efuse_block b) 0 = blk b 0 mod 16 + 16 * expected_hi b.
Proof.
  intros Hwf. unfold checksum_efuse_block.
  rewrite blk_insert_eq by (destruct Hwf as [-> _]; cbv; lia).
  apply packed_byte0, Hwf.
Qed.

Lemma checksum_blk_ne b i :
  i <> 0%nat -> blk (checksum_efuse_block b) i = blk b i.
Proof. intros Hi. apply blk_insert_ne. lia. Qed.

Lemma expected_hi_range b : block_wf b -> 0 <= expected_hi b <= 15.
Proof.
  intros Hwf. unfold expected_hi.
  pose proof (nibble_residue_range _ (efuse_sum_nonneg b Hwf)). lia.
Qed.

Lemma insert_byte_wf b i v :
  block_wf b -> is_byte v -> block_wf (<[i:=v]> b).
Proof.
  intros [Hl Hb] Hv. split.
  - rewrite length_insert. exact Hl.
  - apply Forall_insert; assumption.
Qed.

Lemma checksum_wf b : block_wf b -> block_wf (checksum_efuse_block b).
Proof.
  intros Hwf. unfold checksum_efuse_block. apply insert_byte_wf; [exact Hwf|].
  rewrite packed_byte0 by exact Hwf.
  pose proof (blk_byte b 0 Hwf). pose proof (expected_hi_range b Hwf). zlia.
Qed.

(** The checksum only reads byte 0's low nibble and bytes 1..3: blocks
    that agree there have the same expected nibble. *)
Lemma expected_hi_ext b b' :
  blk b' 0 mod 16 = blk b 0 mod 16 -> blk b' 1 = blk b 1 ->
  blk b' 2 = blk b 2 -> blk b' 3 = blk b 3 -> expected_hi b' = expected_hi b.
Proof.
  intros H0 H1 H2 H3. unfold expected_hi. rewrite !efuse_sum_eq.
  rewrite H0, H1, H2, H3. reflexivity.
Qed.

Lemma expected_hi_checksum b :
  block_wf b -> expected_hi (checksum_efuse_block b) = expected_hi b.
Proof.
  intros Hwf. pose proof (expected_hi_range b Hwf).
  pose proof (blk_byte b 0 Hwf).
  apply expected_hi_ext; rewrite ?checksum_blk_ne by lia; try reflexivity.
  rewrite checksum_blk0 by exact Hwf. zlia.
Qed.

(** ** Bit errors *)

(** The facts about one flipped bit of one byte that the proofs below use,
    checked on every byte value and bit position. *)
Definition flip_fact (x k : Z) : Prop :=
  let y := Z.lxor x (2 ^ k) in
  is_byte y /\ (y - x) mod 15 <> 0 /\
  (k < 4 -> y / 16 = x / 16 /\ ((y mod 16) - (x mod 16)) mod 15 <> 0) /\
  (4 <= k -> y mod 16 = x mod 16 /\ y / 16 <> x / 16).

#[local] Instance flip_fact_dec x k : Decision (flip_fact x k).
Proof. unfold flip_fact, is_byte. apply _. Defined.

Lemma flip_fact_all x k : is_byte x -> 0 <= k < 8 -> flip_fact x k.
Proof.
  intros Hx Hk. unfold is_byte in Hx.
  change 256 with (Z.of_nat 256) in Hx. change 8 with (Z.of_nat 8) in Hk.
  revert x k Hx Hk. apply (@forall_range_Z2 flip_fact flip_fact_dec). vm_compute. reflexivity.
Qed.

Lemma flip_blk b i k j : (i < length b)%nat ->
  blk (flip b i k) j = if decide (i = j) then Z.lxor (blk b i) (2 ^ k) else blk b j.
Proof.
  intros Hi. unfold flip. case_decide as Hij.
  - subst. apply blk_insert_eq. exact Hi.
  - apply blk_insert_ne. exact Hij.
Qed.

Lemma efuse_sum_pos b : block_wf b -> blk b 0 mod 16 <> 0 -> 0 < efuse_sum b.
Proof.
  intros Hwf Hm. rewrite efuse_sum_eq.
  pose proof (blk_byte b 0 Hwf). pose proof (blk_byte b 1 Hwf).
  pose proof (blk_byte b 2 Hwf). pose proof (blk_byte b 3 Hwf). zlia.
Qed.

(** Two valid blocks with the same checksum nibble have sums that agree
    modulo 15. *)
Lemma valid_pair_sum b b' :
  block_wf b -> block_wf b' ->
  check_efuse_block_valid b = 0 -> check_efuse_block_valid b' = 0 ->
  blk b' 0 / 16 = blk b 0 / 16 -> (efuse_sum b' - efuse_sum b) mod 15 = 0.
Proof.
  intros Hwf Hwf' Hv Hv' Hhi.
  apply check_valid_iff in Hv as [Hm He]; [|exact Hwf].
  apply check_valid_iff in Hv' as [Hm' He']; [|exact Hwf'].
  destruct (Z.eq_dec ((efuse_sum b' - efuse_sum b) mod 15) 0) as [|Hne]; [assumption|].
  exfalso. apply (nibble_residue_ne (efuse_sum b) (efuse_sum b'));
    [apply efuse_sum_pos; auto | apply efuse_sum_pos; auto | exact Hne |].
  unfold expected_hi in He, He'. lia.
Qed.

(** The checksum writer produces a block the validity test accepts. *)
Lemma checksum_valid b :
  block_wf b -> ef_type_of b <> 0 ->
  check_efuse_block_valid (checksum_efuse_block b) = 0.
Proof.
  intros Hwf Ht. unfold ef_type_of in Ht. rewrite land_15 in Ht.
  apply check_valid_iff; [apply checksum_wf, Hwf|].
  rewrite checksum_blk0, expected_hi_checksum by exact Hwf.
  pose proof (blk_byte b 0 Hwf). pose proof (expected_hi_range b Hwf). zlia.
Qed.

(** ** Properties *)

(** C9: after [checksum_efuse_block], a block whose type nibble is not
    [EF_TYPE_REV] passes [check_efuse_block_valid]. *)
Theorem checksum_then_valid b :
  block_wf b -> ef_type_of b <> 0 ->
  check_efuse_block_valid (checksum_efuse_block b) = 0.
Proof. apply checksum_valid. Qed.

(** C21: the validity test and the checksum writer agree: a block passes
    [check_efuse_block_valid] exactly when it is not empty and
    [checksum_efuse_block] leaves it unchanged. *)
Theorem check_valid_fixpoint b :
  block_wf b ->
  check_efuse_block_valid b = 0 <->
  ef_type_of b <> 0 /\ checksum_efuse_block b = b.
Proof.
  intros Hwf. split.
  - intros Hv. pose proof Hv as [Hm He]%check_valid_iff; [|exact Hwf].
    unfold ef_type_of. rewrite land_15. split; [exact Hm|].
    unfold checksum_efuse_block. rewrite packed_byte0 by exact Hwf.
    apply list_insert_id.
    rewrite (lookup_nth b 0 0) by (destruct Hwf as [-> _]; cbv; lia).
    f_equal. pose proof (blk_byte b 0 Hwf). fold (blk b 0). zlia.
  - intros [Ht Hfix]. rewrite <- Hfix. apply checksum_valid; assumption.
Qed.

Lemma flip_wf b i k :
  block_wf b -> 0 <= k < 8 -> block_wf (flip b i k).
Proof.
  intros Hwf Hk. apply insert_byte_wf; [exact Hwf|].
  apply (flip_fact_all (blk b i) k (blk_byte b i Hwf) Hk).
Qed.

Definition sum_part (i : nat) (v : Z) : Z := if (i =? 0)%nat then v mod 16 else v.

(** Byte [i < 4] enters the sum once (byte 0 through its low nibble). *)
Lemma efuse_sum_insert b i v :
  (i < 4)%nat -> (i < length b)%nat ->
  efuse_sum (<[i:=v]> b) = efuse_sum b - sum_part i (blk b i) + sum_part i v.
Proof.
  intros Hi Hl. rewrite !efuse_sum_eq. unfold sum_part.
  destruct i as [|[|[|[|i]]]]; try lia;
    autorewrite with ax_rw; simpl; lia.
Qed.

(** C22: the checksum detects every single-bit error in bytes 0..3 of a
    valid block: flipping any bit there makes [check_efuse_block_valid]
    fail. *)
Theorem flip_detected b i k :
  block_wf b -> check_efuse_block_valid b = 0 ->
  (i < 4)%nat -> 0 <= k < 8 ->
  check_efuse_block_valid (flip b i k) <> 0.
Proof.
  intros Hwf Hv Hi Hk Hv'.
  assert (Hlen : (i < length b)%nat) by (destruct Hwf as [-> _]; cbv; lia).
  pose proof (flip_fact_all (blk b i) k (blk_byte b i Hwf) Hk) as (_ & Hd & Hlo & Hhi).
  pose proof (flip_wf b i k Hwf Hk) as Hwf'.
  pose proof (valid_pair_sum b (flip b i k) Hwf Hwf' Hv Hv') as Hsum.
  unfold flip in Hsum, Hv'. rewrite efuse_sum_insert in Hsum by assumption.
  unfold sum_part in Hsum.
  destruct (Nat.eqb_spec i 0) as [->|Hi0].
  - rewrite blk_insert_eq in Hsum by exact Hlen.
    destruct (Z.lt_ge_cases k 4) as [Hk4|Hk4].
    + destruct (Hlo Hk4) as [Hq Hm]. apply Hm.
      replace (_ - _) with (Z.lxor (blk b 0) (2 ^ k) mod 16 - blk b 0 mod 16) in Hsum by lia.
      exact (Hsum Hq).
    + destruct (Hhi Hk4) as [Hm Hq]. apply Hq.
      apply check_valid_iff in Hv as [_ He]; [|exact Hwf].
      apply check_valid_iff in Hv' as [_ He']; [|exact Hwf'].
      rewrite blk_insert_eq in He' by exact Hlen. rewrite He, He'.
      apply expected_hi_ext; autorewrite with ax_rw; auto.
  - rewrite blk_insert_ne in Hsum by lia. apply Hd.
    replace (_ - _) with (Z.lxor (blk b i) (2 ^ k) - blk b i) in Hsum by lia.
    exact (Hsum eq_refl).
Qed.

Lemma efuse_sum_insert_high b i v :
  (4 <= i)%nat -> efuse_sum (<[i:=v]> b) = efuse_sum b.
Proof. intros Hi. rewrite !efuse_sum_eq. autorewrite with ax_rw. reflexivity. Qed.

(** C28: bytes 4..19 of a block (the MAC address, the serial number and
    the USB fields) are outside the checksum: overwriting any of them
    leaves the verdict of [check_efuse_block_valid] unchanged, so a
    corrupted MAC or serial number in an eFuse file is never caught. *)
Theorem check_ignores_payload b i v :
  (4 <= i)%nat -> check_efuse_block_valid (<[i:=v]> b) = check_efuse_block_valid b.
Proof.
  intros Hi. unfold check_efuse_block_valid.
  rewrite efuse_sum_insert_high by exact Hi.
  rewrite (blk_insert_ne b i 0) by lia. reflexivity.
Qed.

(** ** Executable well-formedness, for concrete blocks *)

Definition block_wfb (b : block) : bool :=
  (length b =? EF_DATA_STRUCT_SIZE)%nat && forallb (fun z => bool_decide (is_byte z)) b.

Lemma block_wfb_sound b : block_wfb b = true -> block_wf b.
Proof.
  unfold block_wfb. intros [Hl Hb]%andb_prop. split.
  - apply Nat.eqb_eq, Hl.
  - apply Forall_forall. intros z Hz.
    rewrite forallb_forall in Hb. apply (bool_decide_eq_true (is_byte z)), Hb, Hz.
Qed.

(** A type-1 block as the vendor files carry it: VID 0x0B95, PID 0x1790,
    MAC 00:0E:C6:01:02:03, before its checksum nibble is computed. *)
Definition sample_type01_raw : block :=
  [1; 149; 11; 144; 23; 0; 14; 198; 1; 2; 3; 0; 2; 0; 0; 0; 0; 0; 0; 0].

Definition sample_type01 : block := checksum_efuse_block sample_type01_raw.

(** ** Witnesses *)

Lemma checksum_then_valid_witness :
  check_efuse_block_valid (checksum_efuse_block sample_type01_raw) = 0.
Proof.
  apply checksum_then_valid;
    [apply block_wfb_sound; vm_compute; reflexivity | vm_compute; discriminate].
Defined.

Lemma check_valid_fixpoint_witness :
  ef_type_of sample_type01 <> 0 /\ checksum_efuse_block sample_type01 = sample_type01.
Proof.
  apply (check_valid_fixpoint sample_type01);
    [apply block_wfb_sound | ]; vm_compute; reflexivity.
Defined.

Lemma flip_detected_witness :
  check_efuse_block_valid (flip sample_type01 2 3) <> 0.
Proof.
  apply flip_detected;
    [apply block_wfb_sound; vm_compute; reflexivity
    | vm_compute; reflexivity | lia | lia].
Defined.

Lemma check_ignores_payload_witness :
  check_efuse_block_valid (<[7%nat := 255]> sample_type01) =
  check_efuse_block_valid sample_type01.
Proof. apply check_ignores_payload. lia. Defined.

(** The first bytes of [sample_type01] carry checksum nibble 0xA: the sum 305 folds to 5. *)
Example sample_type01_byte0 : blk sample_type01 0 = 161.
Proof. vm_compute. reflexivity. Qed.

(** The three verdicts of [check_efuse_block_valid]. *)
Lemma check_cases b :
  check_efuse_block_valid b = 0 \/ check_efuse_block_valid b = -7 \/
  check_efuse_block_valid b = -8.
Proof.
  unfold check_efuse_block_valid.
  destruct (_ =? _); [right; left; reflexivity|].
  destruct (negb _); simpl; auto.
Qed.

Lemma block_valid_check b :
  block_valid b = true <-> check_efuse_block_valid b = 0.
Proof. unfold block_valid. apply Z.eqb_eq. Qed.

Lemma block_invalid_check b :
  block_valid b = false -> check_efuse_block_valid b < 0.
Proof.
  unfold block_valid. intros H. apply Z.eqb_neq in H.
  destruct (check_cases b) as [|[|]]; lia.
Qed.
