(* ===== verification/EfuseMerge.v ===== *)
(** * The eFuse merge engine

    Models [__find_efuse_index] (lines 619-630), [find_empty_block_index]
    (lines 753-763) and [merge_efuse] (lines 809-842).  [writeefuse_func]
    allocates one buffer of 128 blocks and uses blocks 0..63 as
    [file_efuse] and blocks 64..127 as [dump_efuse]; both halves are lists
    of 64 blocks here, and [merge_write_bound] shows that the merge never
    writes past block 57 of its half, so the two halves never alias.

    The abstract contract is [merge_spec]: find the high-water mark of the
    chip dump, take the non-empty blocks of the file from index 5 on,
    reject the whole batch if one of them is invalid, else append them at
    the mark.  [merge_refines] proves that [merge_efuse] implements it. *)

From Stdlib Require Import ZArith Lia.
From stdpp Require Import base list decidable.
From S2P Require Import Prelude Checksum.

Open Scope Z_scope.
Open Scope ax_scope.

(** ** Data *)

Definition zero_block : block := repeat 0 EF_DATA_STRUCT_SIZE.

(** [efuse[i]]: arrays are long enough that the default is never read. *)
Definition efuse_at (efuse : list block) (i : nat) : block := nth i efuse zero_block.

(** The number of blocks of each half of the buffer of [writeefuse_func]. *)
Definition EFUSE_HALF : nat := 64.

(** The first block the tool ever looks at; 0..4 are reserved. *)
Definition EFUSE_FIRST : nat := 5.

(** ** Operations *)

(** [for (i = 5; i < EFUSE_NUM_BLOCK; i++) if (efuse[i]...type == t) ...]:
    the first index in [i, i + n) whose block has type nibble [t]. *)
Fixpoint scan_type (efuse : list block) (t : Z) (i n : nat) : option nat :=
  match n with
  | O => None
  | S n' => if ef_type_of (efuse_at efuse i) =? t then Some i
            else scan_type efuse t (S i) n'
  end.

Definition __find_efuse_index (efuse : list block) (type : ef_type) : Z :=
  match scan_type efuse (ef_type_val type) EFUSE_FIRST (EFUSE_NUM_BLOCK - EFUSE_FIRST) with
  | Some i => Z.of_nat i
  | None => -! FAIL_GENERIAL_ERROR
  end.

Definition find_empty_block_index (efuse : list block) : Z :=
  match scan_type efuse (ef_type_val EF_TYPE_REV) EFUSE_FIRST
                  (EFUSE_NUM_BLOCK - EFUSE_FIRST) with
  | Some i => Z.of_nat i
  | None => -1
  end.

(** The loop of [merge_efuse]: [i] walks the file image, [j] the dump;
    returns the code, the dump and [*program_block]. *)
Fixpoint merge_loop (n i j : nat) (dump_efuse file_efuse : list block)
    (program_block : Z) : Z * list block * Z :=
  match n with
  | O => (code SUCCESS, dump_efuse, program_block)
  | S n' =>
      let blk_i := efuse_at file_efuse i in
      if ef_type_of blk_i =? ef_type_val EF_TYPE_REV
      then (code SUCCESS, dump_efuse, program_block)
      else
        let ret := check_efuse_block_valid blk_i in
        if ret <? 0 then (ret, dump_efuse, program_block)
        else merge_loop n' (S i) (S j) (<[j := blk_i]> dump_efuse) file_efuse
                        (program_block + 1)
  end.

(** What [merge_efuse] leaves in its result and in its two out-parameters
    [*program_block] and [*program_index] (unsigned, so [-1] is
    [0xFFFFFFFF]). *)
Record merge_result := {
  mr_ret : Z;
  mr_dump : list block;
  mr_program_block : Z;
  mr_program_index : Z
}.

Definition UINT_MAX : Z := 2 ^ 32 - 1.

(** [pb] and [pi] are the values the out-parameters held before the call;
    the first early return leaves them untouched. *)
Definition merge_efuse (dump_efuse file_efuse : list block) (pb pi : Z) : merge_result :=
  let dump_empty_index := find_empty_block_index dump_efuse in
  if dump_empty_index <? 0 then
    {| mr_ret := -! FAIL_NON_EMPTY_RFUSE_BLOCK; mr_dump := dump_efuse;
       mr_program_block := pb; mr_program_index := pi |}
  else
    let '(ret, dump', pb') :=
      merge_loop (EFUSE_NUM_BLOCK - EFUSE_FIRST) EFUSE_FIRST
                 (Z.to_nat dump_empty_index) dump_efuse file_efuse 0 in
    if ret <? 0 then
      {| mr_ret := ret; mr_dump := dump'; mr_program_block := pb';
         mr_program_index := UINT_MAX |}
    else
      {| mr_ret := code SUCCESS; mr_dump := dump'; mr_program_block := pb';
         mr_program_index := dump_empty_index |}.

(** ** The abstract contract *)

(** The high-water mark: the first empty block of 5..31. *)
Definition high_water_mark (efuse : list block) : option nat :=
  scan_type efuse 0 EFUSE_FIRST (EFUSE_NUM_BLOCK - EFUSE_FIRST).

(** The blocks a file image contributes: the non-empty ones from index
    [i] on, up to the first empty one. *)
Fixpoint new_blocks (file : list block) (i n : nat) : list block :=
  match n with
  | O => []
  | S n' => let b := efuse_at file i in
            if ef_type_of b =? 0 then [] else b :: new_blocks file (S i) n'
  end.

Definition file_new_blocks (file : list block) : list block :=
  new_blocks file EFUSE_FIRST (EFUSE_NUM_BLOCK - EFUSE_FIRST).

(** Either the error code, or the mark, the number of blocks to program
    and the chip image to program them from. *)
Definition merge_spec (dump file : list block) : Z + (nat * nat * list block) :=
  match high_water_mark dump with
  | None => inl (-! FAIL_NON_EMPTY_RFUSE_BLOCK)
  | Some m =>
      let nb := file_new_blocks file in
      match list_find (fun b => block_valid b = false) nb with
      | Some (_, b) => inl (check_efuse_block_valid b)
      | None => inr (m, length nb, write_range dump m nb)
      end
  end.

(** How a [merge_result] reads against the contract. *)
Definition merge_view (r : merge_result) : Z + (nat * nat * list block) :=
  if mr_ret r =? 0
  then inr (Z.to_nat (mr_program_index r), Z.to_nat (mr_program_block r), mr_dump r)
  else inl (mr_ret r).

(** The number of leading blocks that pass [check_efuse_block_valid]. *)
Fixpoint valid_prefix (bs : list block) : nat :=
  match bs with
  | [] => 0
  | b :: bs' => if block_valid b then S (valid_prefix bs') else 0
  end.

(** ** The loop *)

Lemma valid_prefix_le bs : (valid_prefix bs <= length bs)%nat.
Proof. induction bs as [|b bs IH]; simpl; [lia|]. destruct (block_valid b); lia. Qed.

Lemma new_blocks_length file i n : (length (new_blocks file i n) <= n)%nat.
Proof.
  revert i. induction n as [|n IH]; intros i; simpl; [lia|].
  destruct (_ =? 0); simpl; [lia|]. specialize (IH (S i)). lia.
Qed.

(** What the copy loop computes, whatever the outcome: the leading valid
    blocks are copied from [j] on, and the code is that of the first
    invalid block, if any. *)
Lemma merge_loop_eq n i j dump file pb :
  (j + n <= length dump)%nat ->
  merge_loop n i j dump file pb =
  let bs := new_blocks file i n in
  let p := valid_prefix bs in
  ((if (p =? length bs)%nat then 0
    else check_efuse_block_valid (nth p bs zero_block)),
   write_range dump j (firstn p bs), pb + Z.of_nat p).
Proof.
  revert i j dump pb. induction n as [|n IH]; intros i j dump pb Hlen; simpl.
  - rewrite write_range_nil. f_equal. lia.
  - destruct (Z.eqb_spec (ef_type_of (efuse_at file i)) 0) as [He|He].
    { simpl. rewrite write_range_nil. f_equal. lia. }
    destruct (check_cases (efuse_at file i)) as [Hv|Hv].
    + assert (Hb : block_valid (efuse_at file i) = true) by (apply block_valid_check; exact Hv).
      rewrite Hv, IH by (rewrite length_insert; lia). simpl. rewrite Hb.
      rewrite write_range_cons by lia. f_equal; first [reflexivity | lia].
    + assert (Hb : block_valid (efuse_at file i) = false)
        by (unfold block_valid; apply Z.eqb_neq; lia).
      replace (check_efuse_block_valid _ <? 0) with true by (symmetry; apply Z.ltb_lt; lia).
      simpl. rewrite Hb. simpl. rewrite write_range_nil. f_equal. lia.
Qed.

Lemma scan_type_range efuse t i n k :
  scan_type efuse t i n = Some k -> (i <= k < i + n)%nat.
Proof.
  revert i. induction n as [|n IH]; intros i; simpl; [discriminate|].
  destruct (_ =? t).
  - intros [= <-]. lia.
  - intros H. specialize (IH (S i) H). lia.
Qed.

Lemma hwm_range dump m :
  high_water_mark dump = Some m -> (5 <= m < 32)%nat.
Proof. apply scan_type_range. Qed.

(** The copy window [m, m + 27) fits in the 64 blocks of the dump half. *)
Lemma hwm_fits dump m :
  high_water_mark dump = Some m ->
  (m + (EFUSE_NUM_BLOCK - EFUSE_FIRST) <= EFUSE_HALF)%nat.
Proof. intros Hm. pose proof (hwm_range dump m Hm). unfold EFUSE_HALF. simpl. lia. Qed.

Lemma find_empty_block_index_hwm dump :
  find_empty_block_index dump =
  match high_water_mark dump with Some m => Z.of_nat m | None => -1 end.
Proof. reflexivity. Qed.

Lemma valid_prefix_find bs :
  match list_find (fun b => block_valid b = false) bs with
  | None => valid_prefix bs = length bs
  | Some (p, b) =>
      valid_prefix bs = p /\ (p < length bs)%nat /\
      nth p bs zero_block = b /\ block_valid b = false
  end.
Proof.
  induction bs as [|b bs IH]; simpl; [reflexivity|].
  case_decide as Hd.
  - rewrite Hd. split_and!; auto. lia.
  - assert (Hb : block_valid b = true) by (destruct (block_valid b); congruence).
    rewrite Hb. destruct (list_find _ bs) as [[p b']|]; simpl.
    + destruct IH as (-> & Hlt & <- & Hv). split_and!; auto. lia.
    + rewrite IH. reflexivity.
Qed.

(** The dump [merge_efuse] leaves, whatever the outcome. *)
Lemma merge_efuse_dump dump file pb pi :
  length dump = EFUSE_HALF ->
  mr_dump (merge_efuse dump file pb pi) =
  match high_water_mark dump with
  | None => dump
  | Some m => write_range dump m (firstn (valid_prefix (file_new_blocks file))
                                         (file_new_blocks file))
  end.
Proof.
  intros Hlen. unfold merge_efuse. rewrite find_empty_block_index_hwm.
  destruct (high_water_mark dump) as [m|] eqn:Hm; [|reflexivity].
  pose proof (hwm_range dump m Hm).
  replace (Z.of_nat m <? 0) with false by (symmetry; apply Z.ltb_ge; lia).
  rewrite Nat2Z.id, merge_loop_eq by (rewrite Hlen; apply (hwm_fits dump m Hm)).
  simpl. destruct (_ <? 0); reflexivity.
Qed.

(** ** Properties *)

(** The merge computes what its contract says (shared by the
    properties below). *)
Lemma merge_view_spec dump file pb pi :
  length dump = EFUSE_HALF ->
  merge_view (merge_efuse dump file pb pi) = merge_spec dump file.
Proof.
  intros Hlen. unfold merge_efuse, merge_spec. rewrite find_empty_block_index_hwm.
  destruct (high_water_mark dump) as [m|] eqn:Hm; [|reflexivity].
  pose proof (hwm_range dump m Hm).
  replace (Z.of_nat m <? 0) with false by (symmetry; apply Z.ltb_ge; lia).
  rewrite Nat2Z.id, merge_loop_eq by (rewrite Hlen; apply (hwm_fits dump m Hm)).
  fold (file_new_blocks file). cbn -[file_new_blocks zero_block].
  pose proof (valid_prefix_find (file_new_blocks file)) as Hf.
  destruct (list_find _ (file_new_blocks file)) as [[p b]|].
  - destruct Hf as (-> & Hlt & Hnth & Hb).
    destruct (Nat.eqb_spec p (length (file_new_blocks file))) as [Hp|Hp]; [lia|].
    + rewrite Hnth. pose proof (block_invalid_check b Hb).
      replace (check_efuse_block_valid b <? 0) with true by (symmetry; apply Z.ltb_lt; lia).
      unfold merge_view. simpl.
      destruct (Z.eqb_spec (check_efuse_block_valid b) 0); [lia | reflexivity].
  - rewrite Hf, Nat.eqb_refl, firstn_all. unfold merge_view. simpl.
    rewrite Nat2Z.id, Z.add_0_l, Nat2Z.id. reflexivity.
Qed.

(** A successful merge, as the programming step uses it: the raw
    out-parameters, the staged dump and the validity of what is staged. *)
Lemma merge_success dump file pb pi :
  length dump = EFUSE_HALF -> mr_ret (merge_efuse dump file pb pi) = 0 ->
  exists m, high_water_mark dump = Some m /\
    mr_program_index (merge_efuse dump file pb pi) = Z.of_nat m /\
    mr_program_block (merge_efuse dump file pb pi) = Z.of_nat (length (file_new_blocks file)) /\
    mr_dump (merge_efuse dump file pb pi) = write_range dump m (file_new_blocks file) /\
    Forall (fun b => block_valid b = true) (file_new_blocks file).
Proof.
  intros Hlen. unfold merge_efuse. rewrite find_empty_block_index_hwm.
  destruct (high_water_mark dump) as [m|] eqn:Hm; [|discriminate].
  pose proof (hwm_range dump m Hm).
  replace (Z.of_nat m <? 0) with false by (symmetry; apply Z.ltb_ge; lia).
  rewrite Nat2Z.id, merge_loop_eq by (rewrite Hlen; apply (hwm_fits dump m Hm)).
  fold (file_new_blocks file). cbn -[file_new_blocks zero_block].
  pose proof (valid_prefix_find (file_new_blocks file)) as Hf.
  destruct (list_find _ (file_new_blocks file)) as [[p b]|] eqn:Hl.
  - destruct Hf as (-> & Hlt & Hnth & Hb).
    destruct (Nat.eqb_spec p (length (file_new_blocks file))) as [Hp|Hp]; [lia|].
    rewrite Hnth. pose proof (block_invalid_check b Hb).
    replace (check_efuse_block_valid b <? 0) with true by (symmetry; apply Z.ltb_lt; lia).
    simpl. lia.
  - rewrite Hf, Nat.eqb_refl, firstn_all. simpl. intros _. exists m.
    split_and!; [reflexivity | reflexivity | lia | reflexivity |].
    apply list_find_None in Hl. eapply Forall_impl; [|exact Hl].
    intros b Hb. destruct (block_valid b) eqn:E; [reflexivity | exfalso; exact (Hb E)].
Qed.

(** The merge reports [SUCCESS] or a negative code. *)
Lemma merge_ret_nonpos dump file pb pi :
  length dump = EFUSE_HALF -> mr_ret (merge_efuse dump file pb pi) <= 0.
Proof.
  intros Hlen. pose proof (merge_view_spec dump file pb pi Hlen) as Hv.
  unfold merge_view, merge_spec in Hv.
  destruct (Z.eqb_spec (mr_ret (merge_efuse dump file pb pi)) 0) as [|Hne]; [lia|].
  destruct (high_water_mark dump); [|injection Hv; intros ->; cbn; lia].
  pose proof (valid_prefix_find (file_new_blocks file)) as Hf.
  destruct (list_find _ _) as [[p b]|]; [|discriminate].
  injection Hv as ->. destruct Hf as (_ & _ & _ & Hb).
  pose proof (block_invalid_check b Hb). lia.
Qed.

(** C1: [merge_efuse] implements its contract [merge_spec]: it fails with
    [-FAIL_NON_EMPTY_RFUSE_BLOCK] when blocks 5..31 of the chip are all
    used, fails with the verdict of the first invalid block when a block
    the file contributes is invalid, and otherwise reports the
    high-water mark as [program_index], the number of new blocks as
    [program_block], and the chip image with the new blocks appended at
    the mark. *)
Theorem merge_refines dump file pb pi :
  length dump = EFUSE_HALF ->
  merge_view (merge_efuse dump file pb pi) = merge_spec dump file.
Proof. apply merge_view_spec. Qed.

(** C8: the merge is append-only and stays inside its half of the buffer:
    a block of the dump that differs after [merge_efuse] lies at or above
    the high-water mark, among the blocks the file contributes, and below
    block 58 (so never past the 64 blocks of [dump_efuse]); blocks below
    the mark, which are already burnt on the chip, are never touched. *)
Theorem merge_frame dump file pb pi k :
  length dump = EFUSE_HALF ->
  efuse_at (mr_dump (merge_efuse dump file pb pi)) k <> efuse_at dump k ->
  exists m, high_water_mark dump = Some m /\
            (m <= k < m + length (file_new_blocks file))%nat /\ (k < 58)%nat.
Proof.
  intros Hlen Hk. rewrite merge_efuse_dump in Hk by exact Hlen.
  destruct (high_water_mark dump) as [m|] eqn:Hm; [|contradiction].
  exists m. split; [reflexivity|].
  pose proof (hwm_range dump m Hm) as Hr.
  pose proof (new_blocks_length file EFUSE_FIRST (EFUSE_NUM_BLOCK - EFUSE_FIRST)) as Hnb.
  fold (file_new_blocks file) in Hnb.
  set (src := firstn _ (file_new_blocks file)) in Hk.
  assert (Hsrc : (length src <= length (file_new_blocks file))%nat)
    by (subst src; rewrite length_firstn; lia).
  destruct (decide (m <= k < m + length src)%nat) as [Hin|Hout].
  - simpl in Hnb. lia.
  - exfalso. apply Hk. unfold efuse_at.
    apply nth_write_range_out; [rewrite Hlen; unfold EFUSE_HALF; simpl in Hnb; lia | lia].
Qed.

(** Shared by the properties: the staged window holds valid blocks. *)
Lemma merge_staged_valid dump file pb pi k :
  length dump = EFUSE_HALF ->
  mr_ret (merge_efuse dump file pb pi) = 0 ->
  (Z.to_nat (mr_program_index (merge_efuse dump file pb pi)) <= k <
   Z.to_nat (mr_program_index (merge_efuse dump file pb pi)) +
   Z.to_nat (mr_program_block (merge_efuse dump file pb pi)))%nat ->
  block_valid (efuse_at (mr_dump (merge_efuse dump file pb pi)) k) = true.
Proof.
  intros Hlen Hret Hk.
  pose proof (merge_view_spec dump file pb pi Hlen) as Hr.
  unfold merge_view in Hr. rewrite Hret in Hr. simpl in Hr.
  revert Hk. set (r := merge_efuse dump file pb pi) in *. clearbody r.
  unfold merge_spec in Hr.
  destruct (high_water_mark dump) as [m|] eqn:Hm; [|discriminate].
  destruct (list_find _ _) as [[p b]|] eqn:Hf; [discriminate|].
  injection Hr as Hi Hc Hd. rewrite Hi, Hc, Hd. intros Hk.
  pose proof (hwm_fits dump m Hm) as Hfit.
  pose proof (new_blocks_length file EFUSE_FIRST (EFUSE_NUM_BLOCK - EFUSE_FIRST)).
  fold (file_new_blocks file) in *.
  unfold efuse_at.
  rewrite nth_write_range_in by (rewrite ?Hlen; unfold EFUSE_HALF in *; simpl in *; lia).
  apply list_find_None, Forall_forall with (x := nth (k - m) (file_new_blocks file) zero_block) in Hf.
  - destruct (block_valid _); [reflexivity | congruence].
  - apply nth_In. lia.
Qed.

(** C20: the merge only ever stages valid blocks for programming: when
    [merge_efuse] succeeds, every block of the window
    [program_index, program_index + program_block) of the dump passes
    [check_efuse_block_valid]. *)
Theorem merge_stages_valid dump file pb pi k :
  length dump = EFUSE_HALF ->
  mr_ret (merge_efuse dump file pb pi) = 0 ->
  (Z.to_nat (mr_program_index (merge_efuse dump file pb pi)) <= k <
   Z.to_nat (mr_program_index (merge_efuse dump file pb pi)) +
   Z.to_nat (mr_program_block (merge_efuse dump file pb pi)))%nat ->
  block_valid (efuse_at (mr_dump (merge_efuse dump file pb pi)) k) = true.
Proof. apply merge_staged_valid. Qed.

(** C26: with no empty block among 5..31 of the chip dump, [merge_efuse]
    fails with [-FAIL_NON_EMPTY_RFUSE_BLOCK] and changes neither the dump
    nor its out-parameters. *)
Theorem merge_no_free_slot dump file pb pi :
  high_water_mark dump = None ->
  merge_efuse dump file pb pi =
  {| mr_ret := -! FAIL_NON_EMPTY_RFUSE_BLOCK; mr_dump := dump;
     mr_program_block := pb; mr_program_index := pi |}.
Proof.
  intros Hm. unfold merge_efuse. rewrite find_empty_block_index_hwm, Hm. reflexivity.
Qed.

(** C27: a batch with one invalid block is rejected whole: if a block the
    file contributes fails [check_efuse_block_valid], [merge_efuse]
    returns a negative code. *)
Theorem merge_rejects_invalid dump file pb pi b :
  length dump = EFUSE_HALF -> high_water_mark dump <> None ->
  b ∈ file_new_blocks file -> block_valid b = false ->
  mr_ret (merge_efuse dump file pb pi) < 0.
Proof.
  intros Hlen Hm Hb Hinv.
  pose proof (merge_view_spec dump file pb pi Hlen) as Hr.
  unfold merge_spec in Hr. destruct (high_water_mark dump) as [m|]; [|congruence].
  destruct (list_find (fun b => block_valid b = false) _) as [[p b']|] eqn:Hf.
  - apply list_find_Some in Hf as (Hl & Hb' & _).
    pose proof (block_invalid_check b' Hb').
    unfold merge_view in Hr. destruct (Z.eqb_spec (mr_ret (merge_efuse dump file pb pi)) 0).
    + discriminate.
    + injection Hr as ->. exact H.
  - exfalso. apply list_find_None in Hf.
    rewrite Forall_forall in Hf. apply list_elem_of_In in Hb. apply (Hf b Hb Hinv).
Qed.

(** ** Concrete images *)

(** A chip dump whose first [n] blocks are used. *)
Definition chip_used (n : nat) : list block :=
  repeat sample_type01 n ++ repeat zero_block (EFUSE_HALF - n).

(** A file image contributing the blocks [bs] from index 5 on. *)
Definition file_blocks (bs : list block) : list block :=
  repeat zero_block EFUSE_FIRST ++ bs ++
  repeat zero_block (EFUSE_HALF - EFUSE_FIRST - length bs).

Definition file_two : list block := file_blocks [sample_type01; sample_type01].

(** The high-water mark of a chip with blocks 5..10 used is 11, that of a
    chip with 5..31 used does not exist. *)
Example hwm_blocks_5_10 : high_water_mark (chip_used 11) = Some 11%nat.
Proof. vm_compute. reflexivity. Qed.

Example hwm_full : high_water_mark (chip_used 32) = None.
Proof. vm_compute. reflexivity. Qed.

(** With the mark at 10 and two new blocks: [program_index = 10],
    [program_block = 2]. *)
Example merge_mark_10 :
  mr_ret (merge_efuse (chip_used 10) file_two 0 0) = 0 /\
  mr_program_index (merge_efuse (chip_used 10) file_two 0 0) = 10 /\
  mr_program_block (merge_efuse (chip_used 10) file_two 0 0) = 2.
Proof. vm_compute. auto. Qed.

(** The code does not check that the new blocks fit below block 32: with
    the mark at 31 and two new blocks, [merge_efuse] succeeds with
    [program_index + program_block = 33]; only [__program_efuse_block]
    rejects the batch later. *)
Example merge_mark_31_overflows :
  mr_ret (merge_efuse (chip_used 31) file_two 0 0) = 0 /\
  mr_program_index (merge_efuse (chip_used 31) file_two 0 0) = 31 /\
  mr_program_block (merge_efuse (chip_used 31) file_two 0 0) = 2.
Proof. vm_compute. auto. Qed.

(** ** Witnesses *)

Lemma merge_refines_witness :
  merge_view (merge_efuse (chip_used 10) file_two 0 0) = merge_spec (chip_used 10) file_two.
Proof. apply merge_refines. vm_compute. reflexivity. Defined.

Lemma merge_frame_witness :
  exists m, high_water_mark (chip_used 10) = Some m /\
            (m <= 10 < m + length (file_new_blocks file_two))%nat /\ (10 < 58)%nat.
Proof.
  apply (merge_frame (chip_used 10) file_two 0 0 10);
    [vm_compute; reflexivity | intros H; vm_compute in H; discriminate H].
Defined.

Lemma merge_stages_valid_witness :
  block_valid (efuse_at (mr_dump (merge_efuse (chip_used 10) file_two 0 0)) 11) = true.
Proof.
  apply merge_stages_valid; vm_compute; [reflexivity | reflexivity | lia].
Defined.

Lemma merge_no_free_slot_witness :
  merge_efuse (chip_used 32) file_two 7 8 =
  {| mr_ret := -! FAIL_NON_EMPTY_RFUSE_BLOCK; mr_dump := chip_used 32;
     mr_program_block := 7; mr_program_index := 8 |}.
Proof. apply merge_no_free_slot. vm_compute. reflexivity. Defined.

Definition file_corrupt : list block := file_blocks [sample_type01; flip sample_type01 1 0].

Lemma merge_rejects_invalid_witness :
  mr_ret (merge_efuse (chip_used 10) file_corrupt 0 0) < 0.
Proof.
  apply (merge_rejects_invalid _ _ _ _ (flip sample_type01 1 0)).
  - vm_compute. reflexivity.
  - vm_compute. discriminate.
  - apply list_elem_of_In. vm_compute. right. left. reflexivity.
  - vm_compute. reflexivity.
Defined.
