(* ===== verification/Device.v ===== *)
(** * The device session: requests, the backend interface, discovery

    Every request the tool sends is an [ioctl(inet_sock, AX_PRIVATE, ifr)]
    (or [SIOCGIFHWADDR]) addressed to the interface named in
    [ifr->ifr_name].  The driver behind it is not part of [src/]: it is
    the class [Backend], whose instances say how a device answers, what
    [getifaddrs] lists and what happens to the device while the tool
    sleeps.  The constants of [ax_ioctl.h] (not in [src/] either) are the
    class [AxConfig].

    The state threaded through the code is a [world]: the device, the
    interface name held in [ifr], the log of every request and sleep in
    issue order, and the out-of-bounds buffer accesses the code made (the
    code has no bounds checks; the model records each access that would
    leave its buffer), the lines printed on stdout and those printed on
    stderr (the [fprintf(stderr, ...)] diagnostics).  [scan_ax_device] (lines 1155-1227) is modelled
    for both settings of [NET_INTERFACE].

    The classes at the end say what an action does to the session:
    [Appends] (only extends the log), [Silent] (prints nothing on
    stdout), [ErrQuiet] and [Reports] (what it prints on stderr, and
    when); [rep_tac] composes [Reports] along the code. *)

From Stdlib Require Import ZArith Lia String Ascii.
From stdpp Require Import base list decidable pretty.
From S2P Require Import Prelude Checksum.

Open Scope Z_scope.
Open Scope ax_scope.

(** ** The request surface ([struct _ax_ioctl_command] of ax_ioctl.h) *)

Inductive request :=
| AX_SIGNATURE
| AX88179A_READ_VERSION
| AX88179A_WRITE_FLASH (offset len : Z) (buf : list Z)
| AX88179A_READ_FLASH (offset len : Z)
| AX88179A_ERASE_FLASH
| AX88179A_ROOT_2_ROM
| AX88179A_SW_RESET
| AX88179A_DUMP_EFUSE (index : Z)
| AX88179A_PROGRAM_EFUSE (index : Z) (data : block)
| SIOCGIFHWADDR.

(** What an [ioctl] gives back: its return value, the [flash.status]
    field, the [sig] / [version] string and the bytes the driver copied
    into the caller's buffer. *)
Record reply := { rp_ret : Z; rp_status : Z; rp_str : string; rp_data : list Z }.

Definition reply_fail : reply := {| rp_ret := -1; rp_status := 0; rp_str := ""; rp_data := [] |}.

(** ** The constants of ax_ioctl.h and the build setting [NET_INTERFACE] *)

Inductive net_interface := INTERFACE_SCAN | INTERFACE_ETH.

Class AxConfig := {
  SCAN_DEV_MAX_RETRY : nat;
  AX88179A_DRV_NAME : string;
  AX88179A_SIGNATURE : string;
  NET_INTERFACE : net_interface
}.

(** ** The command table [ax88179a_cmd_list] (lines 61-162) *)

(** ["\n"]. *)
Definition nl : string := String "010"%char EmptyString.

(** An entry of the table: the command name and the two help strings
    ([ioctl_cmd], copied into [info] by [main], is read by no handler). *)
Record cmd_entry := mk_cmd_entry { cmd : string; help_ins : string; help_desc : string }.

Definition help_str1 : string :=
  "./ax88179a_programmer help [command]" +:+ nl +:+ "    -- command description" +:+ nl.
Definition help_str2 : string := "        [command] - Display usage of specified command" +:+ nl.
Definition readverion_str1 : string :=
  "./ax88179a_programmer rversion" +:+ nl +:+ "    -- AX88179A_772D Read Firmware Verion" +:+ nl.
Definition readmac_str1 : string :=
  "./ax88179a_programmer rmacaddr" +:+ nl +:+ "    -- AX88179A_772D Read MAC Address" +:+ nl.
Definition writeflash_str1 : string :=
  "./ax88179a_programmer wflash [file]" +:+ nl +:+ "    -- AX88179A_772D Write Flash" +:+ nl.
Definition writeflash_str2 : string := "        [file]    - Flash file path" +:+ nl.
Definition writeefuse_str1 : string :=
  "./ax88179a_programmer wefuse -m [MAC] -s [SN] -f [File]" +:+ nl +:+
  "    -- AX88179A_772D Write eFuse" +:+ nl.
Definition writeefuse_str2 : string :=
  "        -m [MAC]    - MAC address (XX:XX:XX:XX:XX:XX)" +:+ nl +:+
  "        -s [SN]     - Serial number" +:+ nl +:+
  "        -f [File]   - eFuse file path" +:+ nl.
Definition readefuse_str1 : string :=
  "./ax88179a_programmer refuse -f [File]" +:+ nl +:+ "    -- AX88179A_772D Read eFuse" +:+ nl.
Definition readefuse_str2 : string := "        -f [File]   - eFuse file path" +:+ nl.
Definition reload_str1 : string :=
  "./ax88179a_programmer reload" +:+ nl +:+ "    -- AX88179A_772D Reload" +:+ nl.

Definition ax88179a_cmd_list : list cmd_entry :=
  [mk_cmd_entry "help" help_str1 help_str2;
   mk_cmd_entry "rversion" readverion_str1 "";
   mk_cmd_entry "rmacaddr" readmac_str1 "";
   mk_cmd_entry "wflash" writeflash_str1 writeflash_str2;
   mk_cmd_entry "wefuse" writeefuse_str1 writeefuse_str2;
   mk_cmd_entry "refuse" readefuse_str1 readefuse_str2;
   mk_cmd_entry "reload" reload_str1 ""].

Definition cmd_names : list string := map cmd ax88179a_cmd_list.

(** [strncmp(s, cmd, strlen(cmd)) == 0]: [cmd] is a prefix of [s]. *)
Definition cmd_matches (s c : string) : bool := String.prefix c s.

(** [for (i = 0; ax88179a_cmd_list[i].cmd != NULL; i++) if (...) ...]:
    the first entry that matches, by index and by value. *)
Definition find_cmd (s : string) : option nat :=
  fst <$> list_find (fun c => cmd_matches s c = true) cmd_names.

Definition lookup_cmd (s : string) : option cmd_entry :=
  snd <$> list_find (fun e => cmd_matches s (cmd e) = true) ax88179a_cmd_list.

(** [printf("%s%s\n", help_ins, help_desc)]. *)
Definition help_text (e : cmd_entry) : string := help_ins e +:+ help_desc e +:+ nl.

(** ** The backend *)

Class Backend (D : Type) := {
  be_ioctl : string -> request -> D -> reply * D;
  be_ifaddrs : D -> list string;
  be_sleep : Z -> D -> D
}.

Inductive event :=
| EvIoctl (ifname : string) (req : request) (rp : reply)
| EvSleep (us : Z).

Record world (D : Type) := mk_world {
  w_dev : D;
  w_ifr : string;
  w_log : list event;
  w_oob : list string;
  w_out : list string;
  w_err : list string
}.
Arguments mk_world {D}.
Arguments w_dev {D}.
Arguments w_ifr {D}.
Arguments w_log {D}.
Arguments w_oob {D}.
Arguments w_out {D}.
Arguments w_err {D}.

(** ** The diagnostics of lines 49-56 *)

(** [fprintf(stderr, "%s: ioctl failed. (err: %d)\n", __func__, ret)]. *)
Definition PRINT_IOCTL_FAIL (func : string) (ret : Z) : string :=
  func +:+ ": ioctl failed. (err: " +:+ pretty ret +:+ ")" +:+ nl.

Definition PRINT_SCAN_DEV_FAIL (func : string) : string := func +:+ ": Scaning device failed." +:+ nl.

Definition PRINT_ALLCATE_MEM_FAIL (func : string) : string := func +:+ ": Fail to allocate memory." +:+ nl.

Definition PRINT_LOAD_FILE_FAIL (func : string) : string := func +:+ ": Read file failed." +:+ nl.

(** [fprintf(stderr, "%s: Fail to open %s file.\n", __func__, path)]. *)
Definition open_fail_msg (func path : string) : string := func +:+ ": Fail to open " +:+ path +:+ " file." +:+ nl.

Section Session.
Context `{AxConfig} {D : Type} `{Backend D}.

Abbreviation M := (st (world D)).

(** [ioctl(info->inet_sock, ..., ifr)] on the interface [ifr] names. *)
Definition do_ioctl (r : request) : M reply :=
  fun w => let '(rp, d') := be_ioctl (w_ifr w) r (w_dev w) in
           (rp, mk_world d' (w_ifr w) (w_log w ++ [EvIoctl (w_ifr w) r rp]) (w_oob w) (w_out w) (w_err w)).

Definition usleep (us : Z) : M unit :=
  fun w => (tt, mk_world (be_sleep us (w_dev w)) (w_ifr w) (w_log w ++ [EvSleep us]) (w_oob w) (w_out w) (w_err w)).

(** [sprintf(ifr->ifr_name, ...)]. *)
Definition set_ifr (name : string) : M unit :=
  fun w => (tt, mk_world (w_dev w) name (w_log w) (w_oob w) (w_out w) (w_err w)).

(** Record an access the code makes outside the buffer it indexes. *)
Definition oob (what : string) : M unit :=
  fun w => (tt, mk_world (w_dev w) (w_ifr w) (w_log w) (w_oob w ++ [what]) (w_out w) (w_err w)).

(** [printf] / [puts] on stdout: the text printed, one entry per call. *)
Definition print (s : string) : M unit :=
  fun w => (tt, mk_world (w_dev w) (w_ifr w) (w_log w) (w_oob w) (w_out w ++ [s]) (w_err w)).

(** [fprintf(stderr, ...)]: a diagnostic on stderr, one entry per call. *)
Definition eprint (s : string) : M unit :=
  fun w => (tt, mk_world (w_dev w) (w_ifr w) (w_log w) (w_oob w) (w_out w) (w_err w ++ [s])).

(** Several diagnostics in a row. *)
Definition eprints (l : list string) : M unit := fold_right (fun s k => eprint s ;; k) (st_ret tt) l.

(** The report of a failed flash or eFuse request: [if
    (ioctl_cmd.flash.status) fprintf(stderr, "<label>%d", status);
    PRINT_IOCTL_FAIL(ret);] inside [func]. *)
Definition report_ioctl_fail (func label : string) (rp : reply) : M unit :=
  (if negb (rp_status rp =? 0) then eprint (label +:+ pretty (rp_status rp)) else st_ret tt) ;;
  eprint (PRINT_IOCTL_FAIL func (rp_ret rp)).

(** The help loop of the handlers: [for (...) if (strncmp(s, cmd,
    strlen(cmd)) == 0) { printf(help); exit_code =
    -FAIL_INVALID_PARAMETER; return; }]; [None] when no entry matched
    and the handler goes on. *)
Definition show_cmd_help (s : string) : M (option Z) :=
  match lookup_cmd s with
  | Some e => print (help_text e) ;; st_ret (Some (-! FAIL_INVALID_PARAMETER))
  | None => st_ret None
  end.

(** The candidate interfaces of one round: what [getifaddrs] lists, or
    [eth0] .. [eth254]. *)
Definition candidates : M (list string) :=
  fun w => (match NET_INTERFACE with
            | INTERFACE_SCAN => be_ifaddrs (w_dev w)
            | INTERFACE_ETH => map (fun i => "eth" +:+ pretty i)%string (seq 0 255)
            end, w).

(** [strncmp(ioctl_cmd.sig, AX88179A_DRV_NAME, strlen(AX88179A_DRV_NAME)) == 0] *)
Definition sig_matches (sig : string) : bool := String.prefix AX88179A_DRV_NAME sig.

(** The inner loop of one round: probe each candidate, stop at the first
    whose signature matches; a failing [ioctl] moves on ([continue]). *)
Fixpoint probe (names : list string) : M bool :=
  match names with
  | [] => st_ret false
  | n :: rest =>
      set_ifr n ;;
      rp <- do_ioctl AX_SIGNATURE ;;
      if rp_ret rp <? 0 then probe rest
      else if sig_matches (rp_str rp) then st_ret true
      else probe rest
  end.

(** [for (retry = 0; retry < SCAN_DEV_MAX_RETRY; retry++)]: [left] rounds
    remain. *)
Fixpoint scan_rounds (left : nat) : M Z :=
  match left with
  | O => st_ret (-! FAIL_SCAN_DEV)
  | S k =>
      names <- candidates ;;
      found <- probe names ;;
      if found then st_ret (code SUCCESS)
      else usleep 500000 ;; scan_rounds k
  end.

Definition scan_ax_device : M Z := scan_rounds SCAN_DEV_MAX_RETRY.

(** [boot_to_rom] (lines 432-442): fire and forget. *)
Definition boot_to_rom : M Z := _ <- do_ioctl AX88179A_ROOT_2_ROM ;; st_ret 0.

Definition RELOAD_DELAY_TIME : Z := 10.

(** [sw_reset] (lines 444-456): fire and forget, then a ten-second sleep. *)
Definition sw_reset : M Z :=
  _ <- do_ioctl AX88179A_SW_RESET ;;
  usleep (RELOAD_DELAY_TIME * 1000000) ;;
  st_ret (code SUCCESS).

End Session.

(** ** Reading the log *)

Definition is_sleep (e : event) : bool := match e with EvSleep _ => true | _ => false end.

Definition sleep_count (evs : list event) : nat := length (filter is_sleep evs).

(** Discovery only queries signatures and sleeps. *)
Definition sig_or_sleep (e : event) : Prop :=
  match e with EvIoctl _ AX_SIGNATURE _ | EvSleep _ => True | _ => False end.

Lemma sleep_count_app evs1 evs2 :
  sleep_count (evs1 ++ evs2) = (sleep_count evs1 + sleep_count evs2)%nat.
Proof. unfold sleep_count. rewrite filter_app, length_app. reflexivity. Qed.

#[export] Hint Rewrite sleep_count_app : ax_rw.

Section Scan.
Context `{AxConfig} {D : Type} `{Backend D}.

(** The last request was a signature query to [n] whose answer matched. *)
Definition matched_at (n : string) (evs : list event) : Prop :=
  exists rp, last evs = Some (EvIoctl n AX_SIGNATURE rp) /\
             0 <= rp_ret rp /\ sig_matches (rp_str rp) = true.

Lemma matched_at_app n evs1 evs2 :
  matched_at n evs2 -> matched_at n (evs1 ++ evs2).
Proof.
  intros (rp & Hl & Hr & Hs). exists rp. split; [|auto].
  destruct evs2 as [|e evs2]; [discriminate|]. rewrite last_app, Hl. reflexivity.
Qed.


Lemma probe_log names (w : world D) :
  let '(found, w') := probe names w in
  exists evs, w_log w' = w_log w ++ evs /\ sleep_count evs = 0%nat /\
              w_oob w' = w_oob w /\ Forall sig_or_sleep evs /\
              (found = true -> matched_at (w_ifr w') evs).
Proof.
  revert w. induction names as [|n rest IH]; intros w; simpl.
  - exists []. rewrite app_nil_r. repeat split; auto; discriminate.
  - unfold st_bind, set_ifr, do_ioctl. simpl.
    destruct (be_ioctl n AX_SIGNATURE (w_dev w)) as [rp d'] eqn:Hio.
    set (w1 := mk_world d' n (w_log w ++ [EvIoctl n AX_SIGNATURE rp]) (w_oob w) (w_out w) (w_err w)).
    assert (Hrest : let '(found, w') := probe rest w1 in
              exists evs, w_log w' = w_log w ++ EvIoctl n AX_SIGNATURE rp :: evs /\
                sleep_count evs = 0%nat /\ w_oob w' = w_oob w /\ Forall sig_or_sleep evs /\
                (found = true -> matched_at (w_ifr w') evs)).
    { specialize (IH w1). destruct (probe rest w1) as [f w'].
      destruct IH as (evs & Hl & Hs & Ho & Hf & Hm). exists evs.
      rewrite Hl. subst w1. simpl. rewrite <- app_assoc. auto. }
    destruct (Z.ltb_spec (rp_ret rp) 0).
    + destruct (probe rest w1) as [f w'].
      destruct Hrest as (evs & Hl & Hs & Ho & Hfa & Hm).
      exists (EvIoctl n AX_SIGNATURE rp :: evs).
      split; [exact Hl|]. split; [exact Hs|]. split; [exact Ho|].
      split; [constructor; [exact I | exact Hfa]|].
      intros Hf. apply (matched_at_app _ [_]), Hm, Hf.
    + destruct (sig_matches (rp_str rp)) eqn:Hsig.
      * exists [EvIoctl n AX_SIGNATURE rp].
        split; [reflexivity|]. split; [reflexivity|]. split; [reflexivity|].
        split; [repeat constructor|].
        intros _. exists rp. split; [reflexivity|]. split; [lia | exact Hsig].
      * destruct (probe rest w1) as [f w'].
        destruct Hrest as (evs & Hl & Hs & Ho & Hfa & Hm).
        exists (EvIoctl n AX_SIGNATURE rp :: evs).
        split; [exact Hl|]. split; [exact Hs|]. split; [exact Ho|].
        split; [constructor; [exact I | exact Hfa]|].
        intros Hf. apply (matched_at_app _ [_]), Hm, Hf.
Qed.

Lemma scan_rounds_log k (w : world D) :
  let '(r, w') := scan_rounds k w in
  exists evs, w_log w' = w_log w ++ evs /\ w_oob w' = w_oob w /\
   Forall sig_or_sleep evs /\
   ((r = 0 /\ (sleep_count evs < k)%nat /\ matched_at (w_ifr w') evs) \/
    (r = -! FAIL_SCAN_DEV /\ sleep_count evs = k)).
Proof.
  revert w. induction k as [|k IH]; intros w; simpl.
  - exists []. rewrite app_nil_r. split; [reflexivity|]. split; [reflexivity|].
    split; [constructor|]. right. auto.
  - unfold st_bind at 1, candidates. simpl. unfold st_bind at 1.
    set (names := match NET_INTERFACE with
                  | INTERFACE_SCAN => be_ifaddrs (w_dev w)
                  | INTERFACE_ETH => _ end).
    pose proof (probe_log names w) as Hp.
    destruct (probe names w) as [found w1].
    destruct Hp as (evs1 & Hl1 & Hs1 & Ho1 & Hf1 & Hm1).
    destruct found.
    + exists evs1. unfold st_ret. split; [exact Hl1|]. split; [exact Ho1|].
      split; [exact Hf1|]. left. split; [reflexivity|]. split; [lia | exact (Hm1 eq_refl)].
    + unfold st_bind, usleep. simpl.
      set (w2 := mk_world _ _ _ _ _ _).
      specialize (IH w2). destruct (scan_rounds k w2) as [r w'].
      destruct IH as (evs2 & Hl2 & Ho2 & Hf2 & Hout).
      exists (evs1 ++ EvSleep 500000 :: evs2).
      rewrite Hl2. subst w2. simpl. rewrite Hl1, <- !app_assoc.
      split; [reflexivity|]. split; [rewrite Ho2; exact Ho1|].
      split; [apply Forall_app; split; [exact Hf1 | constructor; [exact I | exact Hf2]]|].
      autorewrite with ax_rw. simpl. rewrite Hs1.
      destruct Hout as [(Hr & Hs & Hm) | (Hr & Hs)];
        replace (sleep_count (EvSleep 500000 :: evs2)) with (S (sleep_count evs2)) by reflexivity.
      * left. split; [exact Hr|]. split; [lia|].
        apply matched_at_app. apply (matched_at_app _ [_]). exact Hm.
      * right. split; [exact Hr | lia].
Qed.

(** C18: after a successful [scan_ax_device] the session is bound to the
    device: the last request of the call was a signature query, on the
    interface [ifr] now names, whose answer matched
    [AX88179A_DRV_NAME]; every later request goes to that interface. *)
Theorem scan_acquires_matching (w : world D) :
  fst (scan_ax_device w) = 0 ->
  exists evs, w_log (snd (scan_ax_device w)) = w_log w ++ evs /\
              matched_at (w_ifr (snd (scan_ax_device w))) evs.
Proof.
  unfold scan_ax_device. pose proof (scan_rounds_log SCAN_DEV_MAX_RETRY w) as Hs.
  destruct (scan_rounds SCAN_DEV_MAX_RETRY w) as [r w']. simpl.
  intros ->. destruct Hs as (evs & Hl & _ & _ & [(_ & _ & Hm) | (Hr & _)]).
  - exists evs. auto.
  - discriminate.
Qed.

(** C19: discovery is bounded: [scan_ax_device] returns [SUCCESS] after
    fewer than [SCAN_DEV_MAX_RETRY] sleeps, or [-FAIL_SCAN_DEV] after
    exactly [SCAN_DEV_MAX_RETRY] of them, and nothing else. *)
Theorem scan_bounded_retry (w : world D) :
  let '(r, w') := scan_ax_device w in
  exists evs, w_log w' = w_log w ++ evs /\
   ((r = 0 /\ (sleep_count evs < SCAN_DEV_MAX_RETRY)%nat) \/
    (r = -! FAIL_SCAN_DEV /\ sleep_count evs = SCAN_DEV_MAX_RETRY)).
Proof.
  unfold scan_ax_device. pose proof (scan_rounds_log SCAN_DEV_MAX_RETRY w) as Hs.
  destruct (scan_rounds SCAN_DEV_MAX_RETRY w) as [r w'].
  destruct Hs as (evs & Hl & _ & _ & [(Hr & Hc & _) | (Hr & Hc)]); exists evs; auto.
Qed.

(** A device that answers every signature query with a matching
    signature and leaves its state alone. *)
Definition answers_signature : Prop :=
  forall n d, exists rp, be_ioctl n AX_SIGNATURE d = (rp, d) /\
                         0 <= rp_ret rp /\ sig_matches (rp_str rp) = true.

Lemma probe_honest names (w : world D) :
  answers_signature -> names <> [] ->
  exists w', probe names w = (true, w') /\ w_dev w' = w_dev w /\ w_oob w' = w_oob w.
Proof.
  intros Hans Hne. destruct names as [|n rest]; [congruence|].
  destruct (Hans n (w_dev w)) as (rp & Hio & Hr & Hs).
  cbn [probe]. unfold st_bind, set_ifr, do_ioctl. cbn. rewrite Hio.
  rewrite (proj2 (Z.ltb_ge _ _)) by exact Hr. rewrite Hs.
  eexists. split; [reflexivity | split; reflexivity].
Qed.

(** On such a device, and with a candidate interface to try, the first
    round of discovery succeeds. *)
Lemma scan_honest (w : world D) :
  (0 < SCAN_DEV_MAX_RETRY)%nat -> answers_signature ->
  (NET_INTERFACE = INTERFACE_SCAN -> be_ifaddrs (w_dev w) <> []) ->
  exists w', scan_ax_device w = (0, w') /\ w_dev w' = w_dev w /\ w_oob w' = w_oob w.
Proof.
  intros Hmax Hans Hif. unfold scan_ax_device.
  destruct SCAN_DEV_MAX_RETRY as [|k]; [lia|]. cbn [scan_rounds].
  unfold st_bind at 1, candidates.
  assert (Hne : match NET_INTERFACE with
                | INTERFACE_SCAN => be_ifaddrs (w_dev w)
                | INTERFACE_ETH => map (fun i => "eth" +:+ pretty i)%string (seq 0 255)
                end <> []) by (destruct NET_INTERFACE; [apply Hif; reflexivity | discriminate]).
  destruct (probe_honest _ w Hans Hne) as (w' & Hp & Hd & Ho).
  unfold st_bind. rewrite Hp. eexists. split; [reflexivity | auto].
Qed.

End Scan.

(** ** A device that answers after [k] sleeps *)

Lemma prefix_refl s : String.prefix s s = true.
Proof.
  induction s as [|a s IH]; [reflexivity|]. simpl.
  destruct (Ascii.ascii_dec a a); [exact IH | congruence].
Qed.

(** The device sits behind [eth1]; until [k] sleeps have passed every
    request fails. *)
#[export] Instance delayed_backend `{AxConfig} : Backend nat := {|
  be_ioctl n r d :=
    match r with
    | AX_SIGNATURE =>
        if (d =? 0)%nat && String.eqb n "eth1"
        then ({| rp_ret := 0; rp_status := 0; rp_str := AX88179A_DRV_NAME; rp_data := [] |}, d)
        else (reply_fail, d)
    | _ => (reply_fail, d)
    end;
  be_ifaddrs _ := ["lo"; "eth1"];
  be_sleep _ d := pred d
|}.

Section Delayed.
Context `{AxConfig}.

Lemma probe_delayed names (w : world nat) :
  fst (probe names w) = ((w_dev w =? 0)%nat && existsb (String.eqb "eth1") names) /\
  w_dev (snd (probe names w)) = w_dev w.
Proof.
  revert w. induction names as [|n rest IH]; intros w.
  - simpl. rewrite andb_false_r. auto.
  - cbn [probe]. unfold st_bind, set_ifr, do_ioctl. cbn -[probe String.eqb].
    rewrite (String.eqb_sym "eth1" n).
    destruct (w_dev w =? 0)%nat eqn:Hd, (String.eqb n "eth1") eqn:Hn; simpl;
      try (unfold sig_matches; rewrite prefix_refl; simpl; auto);
      rewrite (proj1 (IH _)), (proj2 (IH _)); simpl; rewrite ?Hd; auto.
Qed.

Lemma candidates_delayed (w : world nat) :
  existsb (String.eqb "eth1") (fst (candidates w)) = true /\ snd (candidates w) = w.
Proof. unfold candidates. destruct NET_INTERFACE; vm_compute; auto. Qed.

Lemma delayed_rounds n (w : world nat) :
  let '(r, w') := scan_rounds n w in
  r = (if (w_dev w <? n)%nat then 0 else -! FAIL_SCAN_DEV) /\
  exists evs, w_log w' = w_log w ++ evs /\ sleep_count evs = Nat.min (w_dev w) n.
Proof.
  revert w. induction n as [|n IH]; intros w.
  - simpl. split; [destruct (w_dev w); reflexivity|].
    exists []. split; [rewrite app_nil_r; reflexivity | rewrite Nat.min_0_r; reflexivity].
  - cbn [scan_rounds]. unfold st_bind at 1.
    destruct (candidates_delayed w) as [Hc Hw].
    destruct (candidates w) as [names w0]. simpl in Hc, Hw. subst w0.
    unfold st_bind at 1.
    pose proof (probe_delayed names w) as [Hf Hd].
    pose proof (probe_log names w) as Hl.
    destruct (probe names w) as [found w1]. simpl in Hf, Hd.
    destruct Hl as (evs1 & Hl1 & Hs1 & _ & _ & _).
    rewrite Hc, andb_true_r in Hf. subst found.
    destruct (w_dev w) as [|d] eqn:Hdev; simpl.
    + split; [reflexivity|]. exists evs1. split; [exact Hl1 | lia].
    + unfold st_bind, usleep. simpl.
      specialize (IH (mk_world (pred (w_dev w1)) (w_ifr w1) (w_log w1 ++ [EvSleep 500000]) (w_oob w1) (w_out w1) (w_err w1))).
      destruct (scan_rounds n _) as [r w'].
      destruct IH as [Hr (evs2 & Hl2 & Hs2)]. simpl in Hr, Hl2, Hs2.
      rewrite Hd in Hr, Hs2. simpl in Hr, Hs2.
      split; [rewrite Hr; reflexivity|].
      exists (evs1 ++ EvSleep 500000 :: evs2). rewrite Hl2, Hl1, <- !app_assoc.
      split; [reflexivity|]. autorewrite with ax_rw.
      replace (sleep_count (EvSleep 500000 :: evs2)) with (S (sleep_count evs2)) by reflexivity.
      lia.
Qed.

(** C24: discovery succeeds exactly when the device answers within the
    retry budget: with a device that appears after [k] sleeps,
    [scan_ax_device] returns [SUCCESS] if [k < SCAN_DEV_MAX_RETRY] and
    [-FAIL_SCAN_DEV] otherwise, having slept [min k SCAN_DEV_MAX_RETRY]
    times. *)
Theorem delayed_scan (w : world nat) :
  let '(r, w') := scan_ax_device w in
  r = (if (w_dev w <? SCAN_DEV_MAX_RETRY)%nat then 0 else -! FAIL_SCAN_DEV) /\
  exists evs, w_log w' = w_log w ++ evs /\
              sleep_count evs = Nat.min (w_dev w) SCAN_DEV_MAX_RETRY.
Proof. apply delayed_rounds. Qed.
End Delayed.

(** ** A configuration and witnesses *)

Definition demo_config : AxConfig := {|
  SCAN_DEV_MAX_RETRY := 3; AX88179A_DRV_NAME := "ax88179_178a";
  AX88179A_SIGNATURE := "AX88179A"; NET_INTERFACE := INTERFACE_SCAN |}.

#[local] Existing Instance demo_config.

Definition demo_world (k : nat) : world nat := mk_world k "" [] [] [] [].

Lemma scan_acquires_matching_witness :
  exists evs, w_log (snd (scan_ax_device (demo_world 2))) = w_log (demo_world 2) ++ evs /\
              matched_at (w_ifr (snd (scan_ax_device (demo_world 2)))) evs.
Proof. apply scan_acquires_matching. vm_compute. reflexivity. Defined.

(** The spec's scenario: a device that fails the first two rounds of three
    is found in the third; one that needs three sleeps is not found. *)
Example scan_found_last_round :
  fst (scan_ax_device (demo_world 2)) = 0 /\
  sleep_count (w_log (snd (scan_ax_device (demo_world 2)))) = 2%nat.
Proof. vm_compute. auto. Qed.

Example scan_not_found :
  fst (scan_ax_device (demo_world 3)) = -3 /\
  sleep_count (w_log (snd (scan_ax_device (demo_world 3)))) = 3%nat.
Proof. vm_compute. auto. Qed.

(** ** Actions that only append to the log *)

Section Appends.
Context `{AxConfig} {D : Type} `{Backend D}.

Class Appends {A} (c : st (world D) A) : Prop :=
  appends : forall w, exists evs, w_log (snd (c w)) = w_log w ++ evs.

#[global] Instance appends_ret {A} (x : A) : Appends (st_ret x).
Proof. intros w. exists []. rewrite app_nil_r. reflexivity. Qed.

#[global] Instance appends_bind {A B} (c : st (world D) A) (k : A -> st (world D) B) :
  Appends c -> (forall x, Appends (k x)) -> Appends (st_bind c k).
Proof.
  intros Hc Hk w. unfold st_bind. specialize (Hc w).
  destruct (c w) as [x w1]. destruct Hc as [evs1 Hl1].
  destruct (Hk x w1) as [evs2 Hl2]. exists (evs1 ++ evs2).
  rewrite Hl2. simpl in Hl1. rewrite Hl1, app_assoc. reflexivity.
Qed.

#[global] Instance appends_if {A} (b : bool) (c1 c2 : st (world D) A) :
  Appends c1 -> Appends c2 -> Appends (if b then c1 else c2).
Proof. destruct b; auto. Qed.

#[global] Instance appends_ioctl r : Appends (do_ioctl r).
Proof. intros w. unfold do_ioctl. destruct (be_ioctl _ _ _). eexists. reflexivity. Qed.

#[global] Instance appends_usleep us : Appends (usleep us).
Proof. intros w. eexists. reflexivity. Qed.

#[global] Instance appends_set_ifr n : Appends (set_ifr n).
Proof. intros w. exists []. rewrite app_nil_r. reflexivity. Qed.

#[global] Instance appends_oob what : Appends (oob what).
Proof. intros w. exists []. rewrite app_nil_r. reflexivity. Qed.

#[global] Instance appends_print s : Appends (print s).
Proof. intros w. exists []. rewrite app_nil_r. reflexivity. Qed.

#[global] Instance appends_eprint s : Appends (eprint s).
Proof. intros w. exists []. rewrite app_nil_r. reflexivity. Qed.

#[global] Instance appends_eprints l : Appends (eprints l).
Proof. induction l; simpl; apply _. Qed.

#[global] Instance appends_report_ioctl_fail f l rp : Appends (report_ioctl_fail f l rp).
Proof. unfold report_ioctl_fail. apply _. Qed.

#[global] Instance appends_show_cmd_help s : Appends (show_cmd_help s).
Proof. unfold show_cmd_help. destruct (lookup_cmd s); apply _. Qed.

#[global] Instance appends_candidates : Appends candidates.
Proof. intros w. exists []. rewrite app_nil_r. reflexivity. Qed.

#[global] Instance appends_scan : Appends scan_ax_device.
Proof.
  intros w. pose proof (scan_rounds_log SCAN_DEV_MAX_RETRY w) as Hs.
  unfold scan_ax_device. destruct (scan_rounds _ w) as [r w'].
  destruct Hs as (evs & Hl & _). exists evs. exact Hl.
Qed.

#[global] Instance appends_boot_to_rom : Appends boot_to_rom.
Proof. unfold boot_to_rom. apply _. Qed.

End Appends.

(** ** Actions that print nothing *)

Section Silent.
Context `{AxConfig} {D : Type} `{Backend D}.

Class Silent {A} (c : st (world D) A) : Prop :=
  silent : forall w, w_out (snd (c w)) = w_out w.

#[global] Instance silent_ret {A} (x : A) : Silent (st_ret x).
Proof. intros w. reflexivity. Qed.

#[global] Instance silent_bind {A B} (c : st (world D) A) (k : A -> st (world D) B) :
  Silent c -> (forall x, Silent (k x)) -> Silent (st_bind c k).
Proof.
  intros Hc Hk w. unfold st_bind. specialize (Hc w).
  destruct (c w) as [x w1]. simpl in Hc. rewrite Hk. exact Hc.
Qed.

#[global] Instance silent_if {A} (b : bool) (c1 c2 : st (world D) A) :
  Silent c1 -> Silent c2 -> Silent (if b then c1 else c2).
Proof. destruct b; auto. Qed.

#[global] Instance silent_ioctl r : Silent (do_ioctl r).
Proof. intros w. unfold do_ioctl. destruct (be_ioctl _ _ _). reflexivity. Qed.

#[global] Instance silent_usleep us : Silent (usleep us).
Proof. intros w. reflexivity. Qed.

#[global] Instance silent_set_ifr n : Silent (set_ifr n).
Proof. intros w. reflexivity. Qed.

#[global] Instance silent_oob what : Silent (oob what).
Proof. intros w. reflexivity. Qed.

#[global] Instance silent_eprint s : Silent (eprint s).
Proof. intros w. reflexivity. Qed.

#[global] Instance silent_eprints l : Silent (eprints l).
Proof. induction l; simpl; apply _. Qed.

#[global] Instance silent_report_ioctl_fail f l rp : Silent (report_ioctl_fail f l rp).
Proof. unfold report_ioctl_fail. apply _. Qed.

#[global] Instance silent_candidates : Silent candidates.
Proof. intros w. reflexivity. Qed.

#[global] Instance silent_probe names : Silent (probe names).
Proof. induction names as [|n rest IH]; simpl; apply _. Qed.

#[global] Instance silent_scan_rounds k : Silent (scan_rounds k).
Proof. induction k as [|k IH]; simpl; apply _. Qed.

#[global] Instance silent_scan : Silent scan_ax_device.
Proof. apply _. Qed.

#[global] Instance silent_sw_reset : Silent sw_reset.
Proof. unfold sw_reset. apply _. Qed.

End Silent.

(** ** What an action reports on stderr *)

(** [Reports P c]: [c] only appends to stderr, and it appends something
    exactly when its result satisfies [P].  [Fails Q c]: [c] only
    appends to stderr and its result satisfies [Q]; it is what a
    continuation must be once a diagnostic has been printed. *)

Section Reports.
Context `{AxConfig} {D : Type} `{Backend D}.

Abbreviation M := (st (world D)).

Class ErrQuiet {A} (c : M A) : Prop :=
  err_quiet : forall w, w_err (snd (c w)) = w_err w.

Class Reports {A} (P : A -> Prop) (c : M A) : Prop :=
  reports : forall w, exists l, w_err (snd (c w)) = w_err w ++ l /\ (P (fst (c w)) <-> l <> []).

Definition Fails {A} (Q : A -> Prop) (c : M A) : Prop :=
  forall w, exists l, w_err (snd (c w)) = w_err w ++ l /\ Q (fst (c w)).

#[global] Instance quiet_ret {A} (x : A) : ErrQuiet (st_ret x).
Proof. intros w. reflexivity. Qed.

#[global] Instance quiet_bind {A B} (c : M A) (k : A -> M B) :
  ErrQuiet c -> (forall x, ErrQuiet (k x)) -> ErrQuiet (st_bind c k).
Proof.
  intros Hc Hk w. unfold st_bind. specialize (Hc w).
  destruct (c w) as [x w1]. simpl in Hc. rewrite Hk. exact Hc.
Qed.

#[global] Instance quiet_if {A} (b : bool) (c1 c2 : M A) :
  ErrQuiet c1 -> ErrQuiet c2 -> ErrQuiet (if b then c1 else c2).
Proof. destruct b; auto. Qed.

#[global] Instance quiet_ioctl r : ErrQuiet (do_ioctl r).
Proof. intros w. unfold do_ioctl. destruct (be_ioctl _ _ _). reflexivity. Qed.

#[global] Instance quiet_usleep us : ErrQuiet (usleep us).
Proof. intros w. reflexivity. Qed.

#[global] Instance quiet_set_ifr n : ErrQuiet (set_ifr n).
Proof. intros w. reflexivity. Qed.

#[global] Instance quiet_oob what : ErrQuiet (oob what).
Proof. intros w. reflexivity. Qed.

#[global] Instance quiet_print s : ErrQuiet (print s).
Proof. intros w. reflexivity. Qed.

#[global] Instance quiet_candidates : ErrQuiet candidates.
Proof. intros w. reflexivity. Qed.

#[global] Instance quiet_probe names : ErrQuiet (probe names).
Proof. induction names as [|n rest IH]; simpl; apply _. Qed.

#[global] Instance quiet_scan_rounds k : ErrQuiet (scan_rounds k).
Proof. induction k as [|k IH]; simpl; apply _. Qed.

#[global] Instance quiet_scan : ErrQuiet scan_ax_device.
Proof. apply _. Qed.

#[global] Instance quiet_boot_to_rom : ErrQuiet boot_to_rom.
Proof. unfold boot_to_rom. apply _. Qed.

#[global] Instance quiet_show_cmd_help s : ErrQuiet (show_cmd_help s).
Proof. unfold show_cmd_help. destruct (lookup_cmd s); apply _. Qed.

#[global] Instance quiet_reports {A} (c : M A) : ErrQuiet c -> Reports (fun _ => False) c | 20.
Proof. intros Hc w. exists []. rewrite Hc, app_nil_r. split; [reflexivity | split; [tauto | intros Hn; exact (Hn eq_refl)]]. Qed.

Lemma eprints_err l (w : world D) : w_err (snd (eprints l w)) = w_err w ++ l.
Proof.
  revert w. induction l as [|s l IH]; intros w; [symmetry; apply app_nil_r|].
  cbn [eprints fold_right]. unfold st_bind.
  transitivity (w_err (snd (eprint s w)) ++ l); [apply IH|]. cbn. rewrite <- app_assoc. reflexivity.
Qed.

#[global] Instance reports_eprints l : Reports (fun _ => l <> []) (eprints l).
Proof. intros w. exists l. rewrite eprints_err. tauto. Qed.

#[global] Instance reports_eprint s : Reports (fun _ => True) (eprint s).
Proof. intros w. exists [s]. split; [reflexivity | split; [intros _; discriminate | tauto]]. Qed.

#[global] Instance reports_report_ioctl_fail f l rp : Reports (fun _ => True) (report_ioctl_fail f l rp).
Proof.
  intros w. unfold report_ioctl_fail, st_bind, eprint, st_ret. destruct (negb _).
  - exists [l +:+ pretty (rp_status rp); PRINT_IOCTL_FAIL f (rp_ret rp)].
    split; [cbn [fst snd w_err]; rewrite <- app_assoc; reflexivity | split; [intros _; discriminate | tauto]].
  - exists [PRINT_IOCTL_FAIL f (rp_ret rp)].
    split; [reflexivity | split; [intros _; discriminate | tauto]].
Qed.

Lemma reports_fails {A} (P : A -> Prop) c : Reports P c -> Fails (fun _ => True) c.
Proof. intros Hc w. destruct (Hc w) as (l & Hl & _). eauto. Qed.

Lemma rep_ret {A} (Q : A -> Prop) x : ~ Q x -> Reports Q (st_ret x).
Proof. intros Hq w. exists []. rewrite app_nil_r. split; [reflexivity | tauto]. Qed.

Lemma fails_ret {A} (Q : A -> Prop) x : Q x -> Fails Q (st_ret x).
Proof. intros Hq w. exists []. rewrite app_nil_r. auto. Qed.

(** A diagnostic printed by [c] stays printed; when [c] printed
    nothing, the continuation decides. *)
Lemma rep_bind {A B} (P : A -> Prop) (Q : B -> Prop) c (k : A -> M B) :
  Reports P c -> (forall x, P x -> Fails Q (k x)) -> (forall x, ~ P x -> Reports Q (k x)) ->
  Reports Q (st_bind c k).
Proof.
  intros Hc Hf Hr w. unfold st_bind. destruct (Hc w) as (l1 & Hl1 & Hp).
  destruct (c w) as [x w1]. cbn [fst snd] in *.
  destruct l1 as [|s l1].
  - assert (~ P x) as Px by (intros Px; apply Hp in Px; auto).
    destruct (Hr x Px w1) as (l2 & Hl2 & Hq). exists l2. rewrite Hl2, Hl1, app_nil_r. auto.
  - assert (P x) as Px by (apply Hp; discriminate).
    destruct (Hf x Px w1) as (l2 & Hl2 & Hq). exists (s :: l1 ++ l2).
    rewrite Hl2, Hl1, <- app_assoc. split; [reflexivity | split; [discriminate | auto]].
Qed.

Lemma fails_bind {A B} (P : A -> Prop) (Q : B -> Prop) c (k : A -> M B) :
  Reports P c -> (forall x, Fails Q (k x)) -> Fails Q (st_bind c k).
Proof.
  intros Hc Hk w. unfold st_bind. destruct (Hc w) as (l1 & Hl1 & _).
  destruct (c w) as [x w1]. destruct (Hk x w1) as (l2 & Hl2 & Hq). exists (l1 ++ l2).
  cbn [snd] in Hl1. rewrite Hl2, Hl1, app_assoc. auto.
Qed.

End Reports.

(** One step of a [Reports] / [Fails] proof: sequencing, returns and
    the branches of the code, the callee's specification found by
    instance search. *)
Ltac rep_step :=
  match goal with
  | H : False |- _ => contradiction
  | H : ~ True |- _ => exfalso; exact (H I)
  | H : [] <> [] |- _ => exfalso; exact (H eq_refl)
  | H : ~ (_ :: _ <> []) |- _ => exfalso; apply H; discriminate
  | |- Reports ?P (st_bind (st_ret ?x) ?k) => change (Reports P (k x)); cbv beta iota
  | |- Fails ?Q (st_bind (st_ret ?x) ?k) => change (Fails Q (k x)); cbv beta iota
  | |- Reports _ (st_bind _ _) => eapply rep_bind; [apply _ | intros ?x ?Hx; cbv beta in Hx | intros ?x ?Hx; cbv beta in Hx]
  | |- Fails _ (st_bind _ _) => eapply fails_bind; [apply _ | intros ?x]
  | |- Reports _ (st_ret _) => apply rep_ret
  | |- Fails _ (st_ret _) => apply fails_ret
  | |- Reports _ (if ?b then _ else _) => destruct b eqn:?
  | |- Fails _ (if ?b then _ else _) => destruct b eqn:?
  | |- Reports _ (match ?x with _ => _ end) => destruct x
  | |- Fails _ (match ?x with _ => _ end) => destruct x
  | |- Reports _ _ => solve [apply _]
  end.

(** What is left are facts about return codes. *)
Ltac rep_close :=
  cbv beta in *; cbn [code fst snd] in *;
  repeat match goal with
  | H : (_ <? _) = true |- _ => apply Z.ltb_lt in H
  | H : (_ <? _) = false |- _ => apply Z.ltb_ge in H
  | H : negb (_ =? _) = true |- _ => apply negb_true_iff, Z.eqb_neq in H
  | H : negb (_ =? _) = false |- _ => apply negb_false_iff, Z.eqb_eq in H
  end;
  try solve [assumption | lia].

Ltac rep_tac_with hook := repeat first [rep_step | hook]; rep_close.
Ltac rep_tac := rep_tac_with fail.
