(* ===== verification/Flash.v ===== *)
(** * The flash programmer

    Models [write_flash], [read_flash], [erase_flash] (lines 361-430) and
    [writeflash_func] (lines 458-595), the [wflash] command.  The image is
    read into [wbuf], a zero-filled buffer of [(length + 256) & ~0xFF]
    bytes; its header holds two 32-bit big-endian words at offsets 4 and
    8, read through an 8-byte [unsigned long] load and [SWAP_32]
    (ax_ioctl.h, not in [src/]: the usual byte swap of the low 32 bits).
    The driver copies a [len]-byte flash range from or to [buf + offset]
    of the buffer it is given; that is how the code compares
    [&wbuf[offset]] with [&rbuf[offset]] after a read.  Every access the
    code makes outside [wbuf] or [rbuf] is recorded in [w_oob], and every
    diagnostic it prints in [w_err]. *)

From Stdlib Require Import ZArith Lia String.
From stdpp Require Import base pretty list decidable.
From S2P Require Import Prelude Checksum Device.

Open Scope Z_scope.
Open Scope ax_scope.

(** ** Integers of the C program *)

(** Conversion of an unsigned value to a 32-bit [int]. *)
Definition to_int (z : Z) : Z :=
  let m := z mod 2 ^ 32 in if m <? 2 ^ 31 then m else m - 2 ^ 32.

(** A little-endian load of the bytes [l]. *)
Definition le_load (l : list Z) : Z := fold_right (fun b acc => b + 256 * acc) 0 l.

(** [*(unsigned long * )&buf[i]] on an LP64 little-endian machine. *)
Definition load_ulong (buf : list Z) (i : nat) : Z := le_load (firstn 8 (skipn i buf)).

(** [SWAP_32] of ax_ioctl.h. *)
Definition SWAP_32 (x : Z) : Z :=
  Z.lor (Z.lor (Z.shiftr (Z.land x 4278190080) 24) (Z.shiftr (Z.land x 16711680) 8))
        (Z.lor (Z.shiftl (Z.land x 65280) 8) (Z.shiftl (Z.land x 255) 24)).

(** [(x + 256) & ~(0xFF)]. *)
Definition page_align (x : Z) : Z := Z.land (x + 256) (Z.lnot 255).

(** [off .. off + len] lies inside [0 .. size]. *)
Definition in_range (off len size : Z) : bool := (0 <=? off) && (0 <=? len) && (off + len <=? size).

(** The two header words as the code reads them. *)
Definition hdr_word (buf : list Z) (i : nat) : Z := SWAP_32 (load_ulong buf i).

Section Flash.
Context `{AxConfig} {D : Type} `{Backend D}.

Abbreviation M := (st (world D)).

(** ** Buffer accesses *)

(** [buf[idx]], recording an access outside the buffer. *)
Definition read_at (what : string) (buf : list Z) (idx : Z) : M Z :=
  if (0 <=? idx) && (idx <? Z.of_nat (length buf))
  then st_ret (nth (Z.to_nat idx) buf 0)
  else oob what ;; st_ret 0.

(** [memcmp(&a[off], &b[off], n) == 0]; a negative [n] is a huge
    [size_t]. *)
Definition memcmp_at (what : string) (a b : list Z) (off n : Z) : M bool :=
  if in_range off n (Z.of_nat (length a)) && (off + n <=? Z.of_nat (length b))
  then st_ret (bool_decide (firstn (Z.to_nat n) (skipn (Z.to_nat off) a) =
                            firstn (Z.to_nat n) (skipn (Z.to_nat off) b)))
  else oob what ;; st_ret false.

(** The driver copies [src] into [buf + off]. *)
Definition copy_in (what : string) (buf : list Z) (off : Z) (src : list Z) : M (list Z) :=
  if in_range off (Z.of_nat (length src)) (Z.of_nat (length buf))
  then st_ret (write_range buf (Z.to_nat off) src)
  else oob what ;; st_ret buf.

(** ** The three flash requests *)

(** [write_flash] (lines 361-385) returns the [ioctl]'s own result on
    failure, not [-FAIL_IOCTL]. *)
Definition write_flash (data : list Z) (offset len : Z) : M Z :=
  (if in_range offset len (Z.of_nat (length data))
   then st_ret tt else oob "write_flash: buf + offset") ;;
  rp <- do_ioctl (AX88179A_WRITE_FLASH offset len data) ;;
  if rp_ret rp <? 0 then
    report_ioctl_fail "write_flash" "FLASH WRITE status: " rp ;;
    st_ret (rp_ret rp)
  else st_ret (code SUCCESS).

(** [read_flash] (lines 387-410): the buffer after the call and the code. *)
Definition read_flash (data : list Z) (offset len : Z) : M (Z * list Z) :=
  rp <- do_ioctl (AX88179A_READ_FLASH offset len) ;;
  data' <- copy_in "read_flash: buf + offset" data offset (rp_data rp) ;;
  if rp_ret rp <? 0 then
    report_ioctl_fail "read_flash" "FLASH READ status: " rp ;;
    st_ret (-! FAIL_IOCTL, data')
  else st_ret (code SUCCESS, data').

(** [erase_flash] (lines 412-430). *)
Definition erase_flash : M Z :=
  rp <- do_ioctl AX88179A_ERASE_FLASH ;;
  if rp_ret rp <? 0 then eprint (PRINT_IOCTL_FAIL "erase_flash" (rp_ret rp)) ;; st_ret (-! FAIL_IOCTL)
  else st_ret (code SUCCESS).

(** ** [writeflash_func] *)

(** The [fail:] label: erase the chip, then return. *)
Definition flash_fail (exit_code : Z) : M Z := erase_flash ;; st_ret exit_code.

(** The value of the macro [PRINT_LOAD_FILE_FAIL] in [writeflash_func]:
    what [fprintf] returns, the number of characters it printed. *)
Definition PRINT_LOAD_FILE_FAIL_writeflash : Z :=
  Z.of_nat (String.length (PRINT_LOAD_FILE_FAIL "writeflash_func")).

(** [sprintf(fw_version, "v%d.%d.%d", ...)] then
    [printf("File FW Version: %s\n", fw_version)]. *)
Definition fw_version_line (v0 v1 v2 : Z) : string :=
  "File FW Version: v" +:+ pretty v0 +:+ "." +:+ pretty v1 +:+ "." +:+ pretty v2 +:+ nl.

(** The verification part, from the parsed header on ([wbuf] and
    [rbuf] allocated, the file read). *)
Definition program_image (wbuf rbuf : list Z) (size : Z) : M Z :=
  let offset := to_int (hdr_word wbuf 4) in
  let len := to_int (page_align (hdr_word wbuf 8)) in
  v0 <- read_at "wbuf[offset + 0x1000]" wbuf (offset + 4096) ;;
  v1 <- read_at "wbuf[offset + 0x1001]" wbuf (offset + 4097) ;;
  v2 <- read_at "wbuf[offset + 0x1002]" wbuf (offset + 4098) ;;
  print (fw_version_line v0 v1 v2) ;;
  ret <- write_flash wbuf offset len ;;
  if ret <? 0 then flash_fail (- ret) else
  p <- read_flash rbuf offset len ;;
  let '(ret, rbuf) := p in
  if ret <? 0 then flash_fail (- ret) else
  same <- memcmp_at "memcmp(&wbuf[offset], &rbuf[offset], len)" wbuf rbuf offset len ;;
  if negb same then
    eprint ("writeflash_func: Program the FW failed." +:+ nl) ;; flash_fail (-! FAIL_FLASH_WRITE) else
  let len := to_int (hdr_word wbuf 4) in
  ret <- write_flash wbuf 0 len ;;
  if ret <? 0 then flash_fail (- ret) else
  p <- read_flash rbuf 0 size ;;
  let '(ret, rbuf) := p in
  if ret <? 0 then flash_fail (- ret) else
  same <- memcmp_at "memcmp(wbuf, rbuf, ...)" wbuf rbuf 0
                    (hdr_word wbuf 8 + hdr_word wbuf 4) ;;
  if negb same then
    eprint ("writeflash_func: Program the Flash failed." +:+ nl) ;; flash_fail (-! FAIL_FLASH_WRITE) else
  st_ret (code SUCCESS).

(** [argv1] is [info->argv[1]], [argc] is [info->argc], [file] the
    contents of [argv[2]] when [fopen] succeeds, [heap] the bytes
    [malloc] can still hand out. *)
Definition writeflash_func (argv1 : string) (argc : nat) (path : string) (file : option (list Z)) (heap : Z)
    : M Z :=
  h <- (if negb (argc =? 3)%nat then show_cmd_help argv1 else st_ret None) ;;
  if h is Some c then st_ret c else
  _ <- boot_to_rom ;;
  usleep 1000000 ;;
  ret <- scan_ax_device ;;
  if ret <? 0 then eprint (PRINT_SCAN_DEV_FAIL "writeflash_func") ;; st_ret (- ret) else
  ret <- erase_flash ;;
  if ret <? 0 then st_ret (- ret) else
  match file with
  | None => eprint (open_fail_msg "writeflash_func" path) ;; flash_fail (-! FAIL_LOAD_FILE)
  | Some contents =>
      let length := Z.of_nat (List.length contents) in
      let size := page_align length in
      if heap <? size then
        eprint (PRINT_ALLCATE_MEM_FAIL "writeflash_func") ;; flash_fail (-! FAIL_ALLCATE_MEM) else
      if heap - size <? size then
        eprint (PRINT_ALLCATE_MEM_FAIL "writeflash_func") ;; flash_fail (-! FAIL_ALLCATE_MEM) else
      let wbuf := contents ++ repeat 0 (Z.to_nat (size - length)) in
      let rbuf := repeat 0 (Z.to_nat size) in
      let result := Z.of_nat (List.length (firstn (Z.to_nat length) contents)) in
      if negb (result =? length) then
        eprint (PRINT_LOAD_FILE_FAIL "writeflash_func") ;;
        eprint (PRINT_LOAD_FILE_FAIL "writeflash_func") ;;
        flash_fail (- PRINT_LOAD_FILE_FAIL_writeflash) else
      program_image wbuf rbuf size
  end.

End Flash.

(** ** Rollback *)

Definition is_flash_req (r : request) : bool :=
  match r with
  | AX88179A_WRITE_FLASH _ _ _ | AX88179A_READ_FLASH _ _ | AX88179A_ERASE_FLASH => true
  | _ => false
  end.

(** No request of the events touches the flash. *)
Definition no_flash_req (evs : list event) : Prop :=
  Forall (fun e => match e with EvIoctl _ r _ => is_flash_req r = false | _ => True end) evs.

(** The last event is an erase request. *)
Definition ends_erased (evs : list event) : Prop :=
  exists n rp, list.last evs = Some (EvIoctl n AX88179A_ERASE_FLASH rp).

Lemma ends_erased_app evs1 evs2 : ends_erased evs2 -> ends_erased (evs1 ++ evs2).
Proof.
  intros (n & rp & Hl). exists n, rp. destruct evs2 as [|e evs2]; [discriminate|].
  rewrite list.last_app, Hl. reflexivity.
Qed.

Lemma no_flash_req_app evs1 evs2 :
  no_flash_req evs1 -> no_flash_req evs2 -> no_flash_req (evs1 ++ evs2).
Proof. intros. apply Forall_app. auto. Qed.

Lemma sig_or_sleep_no_flash evs : Forall sig_or_sleep evs -> no_flash_req evs.
Proof.
  apply Forall_impl. intros [n r rp|us]; simpl; [|auto].
  destruct r; simpl; tauto.
Qed.

Section Rollback.
Context `{AxConfig} {D : Type} `{Backend D}.

Abbreviation M := (st (world D)).

#[global] Instance appends_read_at what buf idx : Appends (read_at what buf idx : M Z).
Proof. unfold read_at. apply _. Qed.
#[global] Instance appends_memcmp_at what a b off n : Appends (memcmp_at what a b off n : M bool).
Proof. unfold memcmp_at. apply _. Qed.
#[global] Instance appends_copy_in what buf off src : Appends (copy_in what buf off src : M (list Z)).
Proof. unfold copy_in. apply _. Qed.
#[global] Instance appends_write_flash data off len : Appends (write_flash data off len : M Z).
Proof. unfold write_flash. apply _. Qed.
#[global] Instance appends_read_flash data off len : Appends (read_flash data off len : M (Z * list Z)).
Proof. unfold read_flash. apply _. Qed.
#[global] Instance appends_erase_flash : Appends (erase_flash : M Z).
Proof. unfold erase_flash. apply _. Qed.

(** Every exit of the action either succeeds or has just erased the chip. *)
Definition rolls_back (c : M Z) : Prop :=
  forall w, let '(r, w') := c w in
  exists evs, w_log w' = w_log w ++ evs /\ (r = 0 \/ ends_erased evs).

Lemma rb_ret : rolls_back (st_ret 0).
Proof. intros w. exists []. rewrite app_nil_r. auto. Qed.

Lemma rb_fail code : rolls_back (flash_fail code).
Proof.
  intros w. unfold flash_fail, erase_flash, st_bind, do_ioctl.
  destruct (be_ioctl _ _ _) as [rp d']. simpl.
  destruct (rp_ret rp <? 0); simpl;
    exists [EvIoctl (w_ifr w) AX88179A_ERASE_FLASH rp];
    (split; [reflexivity | right; exists (w_ifr w), rp; reflexivity]).
Qed.

Lemma rb_bind {A} (c : M A) (k : A -> M Z) :
  Appends c -> (forall x, rolls_back (k x)) -> rolls_back (st_bind c k).
Proof.
  intros Hc Hk w. unfold st_bind. specialize (Hc w).
  destruct (c w) as [x w1]. destruct Hc as [evs1 Hl1]. simpl in Hl1.
  specialize (Hk x w1). destruct (k x w1) as [r w'].
  destruct Hk as (evs2 & Hl2 & Hr). exists (evs1 ++ evs2).
  rewrite Hl2, Hl1, app_assoc. split; [reflexivity|].
  destruct Hr as [|He]; [auto | right; apply ends_erased_app, He].
Qed.

Lemma rb_if (b : bool) (c1 c2 : M Z) :
  rolls_back c1 -> rolls_back c2 -> rolls_back (if b then c1 else c2).
Proof. destruct b; auto. Qed.

(** [fail_rb] closes the exits through the [fail:] label. *)
Ltac rolls_back_tac fail_rb :=
  repeat first
    [ apply fail_rb | apply rb_ret | apply rb_if
    | apply rb_bind; [apply _ | intros [? ?] || intros ?]; cbn beta iota ].

Lemma program_image_rolls_back wbuf rbuf size : rolls_back (program_image wbuf rbuf size).
Proof. unfold program_image. rolls_back_tac rb_fail. Qed.

(** Actions that append only non-flash requests. *)
Class NoFlash {A} (c : M A) : Prop :=
  no_flash : forall w, exists evs, w_log (snd (c w)) = w_log w ++ evs /\ no_flash_req evs.

#[global] Instance nf_ret {A} (x : A) : NoFlash (st_ret x : M A).
Proof. intros w. exists []. rewrite app_nil_r. split; [reflexivity | constructor]. Qed.

#[global] Instance nf_bind {A B} (c : M A) (k : A -> M B) :
  NoFlash c -> (forall x, NoFlash (k x)) -> NoFlash (st_bind c k).
Proof.
  intros Hc Hk w. unfold st_bind. specialize (Hc w).
  destruct (c w) as [x w1]. destruct Hc as (evs1 & Hl1 & Hn1). simpl in Hl1.
  destruct (Hk x w1) as (evs2 & Hl2 & Hn2). exists (evs1 ++ evs2).
  rewrite Hl2, Hl1, app_assoc. split; [reflexivity | apply no_flash_req_app; auto].
Qed.

#[global] Instance nf_if {A} (b : bool) (c1 c2 : M A) :
  NoFlash c1 -> NoFlash c2 -> NoFlash (if b then c1 else c2).
Proof. destruct b; auto. Qed.

#[global] Instance nf_print s : NoFlash (print s : M unit).
Proof. intros w. exists []. rewrite app_nil_r. split; [reflexivity | constructor]. Qed.

#[global] Instance nf_show_cmd_help s : NoFlash (show_cmd_help s : M (option Z)).
Proof. unfold show_cmd_help. destruct (lookup_cmd s); apply _. Qed.

#[global] Instance nf_eprint s : NoFlash (eprint s : M unit).
Proof. intros w. eexists. split; [symmetry; apply app_nil_r | constructor]. Qed.

#[global] Instance nf_usleep us : NoFlash (usleep us : M unit).
Proof. intros w. eexists. split; [reflexivity | repeat constructor]. Qed.

#[global] Instance nf_boot_to_rom : NoFlash (boot_to_rom : M Z).
Proof.
  intros w. unfold boot_to_rom, st_bind, do_ioctl. destruct (be_ioctl _ _ _).
  eexists. split; [reflexivity | repeat constructor].
Qed.

#[global] Instance nf_scan : NoFlash (scan_ax_device : M Z).
Proof.
  intros w. pose proof (scan_rounds_log SCAN_DEV_MAX_RETRY w) as Hs.
  unfold scan_ax_device. destruct (scan_rounds _ w) as [r w'].
  destruct Hs as (evs & Hl & _ & Hf & _). exists evs.
  split; [exact Hl | apply sig_or_sleep_no_flash, Hf].
Qed.

(** Every exit succeeds, has just erased the chip, or never touched the
    flash. *)
Definition safe_exit (c : M Z) : Prop :=
  forall w, let '(r, w') := c w in
  exists evs, w_log w' = w_log w ++ evs /\ (r = 0 \/ ends_erased evs \/ no_flash_req evs).

Lemma se_ret r : safe_exit (st_ret r).
Proof. intros w. exists []. rewrite app_nil_r. split; [reflexivity | right; right; constructor]. Qed.

Lemma se_bind {A} (c : M A) (k : A -> M Z) :
  NoFlash c -> (forall x, safe_exit (k x)) -> safe_exit (st_bind c k).
Proof.
  intros Hc Hk w. unfold st_bind. specialize (Hc w).
  destruct (c w) as [x w1]. destruct Hc as (evs1 & Hl1 & Hn1). simpl in Hl1.
  specialize (Hk x w1). destruct (k x w1) as [r w'].
  destruct Hk as (evs2 & Hl2 & Hr). exists (evs1 ++ evs2).
  rewrite Hl2, Hl1, app_assoc. split; [reflexivity|].
  destruct Hr as [|[He|Hn]]; [auto | right; left; apply ends_erased_app, He |].
  right; right. apply no_flash_req_app; auto.
Qed.

Lemma se_if (b : bool) (c1 c2 : M Z) :
  safe_exit c1 -> safe_exit c2 -> safe_exit (if b then c1 else c2).
Proof. destruct b; auto. Qed.

(** An erase whose failure is returned at once, then an action that
    rolls back. *)
Lemma se_erase_then (c : M Z) :
  rolls_back c ->
  safe_exit (ret <- erase_flash ;; if ret <? 0 then st_ret (- ret) else c).
Proof.
  intros Hc w. unfold erase_flash. rewrite st_bind_assoc. unfold st_bind at 1, do_ioctl.
  destruct (be_ioctl _ _ _) as [rp d'] eqn:Hio. cbn beta iota.
  set (w1 := mk_world d' _ _ _ _ _).
  destruct (rp_ret rp <? 0); unfold st_bind, st_ret, eprint; simpl.
  - exists [EvIoctl (w_ifr w) AX88179A_ERASE_FLASH rp].
    split; [reflexivity | right; left; exists (w_ifr w), rp; reflexivity].
  - specialize (Hc w1). destruct (c w1) as [r w'].
    destruct Hc as (evs & Hl & Hr).
    exists (EvIoctl (w_ifr w) AX88179A_ERASE_FLASH rp :: evs).
    rewrite Hl. subst w1. simpl. rewrite <- app_assoc. split; [reflexivity|].
    destruct Hr as [|He]; [auto | right; left; apply (ends_erased_app [_]), He].
Qed.

(** C3: [wflash] never leaves the chip half-programmed: every call that
    does not return [SUCCESS] either never sent a flash request or ends
    with an erase request (the [fail:] label), whatever the device
    answers. *)
Theorem writeflash_rollback argv1 argc path file heap (w : world D) :
  let '(r, w') := writeflash_func argv1 argc path file heap w in
  exists evs, w_log w' = w_log w ++ evs /\
    (r = 0 \/ ends_erased evs \/ no_flash_req evs).
Proof.
  revert w. unfold writeflash_func.
  apply se_bind; [apply _ | intros [c|]; [apply se_ret|]].
  apply se_bind; [apply _ | intros _].
  apply se_bind; [apply _ | intros _].
  apply se_bind; [apply _ | intros ret].
  apply se_if; [apply se_bind; [apply _ | intros _; apply se_ret]|].
  apply se_erase_then.
  destruct file as [contents|]; [|apply rb_bind; [apply _ | intros _; apply rb_fail]].
  cbn zeta. repeat apply rb_if;
    lazymatch goal with
    | |- rolls_back (program_image _ _ _) => apply program_image_rolls_back
    | _ => rolls_back_tac rb_fail
    end.
Qed.

End Rollback.

(** ** Diagnostics

    Every failure of the [wflash] command is reported on stderr, and a
    run that succeeds prints nothing there.  The callees' specifications
    are instances of [Reports]: a flash request prints exactly when it
    fails. *)

Section Diagnostics.
Context `{AxConfig} {D : Type} `{Backend D}.

#[local] Instance quiet_read_at what buf idx : ErrQuiet (D := D) (read_at what buf idx).
Proof. unfold read_at. apply _. Qed.

#[local] Instance quiet_memcmp_at what a b off n : ErrQuiet (D := D) (memcmp_at what a b off n).
Proof. unfold memcmp_at. apply _. Qed.

#[local] Instance quiet_copy_in what buf off src : ErrQuiet (D := D) (copy_in what buf off src).
Proof. unfold copy_in. apply _. Qed.

#[local] Instance reports_write_flash data offset len :
  Reports (D := D) (fun r => r < 0) (write_flash data offset len).
Proof. unfold write_flash. rep_tac. Qed.

#[local] Instance reports_read_flash data offset len :
  Reports (D := D) (fun p => fst p < 0) (read_flash data offset len).
Proof. unfold read_flash. rep_tac. Qed.

#[local] Instance reports_erase_flash : Reports (D := D) (fun r => r < 0) erase_flash.
Proof. unfold erase_flash. rep_tac. Qed.

Lemma fails_flash_fail (Q : Z -> Prop) exit_code : Q exit_code -> Fails (D := D) Q (flash_fail exit_code).
Proof. intros Hq. unfold flash_fail. rep_tac. Qed.

Lemma program_image_reports wbuf rbuf size :
  Reports (D := D) (fun r => r <> 0) (program_image wbuf rbuf size).
Proof. unfold program_image. cbv zeta. rep_tac_with ltac:(apply fails_flash_fail). Qed.

Lemma PRINT_LOAD_FILE_FAIL_writeflash_pos : 0 < PRINT_LOAD_FILE_FAIL_writeflash.
Proof. reflexivity. Qed.

(** C29: with its one argument, [writeflash_func] reports every failure
    on stderr and nothing when it succeeds: it only appends to stderr,
    and it appends something exactly when its return code is not
    [SUCCESS] (scan, erase, open, allocation, read, write, read-back and
    compare failures alike). *)
Theorem writeflash_reports argv1 path file heap (w : world D) :
  exists l, w_err (snd (writeflash_func argv1 3 path file heap w)) = w_err w ++ l /\
            (fst (writeflash_func argv1 3 path file heap w) <> 0 <-> l <> []).
Proof.
  revert w. change (Reports (fun r => r <> 0) (writeflash_func argv1 3 path file heap)).
  pose proof PRINT_LOAD_FILE_FAIL_writeflash_pos.
  unfold writeflash_func. cbn [negb Nat.eqb]. cbv zeta.
  rep_tac_with ltac:(first [apply fails_flash_fail | apply program_image_reports]).
Qed.

End Diagnostics.

(** ** A flash device in memory

    The driver's side of the flash requests, as the tool expects it: an
    erase fills the flash with [0xFF], a write copies [buf + off] into
    the flash, a read returns the flash range.  A device may corrupt the
    byte at one address on every read. *)

Definition sublist (l : list Z) (off len : Z) : list Z :=
  firstn (Z.to_nat len) (skipn (Z.to_nat off) l).

Record flashdev := mk_flashdev { fd_flash : list Z; fd_corrupt : option nat }.

Definition corrupt_read (c : option nat) (off : Z) (data : list Z) : list Z :=
  match c with
  | Some a => if (off <=? Z.of_nat a) && (Z.of_nat a <? off + Z.of_nat (length data))
              then <[(a - Z.to_nat off)%nat := Z.lxor (nth (a - Z.to_nat off) data 0) 1]> data
              else data
  | None => data
  end.

Definition reply_ok (s : string) (data : list Z) : reply :=
  {| rp_ret := 0; rp_status := 0; rp_str := s; rp_data := data |}.

#[export] Instance mem_flash `{AxConfig} : Backend flashdev := {|
  be_ioctl n r d :=
    let size := Z.of_nat (length (fd_flash d)) in
    match r with
    | AX_SIGNATURE => (reply_ok AX88179A_DRV_NAME [], d)
    | AX88179A_ROOT_2_ROM => (reply_ok ""%string [], d)
    | AX88179A_ERASE_FLASH =>
        (reply_ok ""%string [], mk_flashdev (repeat 255 (length (fd_flash d))) (fd_corrupt d))
    | AX88179A_WRITE_FLASH off len buf =>
        if in_range off len size && (off + len <=? Z.of_nat (length buf))
        then (reply_ok ""%string [], mk_flashdev (write_range (fd_flash d) (Z.to_nat off) (sublist buf off len))
                                          (fd_corrupt d))
        else (reply_fail, d)
    | AX88179A_READ_FLASH off len =>
        if in_range off len size
        then (reply_ok ""%string (corrupt_read (fd_corrupt d) off (sublist (fd_flash d) off len)), d)
        else (reply_fail, d)
    | _ => (reply_fail, d)
    end;
  be_ifaddrs _ := ["eth0"%string];
  be_sleep _ d := d
|}.

(** ** A small image

    [0x1200] bytes; header words: loader offset [0x100], loader length
    [0x80]; the rest counts up. *)

Definition test_image : list Z :=
  [0; 0; 0; 0; 0; 0; 1; 0; 0; 0; 0; 128] ++ map (fun i => Z.of_nat i mod 256) (seq 12 (4608 - 12)).

Definition test_dev (c : option nat) : flashdev := mk_flashdev (repeat 0 8192) c.

Definition flash_world (c : option nat) : world flashdev := mk_world (test_dev c) "" [] [] [] [].

#[local] Existing Instance demo_config.

Example test_image_header :
  hdr_word test_image 4 = 256 /\ hdr_word test_image 8 = 128.
Proof. vm_compute. auto. Qed.

(** A healthy device: [SUCCESS], no access outside the buffers, and the
    flash holds the image up to the end of the loader region. *)
Example wflash_ok :
  fst (writeflash_func "wflash" 3 "fw.bin" (Some test_image) 100000 (flash_world None)) = 0 /\
  w_oob (snd (writeflash_func "wflash" 3 "fw.bin" (Some test_image) 100000 (flash_world None))) = [] /\
  firstn 512 (fd_flash (w_dev (snd (writeflash_func "wflash" 3 "fw.bin" (Some test_image) 100000 (flash_world None))))) =
  firstn 512 test_image.
Proof. vm_compute. auto. Qed.

(** A device that corrupts one read-back byte of the loader region: the
    first comparison fails, [-FAIL_FLASH_WRITE] is returned and the last
    request erased the chip. *)
Example wflash_corrupt_loader :
  fst (writeflash_func "wflash" 3 "fw.bin" (Some test_image) 100000 (flash_world (Some 300%nat))) = -6 /\
  ends_erased (w_log (snd (writeflash_func "wflash" 3 "fw.bin" (Some test_image) 100000 (flash_world (Some 300%nat))))).
Proof. split; [vm_compute; reflexivity | eexists; eexists; vm_compute; reflexivity]. Qed.

(** A corrupted byte before the loader region is caught by the second
    comparison. *)
Example wflash_corrupt_head :
  fst (writeflash_func "wflash" 3 "fw.bin" (Some test_image) 100000 (flash_world (Some 100%nat))) = -6 /\
  w_err (snd (writeflash_func "wflash" 3 "fw.bin" (Some test_image) 100000 (flash_world (Some 100%nat)))) =
  ["writeflash_func: Program the Flash failed." +:+ nl].
Proof. vm_compute. auto. Qed.

(** [(x + 256) & ~0xFF] pads an already aligned length by a whole page. *)
Example page_align_aligned : page_align 255 = 256 /\ page_align 256 = 512 /\ page_align 257 = 512.
Proof. vm_compute. auto. Qed.

(** A flash too small for the loader region: the driver refuses the
    write, [write_flash] hands back the [ioctl]'s [-1], and the exit code
    becomes [1], the value of [FAIL_INVALID_PARAMETER]; the chip is erased
    on the way out. *)
Definition small_world : world flashdev := mk_world (mk_flashdev (repeat 0 300) None) "" [] [] [] [].

Example wflash_write_fail_code :
  fst (writeflash_func "wflash" 3 "fw.bin" (Some test_image) 100000 small_world) = code FAIL_INVALID_PARAMETER /\
  ends_erased (w_log (snd (writeflash_func "wflash" 3 "fw.bin" (Some test_image) 100000 small_world))).
Proof. split; [vm_compute; reflexivity | eexists; eexists; vm_compute; reflexivity]. Qed.

(** What that run prints on stderr: the report of [write_flash]'s
    [ioctl] with the driver's [-1] (the driver left the status word at
    0, so no status line), and nothing from the erase. *)
Example wflash_write_fail_reported :
  w_err (snd (writeflash_func "wflash" 3 "fw.bin" (Some test_image) 100000 small_world)) =
  [PRINT_IOCTL_FAIL "write_flash" (-1)].
Proof. vm_compute. reflexivity. Qed.

(** An image whose header puts the loader at [0x10100], past the end of
    the [0x1300]-byte buffer: the code reads the version bytes, hands the
    driver [wbuf + offset] and compares beyond both buffers. *)
Definition bad_header_image : list Z := <[5%nat := 1]> test_image.

Example wflash_bad_header_oob :
  w_oob (snd (writeflash_func "wflash" 3 "fw.bin" (Some bad_header_image) 100000 (flash_world None))) =
  ["wbuf[offset + 0x1000]"; "wbuf[offset + 0x1001]"; "wbuf[offset + 0x1002]";
   "write_flash: buf + offset"]%string.
Proof. vm_compute. reflexivity. Qed.

(** ** Programming a well-formed image on a healthy device *)

Lemma length_sublist l off len :
  0 <= off -> 0 <= len -> off + len <= Z.of_nat (length l) ->
  length (sublist l off len) = Z.to_nat len.
Proof.
  intros. unfold sublist. rewrite length_firstn, length_skipn. lia.
Qed.

(** What was written at [off] reads back at [off]. *)
Lemma sublist_write_range l off src :
  (off + length src <= length l)%nat ->
  sublist (write_range l off src) (Z.of_nat off) (Z.of_nat (length src)) = src.
Proof.
  intros H. unfold sublist, write_range. rewrite !Nat2Z.id.
  rewrite skipn_app, length_firstn, Nat.min_l by lia.
  rewrite skipn_all2 by (rewrite length_firstn; lia).
  rewrite Nat.sub_diag. simpl. apply take_app_length.
Qed.

Lemma sublist_write_range_Z l off len src :
  0 <= off -> 0 <= len -> length src = Z.to_nat len ->
  (Z.to_nat off + length src <= length l)%nat ->
  sublist (write_range l (Z.to_nat off) src) off len = src.
Proof.
  intros Ho Hn Hs Hl.
  rewrite <- (Z2Nat.id off) at 2 by lia. rewrite <- (Z2Nat.id len), <- Hs by lia.
  apply sublist_write_range, Hl.
Qed.

(** ** Arithmetic of the header *)

Lemma land_byte_field x n : 0 <= n ->
  Z.land x (Z.shiftl 255 n) = (x / 2 ^ n) mod 256 * 2 ^ n.
Proof.
  intros Hn. apply Z.bits_inj'. intros k Hk.
  rewrite Z.land_spec. rewrite <- Z.shiftl_mul_pow2 by lia.
  destruct (Z.ltb_spec k n).
  - rewrite !Z.shiftl_spec_low by lia. apply andb_false_r.
  - rewrite !Z.shiftl_spec_high by lia.
    change 256 with (2 ^ 8). change 255 with (Z.ones 8).
    rewrite <- Z.shiftr_div_pow2 by lia.
    destruct (Z.ltb_spec (k - n) 8).
    + rewrite Z.ones_spec_low, Z.mod_pow2_bits_low, Z.shiftr_spec by lia.
      rewrite andb_true_r. f_equal. lia.
    + rewrite Z.ones_spec_high, Z.mod_pow2_bits_high by lia. apply andb_false_r.
Qed.

(** [a | (b << n)] is [a + b * 2^n] when [a] fits in [n] bits. *)
Lemma lor_disjoint a b n : 0 <= n -> 0 <= a < 2 ^ n ->
  Z.lor a (b * 2 ^ n) = a + b * 2 ^ n.
Proof.
  intros Hn Ha. symmetry. apply Z.add_nocarry_lor.
  apply Z.bits_inj'. intros k Hk. rewrite Z.land_spec, Z.bits_0.
  destruct (Z.ltb_spec k n).
  - rewrite Z.mul_pow2_bits_low by lia. apply andb_false_r.
  - rewrite <- (Z.mod_small a (2 ^ n)) by lia.
    rewrite Z.mod_pow2_bits_high by lia. reflexivity.
Qed.

(** [SWAP_32] reverses the four low bytes of its argument. *)
Lemma swap32_eq x : 0 <= x ->
  SWAP_32 x = (x / 2^24) mod 256 + (x / 2^16) mod 256 * 2^8 +
              (x / 2^8) mod 256 * 2^16 + x mod 256 * 2^24.
Proof.
  intros Hx. unfold SWAP_32.
  change 4278190080 with (Z.shiftl 255 24). change 16711680 with (Z.shiftl 255 16).
  change 65280 with (Z.shiftl 255 8). change 255 with (Z.shiftl 255 0) at 4.
  rewrite !land_byte_field by lia.
  rewrite !Z.shiftr_div_pow2, !Z.shiftl_mul_pow2 by lia.
  rewrite Z.div_1_r, Z.mul_1_r.
  set (b3 := (x / 2 ^ 24) mod 256). set (b2 := (x / 2 ^ 16) mod 256).
  set (b1 := (x / 2 ^ 8) mod 256). set (b0 := x mod 256).
  assert (0 <= b3 < 256 /\ 0 <= b2 < 256 /\ 0 <= b1 < 256 /\ 0 <= b0 < 256)
    as (? & ? & ? & ?) by (subst b3 b2 b1 b0; repeat split; apply Z.mod_pos_bound; lia).
  clearbody b3 b2 b1 b0.
  assert (P : forall n, 0 <= n -> 2 ^ n <> 0) by (intros; apply Z.pow_nonzero; lia).
  rewrite Z.div_mul by (apply P; lia).
  replace (b2 * 2 ^ 16 / 2 ^ 8) with (b2 * 2 ^ 8)
    by (replace (2 ^ 16) with (2 ^ 8 * 2 ^ 8) by reflexivity;
        rewrite Z.mul_assoc, Z.div_mul by (apply P; lia); reflexivity).
  replace (b1 * 2 ^ 8 * 2 ^ 8) with (b1 * 2 ^ 16) by (rewrite <- Z.mul_assoc; reflexivity).
  rewrite (lor_disjoint b3 b2 8) by lia.
  rewrite (lor_disjoint (b1 * 2 ^ 16) b0 24) by (cbn in *; lia).
  replace (b1 * 2 ^ 16 + b0 * 2 ^ 24) with ((b1 + b0 * 2 ^ 8) * 2 ^ 16) by ring.
  rewrite lor_disjoint by (cbn in *; lia).
  ring.
Qed.

Lemma swap32_range x : 0 <= x -> 0 <= SWAP_32 x < 2 ^ 32.
Proof. intros Hx. rewrite swap32_eq by exact Hx. zlia. Qed.

Lemma le_load_nonneg l : bytes_ok l -> 0 <= le_load l.
Proof. induction 1; simpl; unfold is_byte in *; lia. Qed.

Lemma hdr_word_range buf i : bytes_ok buf -> 0 <= hdr_word buf i < 2 ^ 32.
Proof.
  intros Hb. apply swap32_range, le_load_nonneg.
  apply Forall_take, Forall_drop, Hb.
Qed.

(** [(x + 256) & ~0xFF] rounds [x + 256] down to a multiple of 256: one
    whole page more than [x] when [x] is already a multiple. *)
Lemma page_align_eq x : page_align x = (x + 256) / 256 * 256.
Proof.
  unfold page_align. rewrite <- Z.ldiff_land. change 255 with (Z.ones 8).
  rewrite Z.ldiff_ones_r, Z.shiftr_div_pow2, Z.shiftl_mul_pow2 by lia. reflexivity.
Qed.

Lemma page_align_bounds x : x < page_align x <= x + 256.
Proof. rewrite page_align_eq. zlia. Qed.

(** The flash after the two writes agrees with the image on
    [0, o + n). *)
Lemma two_phase (l buf : list Z) (o n : nat) :
  (o + n <= length l)%nat -> (o + n <= length buf)%nat ->
  firstn (o + n) (write_range (write_range l o (sublist buf (Z.of_nat o) (Z.of_nat n)))
                              0 (sublist buf 0 (Z.of_nat o))) =
  firstn (o + n) buf.
Proof.
  intros Hl Hb. unfold sublist. rewrite !Nat2Z.id. simpl (Z.to_nat 0). rewrite skipn_O.
  assert (Hlo : length (firstn o buf) = o) by (rewrite length_firstn; lia).
  assert (Hln : length (firstn n (skipn o buf)) = n) by (rewrite length_firstn, length_skipn; lia).
  assert (L1 : length (write_range l o (firstn n (skipn o buf))) = length l)
    by (apply length_write_range; lia).
  assert (L2 : length (write_range (write_range l o (firstn n (skipn o buf))) 0 (firstn o buf))
               = length l) by (rewrite length_write_range; [exact L1 | rewrite L1; simpl; lia]).
  apply nth_ext with (d := 0) (d' := 0).
  { rewrite !length_firstn, L2. lia. }
  intros i Hi. rewrite length_firstn, L2 in Hi.
  rewrite !nth_firstn. destruct (Nat.ltb_spec i (o + n)); [|reflexivity].
  destruct (Nat.ltb_spec i o).
  - rewrite nth_write_range_in by (rewrite ?L1; simpl; lia).
    rewrite Nat.sub_0_r, nth_firstn. destruct (Nat.ltb_spec i o); [reflexivity | lia].
  - rewrite nth_write_range_out by (rewrite ?L1; simpl; lia).
    rewrite nth_write_range_in by lia.
    rewrite nth_firstn. destruct (Nat.ltb_spec (i - o) n); [|lia].
    rewrite nth_skipn. f_equal. lia.
Qed.

Lemma two_phase_Z (l buf : list Z) (off len : Z) :
  0 <= off -> 0 <= len ->
  off + len <= Z.of_nat (length l) -> off + len <= Z.of_nat (length buf) ->
  firstn (Z.to_nat (off + len))
    (write_range (write_range l (Z.to_nat off) (sublist buf off len)) 0 (sublist buf 0 off)) =
  firstn (Z.to_nat (off + len)) buf.
Proof.
  intros. pose proof (two_phase l buf (Z.to_nat off) (Z.to_nat len)) as Ht.
  rewrite !Z2Nat.id in Ht by lia.
  replace (Z.to_nat (off + len)) with (Z.to_nat off + Z.to_nat len)%nat by lia.
  apply Ht; lia.
Qed.

Lemma take_prefix {A} (l l' : list A) m k :
  (k <= m)%nat -> take m l = take m l' -> take k l = take k l'.
Proof.
  intros Hk Hm. rewrite <- (Nat.min_l k m Hk), <- !take_take, Hm. reflexivity.
Qed.

Lemma sublist_0 (l : list Z) n : sublist l 0 n = firstn (Z.to_nat n) l.
Proof. reflexivity. Qed.

Section MemFlash.
Context `{AxConfig}.

Abbreviation W := (world flashdev).

Definition same_dev (w w' : W) : Prop := w_dev w' = w_dev w /\ w_oob w' = w_oob w.

Lemma probe_mem names (w : W) :
  names <> [] -> exists w', probe names w = (true, w') /\ same_dev w w'.
Proof.
  destruct names as [|n rest]; [congruence|]. intros _.
  cbn [probe]. unfold st_bind, set_ifr, do_ioctl. cbn -[sig_matches].
  unfold sig_matches. rewrite prefix_refl. eexists. split; [reflexivity | split; reflexivity].
Qed.

Lemma scan_mem (w : W) :
  (0 < SCAN_DEV_MAX_RETRY)%nat ->
  exists w', scan_ax_device w = (0, w') /\ same_dev w w'.
Proof.
  intros Hmax. unfold scan_ax_device. destruct SCAN_DEV_MAX_RETRY as [|k]; [lia|].
  cbn [scan_rounds]. unfold st_bind at 1.
  assert (Hne : fst (candidates w) <> []) by (unfold candidates; destruct NET_INTERFACE; discriminate).
  assert (Hw : snd (candidates w) = w) by reflexivity.
  destruct (candidates w) as [names w0]. simpl in Hne, Hw. subst w0.
  destruct (probe_mem names w Hne) as (w' & Hp & Hs).
  unfold st_bind. rewrite Hp. eexists. split; [reflexivity | exact Hs].
Qed.
Lemma in_range_true off len size :
  0 <= off -> 0 <= len -> off + len <= size -> in_range off len size = true.
Proof.
  intros. unfold in_range.
  rewrite (proj2 (Z.leb_le _ _)), (proj2 (Z.leb_le 0 len)), (proj2 (Z.leb_le _ _)) by lia.
  reflexivity.
Qed.

Definition flash_of (w : W) : list Z := fd_flash (w_dev w).

Lemma erase_mem (w : W) :
  exists w', erase_flash w = (0, w') /\
    flash_of w' = repeat 255 (length (flash_of w)) /\
    fd_corrupt (w_dev w') = fd_corrupt (w_dev w) /\ w_oob w' = w_oob w.
Proof. eexists. split; [reflexivity | auto]. Qed.

Lemma write_mem (w : W) buf off len :
  0 <= off -> 0 <= len -> off + len <= Z.of_nat (length buf) ->
  off + len <= Z.of_nat (length (flash_of w)) ->
  exists w', write_flash buf off len w = (0, w') /\
    flash_of w' = write_range (flash_of w) (Z.to_nat off) (sublist buf off len) /\
    fd_corrupt (w_dev w') = fd_corrupt (w_dev w) /\ w_oob w' = w_oob w.
Proof.
  intros. unfold write_flash, st_bind, do_ioctl, flash_of in *.
  rewrite (in_range_true off len (Z.of_nat (length buf))) by lia. cbn.
  rewrite (in_range_true off len) by lia.
  rewrite (proj2 (Z.leb_le (off + len) _)) by lia. cbn.
  eexists. split; [reflexivity | auto].
Qed.

Lemma read_mem (w : W) rbuf off len :
  fd_corrupt (w_dev w) = None ->
  0 <= off -> 0 <= len -> off + len <= Z.of_nat (length (flash_of w)) ->
  off + len <= Z.of_nat (length rbuf) ->
  exists w', read_flash rbuf off len w =
               ((0, write_range rbuf (Z.to_nat off) (sublist (flash_of w) off len)), w') /\
    w_dev w' = w_dev w /\ w_oob w' = w_oob w.
Proof.
  intros Hc. intros. unfold read_flash, st_bind, do_ioctl, copy_in, flash_of in *. cbn.
  rewrite (in_range_true off len) by lia. rewrite Hc. cbn.
  rewrite (in_range_true off) by (rewrite ?length_sublist; lia). cbn.
  eexists. split; [reflexivity | auto].
Qed.

Lemma memcmp_in (w : W) what a b off n :
  0 <= off -> 0 <= n -> off + n <= Z.of_nat (length a) -> off + n <= Z.of_nat (length b) ->
  memcmp_at what a b off n w = (bool_decide (sublist a off n = sublist b off n), w).
Proof.
  intros. unfold memcmp_at. rewrite in_range_true by lia.
  rewrite (proj2 (Z.leb_le _ _)) by lia. reflexivity.
Qed.

Lemma to_int_id z : 0 <= z < 2 ^ 31 -> to_int z = z.
Proof.
  intros Hz. unfold to_int. rewrite Z.mod_small by lia.
  rewrite (proj2 (Z.ltb_lt _ _)) by lia. reflexivity.
Qed.

(** Writing a whole buffer from index 0 replaces it. *)
Lemma write_range_full (l src : list Z) :
  length src = length l -> write_range l 0 src = src.
Proof.
  intros Hl. unfold write_range. simpl. rewrite drop_ge by lia. apply app_nil_r.
Qed.

Lemma read_at_in (w : W) what buf idx :
  0 <= idx < Z.of_nat (length buf) -> exists v, read_at what buf idx w = (v, w).
Proof.
  intros. unfold read_at. rewrite (proj2 (Z.leb_le _ _)), (proj2 (Z.ltb_lt _ _)) by lia.
  eexists. reflexivity.
Qed.


Lemma program_image_mem (w : W) (wbuf : list Z) (size : Z) :
  fd_corrupt (w_dev w) = None -> bytes_ok wbuf -> Z.of_nat (length wbuf) = size ->
  hdr_word wbuf 4 + 4098 < size ->
  hdr_word wbuf 4 + page_align (hdr_word wbuf 8) <= size ->
  size < 2 ^ 31 -> size <= Z.of_nat (length (flash_of w)) ->
  let '(r, w') := program_image wbuf (repeat 0 (Z.to_nat size)) size w in
  r = 0 /\ w_oob w' = w_oob w /\
  firstn (Z.to_nat (hdr_word wbuf 4 + page_align (hdr_word wbuf 8))) (flash_of w') =
  firstn (Z.to_nat (hdr_word wbuf 4 + page_align (hdr_word wbuf 8))) wbuf.
Proof.
  intros Hc Hb Hsz Hv Hend Hsmall Hfl.
  pose proof (hdr_word_range wbuf 4 Hb) as Ho.
  pose proof (hdr_word_range wbuf 8 Hb) as Hr.
  pose proof (page_align_bounds (hdr_word wbuf 8)) as Hp.
  unfold program_image. cbv zeta.
  set (off := hdr_word wbuf 4) in *. set (raw := hdr_word wbuf 8) in *.
  set (len := page_align raw) in *.
  rewrite (to_int_id off), (to_int_id len) by lia.
  destruct (read_at_in w "wbuf[offset + 0x1000]" wbuf (off + 4096)) as [v1 H1]; [lia|]. run H1.
  destruct (read_at_in w "wbuf[offset + 0x1001]" wbuf (off + 4097)) as [v2 H2]; [lia|]. run H2.
  destruct (read_at_in w "wbuf[offset + 0x1002]" wbuf (off + 4098)) as [v3 H3]; [lia|]. run H3.
  (* the version line only extends stdout *)
  set (w0 := snd (print (fw_version_line v1 v2 v3) w)).
  assert (Hp0 : print (fw_version_line v1 v2 v3) w = (tt, w0)) by reflexivity. run Hp0.
  change (w_oob w) with (w_oob w0). change (flash_of w) with (flash_of w0) in *.
  change (fd_corrupt (w_dev w)) with (fd_corrupt (w_dev w0)) in Hc.
  clear Hp0 H1 H2 H3. clearbody w0. clear w. rename w0 into w.
  destruct (write_mem w wbuf off len) as (w1 & Hw1 & Hf1 & Hc1 & Ho1); try lia. run Hw1.
  rewrite Z.ltb_irrefl.
  set (rbuf0 := repeat 0 (Z.to_nat size)).
  assert (Hl0 : Z.of_nat (length rbuf0) = size) by (subst rbuf0; rewrite repeat_length; lia).
  assert (Hlf1 : length (flash_of w1) = length (flash_of w))
    by (rewrite Hf1; apply length_write_range; rewrite length_sublist; lia).
  destruct (read_mem w1 rbuf0 off len) as (w2 & Hr2 & Hd2 & Ho2); try lia; [rewrite Hc1; exact Hc|].
  run Hr2. rewrite Z.ltb_irrefl.
  (* the loader region reads back as written *)
  assert (Hsub1 : sublist (flash_of w1) off len = sublist wbuf off len).
  { rewrite Hf1. apply sublist_write_range_Z; rewrite ?length_sublist; lia. }
  set (rbuf1 := write_range rbuf0 (Z.to_nat off) (sublist (flash_of w1) off len)).
  assert (Hlr1 : Z.of_nat (length rbuf1) = size)
    by (subst rbuf1; rewrite length_write_range; rewrite ?length_sublist; lia).
  run (memcmp_in w2 "memcmp(&wbuf[offset], &rbuf[offset], len)" wbuf rbuf1 off len ltac:(lia) ltac:(lia) ltac:(lia) ltac:(lia)).
  rewrite bool_decide_eq_true_2; cycle 1.
  { subst rbuf1. rewrite Hsub1, sublist_write_range_Z; rewrite ?length_sublist; try reflexivity; try lia. }
  cbn [negb].
  assert (Hfw2 : flash_of w2 = flash_of w1) by (unfold flash_of; rewrite Hd2; reflexivity).
  destruct (write_mem w2 wbuf 0 off) as (w3 & Hw3 & Hf3 & Hc3 & Ho3); try lia;
    [rewrite Hfw2, Hlf1; lia|].
  run Hw3. rewrite Z.ltb_irrefl.
  destruct (read_mem w3 rbuf1 0 size) as (w4 & Hr4 & Hd4 & Ho4); try lia.
  { rewrite Hc3. rewrite Hd2, Hc1. exact Hc. }
  { rewrite Hf3, length_write_range, Hfw2, Hlf1; [lia|]. rewrite length_sublist; rewrite ?Hfw2, ?Hlf1; lia. }
  run Hr4. rewrite Z.ltb_irrefl. change (Z.to_nat 0) with 0%nat.
  assert (Hf3' : flash_of w3 = write_range (write_range (flash_of w) (Z.to_nat off)
                   (sublist wbuf off len)) 0 (sublist wbuf 0 off))
    by (rewrite Hf3, Hfw2, Hf1; reflexivity).
  assert (Hl3 : length (flash_of w3) = length (flash_of w)).
  { rewrite Hf3, length_write_range; rewrite ?length_sublist, ?Hfw2, ?Hlf1; lia. }
  assert (Hfin : firstn (Z.to_nat (off + len)) (flash_of w3) = firstn (Z.to_nat (off + len)) wbuf)
    by (rewrite Hf3'; apply two_phase_Z; lia).
  rewrite write_range_full by (rewrite length_sublist; lia).
  run (memcmp_in w4 "memcmp(wbuf, rbuf, ...)" wbuf (sublist (flash_of w3) 0 size) 0 (raw + off)
         ltac:(lia) ltac:(lia) ltac:(lia) ltac:(rewrite length_sublist; lia)).
  rewrite bool_decide_eq_true_2; cycle 1.
  { rewrite !sublist_0, take_take, Nat.min_l by lia.
    symmetry. apply (take_prefix _ _ (Z.to_nat (off + len))); [lia | exact Hfin]. }
  cbn. split; [reflexivity|]. split; [congruence|].
  unfold flash_of at 1. rewrite Hd4. exact Hfin.
Qed.

Lemma boot_mem (w : W) : exists w', boot_to_rom w = (0, w') /\ same_dev w w'.
Proof. eexists. split; [reflexivity | split; reflexivity]. Qed.

Lemma usleep_mem (w : W) us : exists w', usleep us w = (tt, w') /\ same_dev w w'.
Proof. eexists. split; [reflexivity | split; reflexivity]. Qed.

(** The image padded with zeros to [page_align] of its length, as
    [writeflash_func] builds [wbuf]. *)
Definition padded_image (contents : list Z) : list Z :=
  let L := Z.of_nat (length contents) in
  contents ++ repeat 0 (Z.to_nat (page_align L - L)).

Lemma padded_image_length contents :
  Z.of_nat (length (padded_image contents)) = page_align (Z.of_nat (length contents)).
Proof.
  unfold padded_image. rewrite length_app, repeat_length.
  pose proof (page_align_bounds (Z.of_nat (length contents))). lia.
Qed.

Lemma padded_image_bytes contents : bytes_ok contents -> bytes_ok (padded_image contents).
Proof.
  intros Hb. apply Forall_app. split; [exact Hb|]. apply Forall_forall. intros x Hx. apply repeat_spec in Hx. subst. unfold is_byte. lia.
Qed.

(** C6: On a healthy device that answers every request, [writeflash]
    with a well-formed image (the loader lies inside the padded image,
    which fits in the flash and in the heap twice over) returns
    [SUCCESS], makes no access outside a buffer, and leaves the flash
    equal to the padded image on [0, offset + len): the main image and
    the loader, as read back and compared by the tool. *)
Theorem writeflash_programs (contents : list Z) (heap : Z) (w : W) :
  (0 < SCAN_DEV_MAX_RETRY)%nat -> fd_corrupt (w_dev w) = None -> bytes_ok contents ->
  let size := page_align (Z.of_nat (length contents)) in
  let wbuf := padded_image contents in
  let off := hdr_word wbuf 4 in
  let len := page_align (hdr_word wbuf 8) in
  off + 4098 < size -> off + len <= size -> size < 2 ^ 31 ->
  size <= Z.of_nat (length (flash_of w)) -> 2 * size <= heap ->
  let '(r, w') := writeflash_func "wflash" 3 "fw.bin" (Some contents) heap w in
  r = 0 /\ w_oob w' = w_oob w /\
  firstn (Z.to_nat (off + len)) (flash_of w') = firstn (Z.to_nat (off + len)) wbuf.
Proof.
  intros Hmax Hc Hb size wbuf off len Hv Hend Hsmall Hfl Hheap.
  pose proof (padded_image_length contents) as Hlw. fold size wbuf in Hlw.
  pose proof (page_align_bounds (Z.of_nat (length contents))) as Hp. fold size in Hp.
  unfold writeflash_func. cbn [negb Nat.eqb]. unfold st_bind at 1, st_ret at 1. cbn beta iota.
  destruct (boot_mem w) as (w1 & H1 & D1 & O1). run H1.
  destruct (usleep_mem w1 1000000) as (w2 & H2 & D2 & O2). run H2.
  destruct (scan_mem w2 Hmax) as (w3 & H3 & D3 & O3). run H3. rewrite Z.ltb_irrefl.
  destruct (erase_mem w3) as (w4 & H4 & F4 & C4 & O4). run H4. rewrite Z.ltb_irrefl.
  fold size. rewrite (proj2 (Z.ltb_ge heap size)), (proj2 (Z.ltb_ge (heap - size) size)) by lia.
  rewrite firstn_all2 by lia. rewrite Z.eqb_refl. cbn [negb].
  change (contents ++ repeat 0 (Z.to_nat (size - Z.of_nat (length contents)))) with wbuf.
  assert (Hc4 : fd_corrupt (w_dev w4) = None) by congruence.
  assert (Hl4 : Z.of_nat (length (flash_of w4)) = Z.of_nat (length (flash_of w))).
  { rewrite F4, repeat_length. unfold flash_of. congruence. }
  pose proof (program_image_mem w4 wbuf size Hc4 (padded_image_bytes _ Hb) Hlw Hv Hend Hsmall
                ltac:(lia)) as Hpi.
  destruct (program_image wbuf (repeat 0 (Z.to_nat size)) size w4) as [r w'].
  destruct Hpi as (Hr & Ho & Hf). split; [exact Hr | split; [|exact Hf]].
  rewrite Ho, O4, O3, O2, O1. reflexivity.
Qed.
End MemFlash.

Lemma writeflash_programs_witness :
  let '(r, w') := writeflash_func "wflash" 3 "fw.bin" (Some test_image) 100000 (flash_world None) in
  r = 0 /\ w_oob w' = w_oob (flash_world None) /\
  firstn (Z.to_nat (hdr_word (padded_image test_image) 4 +
                    page_align (hdr_word (padded_image test_image) 8)))
         (flash_of w') =
  firstn (Z.to_nat (hdr_word (padded_image test_image) 4 +
                    page_align (hdr_word (padded_image test_image) 8)))
         (padded_image test_image).
Proof.
  apply (writeflash_programs test_image 100000 (flash_world None)).
  - cbv. lia.
  - reflexivity.
  - apply (bool_decide_unpack _). vm_compute. exact I.
  - apply Z.ltb_lt. vm_compute. reflexivity.
  - apply Z.leb_le. vm_compute. reflexivity.
  - apply Z.ltb_lt. vm_compute. reflexivity.
  - apply Z.leb_le. vm_compute. reflexivity.
  - apply Z.leb_le. vm_compute. reflexivity.
Defined.
