(* ===== verification/EfuseEdit.v ===== *)
(** * eFuse block layout and the two edits of [wefuse]

    The union [struct _ef_data_struct] (lines 176-204) seen through its
    two views: [struct _ef_type01] (type byte, VID, PID, MAC address,
    USB fields) and [struct _ef_type04] (type byte, 18-byte serial
    number).  The layout is the one-byte-packed layout that makes
    [EF_DATA_STRUCT_SIZE] 20, the block size the rest of the code and the
    driver use; 16-bit fields are little-endian.

    [change_mac_address] (lines 632-648) and [change_serial_number]
    (lines 650-666) find the first block of their type from block 5 on,
    overwrite the field in place and recompute the checksum nibble. *)

From Stdlib Require Import ZArith Lia String Ascii.
From stdpp Require Import base list decidable.
From S2P Require Import Prelude Checksum EfuseMerge.

Open Scope Z_scope.
Open Scope ax_scope.

(** ** The two views of a block *)

(** Byte offsets of the fields, one-byte packing. *)
Definition TYPE01_MAC : nat := 5.
Definition TYPE04_SERIAL : nat := 1.
Definition SERIAL_LEN : nat := 18.

(** The last byte of a block, the [reserve] field of both views
    ([struct _ef_type01] and [struct _ef_type04]). *)
Definition reserve_byte (b : block) : Z := blk b 19.

Definition u16_at (b : block) (i : nat) : Z := blk b i + 256 * blk b (S i).

Definition u16_bytes (x : Z) : list Z := [x mod 256; x / 256].

Record ef_type01 := mk_type01 {
  t01_type : Z;
  vid : Z;
  pid : Z;
  mac : list Z;
  bcdDevice : Z;
  bU1DevExitLat : Z;
  wU2DevExitLat : Z;
  SS_Max_Bus_Pw : Z;
  HS_Max_Bus_Pw : Z;
  IPSleep_Polling_Count : Z;
  t01_reserve : Z
}.

Record ef_type04 := mk_type04 {
  t04_type : Z;
  serial : list Z;
  t04_reserve : Z
}.

(** [efuse[i].ef_data.type01]. *)
Definition type01_of (b : block) : ef_type01 := {|
  t01_type := blk b 0; vid := u16_at b 1; pid := u16_at b 3;
  mac := map (blk b) (seq TYPE01_MAC 6);
  bcdDevice := u16_at b 11; bU1DevExitLat := blk b 13; wU2DevExitLat := u16_at b 14;
  SS_Max_Bus_Pw := blk b 16; HS_Max_Bus_Pw := blk b 17;
  IPSleep_Polling_Count := blk b 18; t01_reserve := blk b 19 |}.

(** The bytes of a [struct _ef_type01]. *)
Definition type01_bytes (t : ef_type01) : block :=
  [t01_type t] ++ u16_bytes (vid t) ++ u16_bytes (pid t) ++ mac t ++
  u16_bytes (bcdDevice t) ++ [bU1DevExitLat t] ++ u16_bytes (wU2DevExitLat t) ++
  [SS_Max_Bus_Pw t; HS_Max_Bus_Pw t; IPSleep_Polling_Count t; t01_reserve t].

(** [efuse[i].ef_data.type04]. *)
Definition type04_of (b : block) : ef_type04 := {|
  t04_type := blk b 0; serial := map (blk b) (seq TYPE04_SERIAL SERIAL_LEN);
  t04_reserve := blk b 19 |}.

Definition type04_bytes (t : ef_type04) : block := [t04_type t] ++ serial t ++ [t04_reserve t].

(** ** The edits *)

(** [for (i = 0; i < 6; i++) efuse[index].ef_data.type01.mac[i] =
    (unsigned char)mac[i];] *)
Definition set_mac (b : block) (mac : list Z) : block :=
  fold_left (fun b i => <[(TYPE01_MAC + i)%nat := u8 (nth i mac 0)]> b) (seq 0 6) b.

Definition change_mac_address (efuse : list block) (mac : list Z) : Z * list block :=
  let index := __find_efuse_index efuse EF_TYPE_01 in
  if index =? -! FAIL_GENERIAL_ERROR then (-! FAIL_GENERIAL_ERROR, efuse)
  else
    let i := Z.to_nat index in
    (code SUCCESS, <[i := checksum_efuse_block (set_mac (efuse_at efuse i) mac)]> efuse).

(** The bytes of a C string (no terminating NUL): what [memcpy(...,
    serial, strlen(serial))] copies. *)
Definition string_bytes (s : string) : list Z :=
  map (fun c => Z.of_nat (nat_of_ascii c)) (list_ascii_of_string s).

(** [memset(serial, 0, 18); memcpy(serial, s, strlen(s));] *)
Definition set_serial (b : block) (s : string) : block :=
  write_range (write_range b TYPE04_SERIAL (repeat 0 SERIAL_LEN)) TYPE04_SERIAL (string_bytes s).

Definition change_serial_number (efuse : list block) (s : string) : Z * list block :=
  let index := __find_efuse_index efuse EF_TYPE_04 in
  if index =? -! FAIL_GENERIAL_ERROR then (-! FAIL_GENERIAL_ERROR, efuse)
  else
    let i := Z.to_nat index in
    (code SUCCESS, <[i := checksum_efuse_block (set_serial (efuse_at efuse i) s)]> efuse).

(** ** The layout *)

Lemma u16_bytes_at x y : is_byte x -> is_byte y -> u16_bytes (x + 256 * y) = [x; y].
Proof. intros Hx Hy. unfold u16_bytes. f_equal; [|f_equal]; zlia. Qed.

(** A list of bytes of length [n] is [n] explicit bytes. *)
Ltac explode_block b Hl Hb :=
  repeat (destruct b as [|?x b]; [simpl in Hl; lia|]);
  destruct b; [|simpl in Hl; lia];
  unfold bytes_ok in Hb; repeat match goal with H : Forall _ (_ :: _) |- _ => inversion_clear H end.

Lemma type01_roundtrip b : block_wf b -> type01_bytes (type01_of b) = b.
Proof.
  intros [Hl Hb]. unfold EF_DATA_STRUCT_SIZE in Hl. explode_block b Hl Hb.
  unfold type01_bytes, type01_of, u16_at, blk. cbn -[u16_bytes Z.add Z.mul].
  rewrite !u16_bytes_at by assumption. reflexivity.
Qed.

Lemma type04_roundtrip b : block_wf b -> type04_bytes (type04_of b) = b.
Proof.
  intros [Hl Hb]. unfold EF_DATA_STRUCT_SIZE in Hl. explode_block b Hl Hb.
  reflexivity.
Qed.

(** ** The scan for a block type *)

Lemma scan_type_some efuse t i n k :
  scan_type efuse t i n = Some k ->
  ef_type_of (efuse_at efuse k) = t /\
  forall k', (i <= k' < k)%nat -> ef_type_of (efuse_at efuse k') <> t.
Proof.
  revert i. induction n as [|n IH]; intros i; simpl; [discriminate|].
  destruct (Z.eqb_spec (ef_type_of (efuse_at efuse i)) t) as [Ht|Ht].
  - intros [= <-]. split; [exact Ht | lia].
  - intros Hs. destruct (IH (S i) Hs) as [Hk Hlt]. split; [exact Hk|].
    pose proof (scan_type_range _ _ _ _ _ Hs).
    intros k' Hk'. destruct (Nat.eq_dec k' i) as [->|]; [exact Ht | apply Hlt; lia].
Qed.

Lemma scan_type_none efuse t i n :
  scan_type efuse t i n = None ->
  forall k, (i <= k < i + n)%nat -> ef_type_of (efuse_at efuse k) <> t.
Proof.
  revert i. induction n as [|n IH]; intros i; simpl; [lia|].
  destruct (Z.eqb_spec (ef_type_of (efuse_at efuse i)) t) as [Ht|Ht]; [discriminate|].
  intros Hs k Hk. destruct (Nat.eq_dec k i) as [->|]; [exact Ht | apply (IH (S i)); [exact Hs | lia]].
Qed.

(** ** The edits as range writes *)

Lemma set_mac_write_range b m :
  (11 <= length b)%nat ->
  set_mac b m = write_range b TYPE01_MAC (map (fun i => u8 (nth i m 0)) (seq 0 6)).
Proof.
  intros Hl. unfold set_mac, TYPE01_MAC. simpl.
  repeat (rewrite <- write_range_cons; [|rewrite ?length_insert; simpl; lia]).
  rewrite write_range_nil. reflexivity.
Qed.

Lemma write_range_wf b off src :
  block_wf b -> bytes_ok src -> (off + length src <= EF_DATA_STRUCT_SIZE)%nat ->
  block_wf (write_range b off src).
Proof.
  intros [Hl Hb] Hs Hoff. split.
  - rewrite length_write_range; lia.
  - unfold write_range. apply Forall_app; split; [apply Forall_take, Hb|].
    apply Forall_app; split; [exact Hs | apply Forall_drop, Hb].
Qed.

Lemma blk_write_range_in b off src j :
  (off + length src <= length b)%nat -> (off <= j < off + length src)%nat ->
  blk (write_range b off src) j = nth (j - off) src 0.
Proof. apply nth_write_range_in. Qed.

Lemma blk_write_range_out b off src j :
  (off + length src <= length b)%nat -> (j < off \/ off + length src <= j)%nat ->
  blk (write_range b off src) j = blk b j.
Proof. apply nth_write_range_out. Qed.

(** What an edit followed by [checksum_efuse_block] leaves: a valid
    block of the same type, equal to the edited one from byte 1 on. *)
Lemma edited_block b :
  block_wf b -> ef_type_of b <> 0 ->
  block_valid (checksum_efuse_block b) = true /\ block_wf (checksum_efuse_block b) /\
  ef_type_of (checksum_efuse_block b) = ef_type_of b /\
  forall j, j <> 0%nat -> blk (checksum_efuse_block b) j = blk b j.
Proof.
  intros Hwf Ht. split; [|split; [|split]].
  - unfold block_valid. rewrite checksum_valid by assumption. reflexivity.
  - apply checksum_wf, Hwf.
  - unfold ef_type_of. rewrite !land_15, checksum_blk0 by exact Hwf.
    pose proof (expected_hi_range b Hwf). zlia.
  - intros j Hj. apply checksum_blk_ne, Hj.
Qed.

Lemma map_blk_write_range b off src :
  (off + length src <= length b)%nat ->
  map (blk (write_range b off src)) (seq off (length src)) = src.
Proof. apply map_nth_write_range. Qed.

Lemma map_blk_ext b b' off n :
  (forall j, (off <= j < off + n)%nat -> blk b' j = blk b j) ->
  map (blk b') (seq off n) = map (blk b) (seq off n).
Proof. intros Hj. apply map_ext_in. intros j Hin%in_seq. apply Hj. lia. Qed.

(** [memset] then a shorter [memcpy] at the same place is one range write. *)
Lemma write_range_overlap (b z src : list Z) off :
  (length src <= length z)%nat -> (off + length z <= length b)%nat ->
  write_range (write_range b off z) off src = write_range b off (src ++ drop (length src) z).
Proof.
  intros Hs Hz. unfold write_range.
  assert (Hf : length (firstn off b) = off) by (rewrite length_firstn; lia).
  rewrite take_app_length' by (symmetry; exact Hf).
  rewrite drop_app_ge by (rewrite Hf; lia). rewrite Hf.
  replace (off + length src - off)%nat with (length src) by lia.
  rewrite drop_app_le by lia. rewrite !app_assoc, length_app, length_drop.
  replace (off + (length src + (length z - length src)))%nat with (off + length z)%nat by lia.
  reflexivity.
Qed.

Lemma string_bytes_ok s : bytes_ok (string_bytes s).
Proof.
  unfold bytes_ok, string_bytes. apply Forall_forall. intros x (c & <- & _)%in_map_iff.
  pose proof (nat_ascii_bounded c). unfold is_byte. lia.
Qed.

Lemma length_string_bytes s : length (string_bytes s) = String.length s.
Proof. unfold string_bytes. rewrite length_map. induction s; simpl; auto. Qed.

Lemma efuse_at_wf efuse i :
  Forall block_wf efuse -> (i < length efuse)%nat -> block_wf (efuse_at efuse i).
Proof. intros Hall Hi. unfold efuse_at. apply (proj1 (Forall_nth block_wf efuse) Hall i zero_block Hi). Qed.

Lemma efuse_at_insert_eq efuse i b :
  (i < length efuse)%nat -> efuse_at (<[i:=b]> efuse) i = b.
Proof. apply nth_insert_eq. Qed.

Lemma efuse_at_insert_ne efuse i k b :
  i <> k -> efuse_at (<[i:=b]> efuse) k = efuse_at efuse k.
Proof. apply nth_insert_ne. Qed.

(** ** What [__find_efuse_index] finds *)

(** [i] is the first block of type [t] from block 5 on. *)
Definition first_of_type (efuse : list block) (t : Z) (i : nat) : Prop :=
  (EFUSE_FIRST <= i < EFUSE_NUM_BLOCK)%nat /\ ef_type_of (efuse_at efuse i) = t /\
  forall k, (EFUSE_FIRST <= k < i)%nat -> ef_type_of (efuse_at efuse k) <> t.

Definition no_block_of_type (efuse : list block) (t : Z) : Prop :=
  forall k, (EFUSE_FIRST <= k < EFUSE_NUM_BLOCK)%nat -> ef_type_of (efuse_at efuse k) <> t.

Lemma find_index_spec efuse t :
  (__find_efuse_index efuse t = -! FAIL_GENERIAL_ERROR /\ no_block_of_type efuse (ef_type_val t)) \/
  exists i, __find_efuse_index efuse t = Z.of_nat i /\ first_of_type efuse (ef_type_val t) i.
Proof.
  unfold __find_efuse_index.
  destruct (scan_type _ _ _ _) as [i|] eqn:Hs.
  - right. exists i. split; [reflexivity|].
    pose proof (scan_type_range _ _ _ _ _ Hs). apply scan_type_some in Hs as [Ht Hlt].
    split; [unfold EFUSE_FIRST, EFUSE_NUM_BLOCK in *; lia | split; assumption].
  - left. split; [reflexivity|]. intros k Hk. apply (scan_type_none _ _ _ _ Hs). unfold EFUSE_FIRST, EFUSE_NUM_BLOCK in *. lia.
Qed.

Lemma u8_bytes_ok (f : nat -> Z) l : bytes_ok (map (fun i => u8 (f i)) l).
Proof. apply Forall_forall. intros x (i & <- & _)%in_map_iff. apply u8_byte. Qed.

(** ** Properties *)

(** C12: [change_mac_address] either finds no type-1 block among blocks
    5..31 and returns [-FAIL_GENERIAL_ERROR] with the image unchanged, or
    edits exactly the first type-1 block: its MAC field becomes the six
    given values cast to [unsigned char], the block is valid again, its
    type and every other field are kept, and no other block changes. *)
Theorem change_mac_address_spec efuse m :
  Forall block_wf efuse -> (EFUSE_NUM_BLOCK <= length efuse)%nat ->
  let '(r, efuse') := change_mac_address efuse m in
  (r = -! FAIL_GENERIAL_ERROR /\ efuse' = efuse /\ no_block_of_type efuse 1) \/
  (r = 0 /\ exists i, first_of_type efuse 1 i /\ length efuse' = length efuse /\
     (forall k, k <> i -> efuse_at efuse' k = efuse_at efuse k) /\
     block_valid (efuse_at efuse' i) = true /\ ef_type_of (efuse_at efuse' i) = 1 /\
     mac (type01_of (efuse_at efuse' i)) = map (fun k => u8 (nth k m 0)) (seq 0 6) /\
     forall j, j <> 0%nat -> (j < TYPE01_MAC \/ TYPE01_MAC + 6 <= j)%nat ->
       blk (efuse_at efuse' i) j = blk (efuse_at efuse i) j).
Proof.
  intros Hall Hlen. unfold change_mac_address. cbv zeta.
  destruct (find_index_spec efuse EF_TYPE_01) as [[-> Hnone] | (i & -> & Hfirst)].
  - rewrite (Z.eqb_refl (-! FAIL_GENERIAL_ERROR)). left. auto.
  - rewrite (proj2 (Z.eqb_neq _ (-! FAIL_GENERIAL_ERROR))) by (cbn; lia). rewrite Nat2Z.id. right. split; [reflexivity|].
    exists i. split; [exact Hfirst|]. destruct Hfirst as (Hi & Ht & _).
    assert (Hwf : block_wf (efuse_at efuse i)) by (apply efuse_at_wf; [exact Hall | simpl in *; lia]).
    pose proof Hwf as [Hbl _].
    rewrite set_mac_write_range by (rewrite Hbl; cbv; lia).
    set (src := map (fun k => u8 (nth k m 0)) (seq 0 6)).
    assert (Hsrc : length src = 6%nat) by (subst src; rewrite length_map, length_seq; reflexivity).
    set (bm := write_range (efuse_at efuse i) TYPE01_MAC src).
    assert (Hin : (TYPE01_MAC + length src <= length (efuse_at efuse i))%nat)
      by (rewrite Hsrc, Hbl; cbv; lia).
    assert (Hwm : block_wf bm) by (apply write_range_wf; [exact Hwf | apply u8_bytes_ok | rewrite Hsrc; cbv; lia]).
    assert (Htm : ef_type_of bm = 1).
    { unfold ef_type_of, bm. rewrite blk_write_range_out by (auto; cbv; lia). exact Ht. }
    destruct (edited_block bm Hwm ltac:(lia)) as (Hv & _ & Htc & Hne).
    rewrite efuse_at_insert_eq by (simpl in *; lia).
    split; [rewrite length_insert; reflexivity|].
    split; [intros k Hk; apply efuse_at_insert_ne; congruence|].
    split; [exact Hv|]. split; [congruence|]. split.
    + cbn [type01_of mac]. rewrite (map_blk_ext bm) by (intros j Hj; apply Hne; cbv in Hj; lia).
      rewrite <- Hsrc. apply map_blk_write_range, Hin.
    + intros j Hj0 Hj. rewrite Hne by exact Hj0. apply blk_write_range_out; [exact Hin | lia].
Qed.

Lemma drop_repeat {A} (x : A) n m : drop n (repeat x m) = repeat x (m - n).
Proof.
  revert m. induction n as [|n IH]; intros [|m]; simpl; rewrite ?Nat.sub_0_r; auto.
Qed.

(** [memset] then [memcpy] of a serial number of at most 18 bytes. *)
Lemma set_serial_write_range b s :
  block_wf b -> (String.length s <= SERIAL_LEN)%nat ->
  set_serial b s =
  write_range b TYPE04_SERIAL (string_bytes s ++ repeat 0 (SERIAL_LEN - String.length s)).
Proof.
  intros [Hl _] Hs. unfold set_serial.
  rewrite write_range_overlap by (rewrite ?repeat_length, ?length_string_bytes, ?Hl; cbv in *; lia).
  rewrite drop_repeat, length_string_bytes. reflexivity.
Qed.

(** C13: [change_serial_number], for a serial number of at most 18
    characters (what [writeefuse_func] lets through), either finds no
    type-4 block and returns [-FAIL_GENERIAL_ERROR] with the image
    unchanged, or edits exactly the first type-4 block: its serial field
    becomes the characters followed by zeros, the block is valid again,
    its type and reserved byte are kept, and no other block changes. *)
Theorem change_serial_number_spec efuse s :
  Forall block_wf efuse -> (EFUSE_NUM_BLOCK <= length efuse)%nat ->
  (String.length s <= SERIAL_LEN)%nat ->
  let '(r, efuse') := change_serial_number efuse s in
  (r = -! FAIL_GENERIAL_ERROR /\ efuse' = efuse /\ no_block_of_type efuse 4) \/
  (r = 0 /\ exists i, first_of_type efuse 4 i /\ length efuse' = length efuse /\
     (forall k, k <> i -> efuse_at efuse' k = efuse_at efuse k) /\
     block_valid (efuse_at efuse' i) = true /\ ef_type_of (efuse_at efuse' i) = 4 /\
     serial (type04_of (efuse_at efuse' i)) =
       string_bytes s ++ repeat 0 (SERIAL_LEN - String.length s) /\
     t04_reserve (type04_of (efuse_at efuse' i)) = t04_reserve (type04_of (efuse_at efuse i))).
Proof.
  intros Hall Hlen Hs. unfold change_serial_number. cbv zeta.
  destruct (find_index_spec efuse EF_TYPE_04) as [[-> Hnone] | (i & -> & Hfirst)].
  - rewrite (Z.eqb_refl (-! FAIL_GENERIAL_ERROR)). left. auto.
  - rewrite (proj2 (Z.eqb_neq _ (-! FAIL_GENERIAL_ERROR))) by (cbn; lia). rewrite Nat2Z.id.
    right. split; [reflexivity|]. exists i. split; [exact Hfirst|]. destruct Hfirst as (Hi & Ht & _).
    assert (Hwf : block_wf (efuse_at efuse i)) by (apply efuse_at_wf; [exact Hall | simpl in *; lia]).
    pose proof Hwf as [Hbl _].
    rewrite set_serial_write_range by assumption.
    set (src := string_bytes s ++ repeat 0 (SERIAL_LEN - String.length s)).
    assert (Hsrc : length src = SERIAL_LEN)
      by (subst src; rewrite length_app, repeat_length, length_string_bytes; lia).
    set (bm := write_range (efuse_at efuse i) TYPE04_SERIAL src).
    assert (Hin : (TYPE04_SERIAL + length src <= length (efuse_at efuse i))%nat)
      by (rewrite Hsrc, Hbl; cbv; lia).
    assert (Hwm : block_wf bm).
    { apply write_range_wf; [exact Hwf | | rewrite Hsrc; cbv; lia].
      apply Forall_app. split; [apply string_bytes_ok|].
      apply Forall_forall. intros x ->%repeat_spec. unfold is_byte. lia. }
    assert (Htm : ef_type_of bm = 4).
    { unfold ef_type_of, bm. rewrite blk_write_range_out by (auto; cbv; lia). exact Ht. }
    destruct (edited_block bm Hwm ltac:(lia)) as (Hv & _ & Htc & Hne).
    rewrite efuse_at_insert_eq by (simpl in *; lia).
    split; [rewrite length_insert; reflexivity|].
    split; [intros k Hk; apply efuse_at_insert_ne; congruence|].
    split; [exact Hv|]. split; [congruence|]. split.
    + cbn [type04_of serial]. rewrite (map_blk_ext bm) by (intros j Hj; apply Hne; cbv in Hj; lia).
      rewrite <- Hsrc. apply map_blk_write_range, Hin.
    + cbn [type04_of t04_reserve]. rewrite Hne by lia.
      apply blk_write_range_out; [exact Hin | rewrite Hsrc; cbv; lia].
Qed.

(** ** Witnesses *)

Definition sample_serial : block :=
  checksum_efuse_block ([4] ++ repeat 65 SERIAL_LEN ++ [0]).

(** Blocks 5 and 6 hold a type-1 and a type-4 block; the rest is empty. *)
Definition edit_image : list block :=
  repeat zero_block 5 ++ [sample_type01; sample_serial] ++ repeat zero_block 57.

Lemma edit_image_wf : Forall block_wf edit_image.
Proof. apply (bool_decide_unpack _). vm_compute. exact I. Qed.

Lemma change_mac_address_spec_witness :
  let '(r, efuse') := change_mac_address edit_image [0; 14; 198; 10; 20; 300] in
  (r = -! FAIL_GENERIAL_ERROR /\ efuse' = edit_image /\ no_block_of_type edit_image 1) \/
  (r = 0 /\ exists i, first_of_type edit_image 1 i /\ length efuse' = length edit_image /\
     (forall k, k <> i -> efuse_at efuse' k = efuse_at edit_image k) /\
     block_valid (efuse_at efuse' i) = true /\ ef_type_of (efuse_at efuse' i) = 1 /\
     mac (type01_of (efuse_at efuse' i)) =
       map (fun k => u8 (nth k [0; 14; 198; 10; 20; 300] 0)) (seq 0 6) /\
     forall j, j <> 0%nat -> (j < TYPE01_MAC \/ TYPE01_MAC + 6 <= j)%nat ->
       blk (efuse_at efuse' i) j = blk (efuse_at edit_image i) j).
Proof.
  apply (change_mac_address_spec edit_image [0; 14; 198; 10; 20; 300]).
  - exact edit_image_wf.
  - vm_compute. lia.
Defined.

Lemma change_serial_number_spec_witness :
  let '(r, efuse') := change_serial_number edit_image "SN0042" in
  (r = -! FAIL_GENERIAL_ERROR /\ efuse' = edit_image /\ no_block_of_type edit_image 4) \/
  (r = 0 /\ exists i, first_of_type edit_image 4 i /\ length efuse' = length edit_image /\
     (forall k, k <> i -> efuse_at efuse' k = efuse_at edit_image k) /\
     block_valid (efuse_at efuse' i) = true /\ ef_type_of (efuse_at efuse' i) = 4 /\
     serial (type04_of (efuse_at efuse' i)) =
       string_bytes "SN0042" ++ repeat 0 (SERIAL_LEN - String.length "SN0042") /\
     t04_reserve (type04_of (efuse_at efuse' i)) = t04_reserve (type04_of (efuse_at edit_image i))).
Proof.
  apply (change_serial_number_spec edit_image "SN0042").
  - exact edit_image_wf.
  - vm_compute. lia.
  - vm_compute. lia.
Defined.

(** The MAC address lands in bytes 5..10 of block 5, cast to bytes. *)
Example change_mac_sample :
  mac (type01_of (efuse_at (change_mac_address edit_image [0; 14; 198; 10; 20; 300]).2 5)) =
  [0; 14; 198; 10; 20; 44].
Proof. vm_compute. reflexivity. Qed.
