(* ===== verification/EfuseText.v ===== *)
(** * The eFuse text file

    The text form of the 32 eFuse blocks: [readefuse_func] (lines
    1098-1108) prints each block as five lines
    ["%02x %02x %02x %02x\n"] of bytes [4j+3], [4j+2], [4j+1], [4j];
    [load_efuse_from_file] (lines 668-702) reads it back with
    [fscanf(pFile, "%02X ", &tmp)], storing each value at [i + j] for
    [j = 3 .. 0], and stops at end of file.

    [scan_02X] is the part of [fscanf] the format uses: skip white space,
    read a hexadecimal number of at most two characters (a sign counts
    as one of them), skip white space.  It returns [EOF] when the input
    ends before a number starts, and a matching failure, without
    consuming the offending character, when none starts.  A ["0x"]
    prefix is read as the number [0] followed by a matching failure at
    ['x'].  On a matching failure the code stores [tmp], which it never
    initialised: the decoder takes that indeterminate value as the
    parameter [junk]. *)

From Stdlib Require Import ZArith Lia String Ascii.
From stdpp Require Import base list decidable.
From S2P Require Import Prelude Checksum EfuseMerge.

Open Scope Z_scope.
Open Scope ax_scope.

(** ** Characters *)

(** [isspace] in the C locale. *)
Definition is_space (c : ascii) : bool :=
  match nat_of_ascii c with 9 | 10 | 11 | 12 | 13 | 32 => true | _ => false end%nat.

Fixpoint skip_ws (l : list ascii) : list ascii :=
  match l with
  | c :: r => if is_space c then skip_ws r else l
  | [] => []
  end.

(** The value of a hexadecimal digit, either case. *)
Definition hex_val (c : ascii) : option Z :=
  let n := Z.of_nat (nat_of_ascii c) in
  if (48 <=? n) && (n <=? 57) then Some (n - 48)
  else if (97 <=? n) && (n <=? 102) then Some (n - 87)
  else if (65 <=? n) && (n <=? 70) then Some (n - 55)
  else None.

(** The digit [%x] prints for [0 <= d < 16]. *)
Definition hex_lower (d : Z) : ascii :=
  ascii_of_nat (Z.to_nat (if d <? 10 then 48 + d else 87 + d)).

(** ** Printing: the loop of [readefuse_func] *)

(** [%02x] of an [unsigned char]. *)
Definition fmt_02x (v : Z) : list ascii := [hex_lower (v / 16); hex_lower (v mod 16)].

(** [%02X], used by [readmac_func] and [dump_efuse_data]. *)
Definition hex_upper (d : Z) : ascii :=
  ascii_of_nat (Z.to_nat (if d <? 10 then 48 + d else 55 + d)).

Definition fmt_02X (v : Z) : list ascii := [hex_upper (v / 16); hex_upper (v mod 16)].

Definition space : ascii := " "%char.
Definition newline : ascii := "010"%char.

(** [snprintf(str_buf, 50, "%02x %02x %02x %02x\n", buf[(j * 4) + 3],
    buf[(j * 4) + 2], buf[(j * 4) + 1], buf[(j * 4)])]. *)
Definition efuse_line (buf : block) (j : nat) : list ascii :=
  fmt_02x (blk buf (j * 4 + 3)) ++ [space] ++ fmt_02x (blk buf (j * 4 + 2)) ++ [space] ++
  fmt_02x (blk buf (j * 4 + 1)) ++ [space] ++ fmt_02x (blk buf (j * 4)) ++ [newline].

(** What [readefuse_func] writes to the file: 32 blocks of five lines. *)
Definition dump_text (dump_efuse : list block) : list ascii :=
  concat (map (fun i => concat (map (efuse_line (efuse_at dump_efuse i)) (seq 0 5))) (seq 0 32)).

(** ** Reading: [load_efuse_from_file] *)

Inductive scan_result := ScanOk (v : Z) | ScanMatchFail | ScanEOF.

Definition is_sign (c : ascii) : bool := (c =? "+")%char || (c =? "-")%char.

(** One [%02X] conversion: skip white space, then at most two
    characters of a hexadecimal number. *)
Definition scan_X2 (inp : list ascii) : scan_result * list ascii :=
  match skip_ws inp with
  | [] => (ScanEOF, [])
  | c :: r =>
      match hex_val c with
      | Some d =>
          match r with
          | c2 :: r2 =>
              match hex_val c2 with
              | Some d2 => (ScanOk (16 * d + d2), r2)
              | None => (ScanOk d, r)
              end
          | [] => (ScanOk d, [])
          end
      | None =>
          if is_sign c then
            match r with
            | c2 :: r2 =>
                match hex_val c2 with
                | Some d2 => (ScanOk (if (c =? "-")%char then - d2 else d2), r2)
                | None => (ScanMatchFail, r)
                end
            | [] => (ScanMatchFail, [])
            end
          else (ScanMatchFail, c :: r)
      end
  end.

(** [fscanf(pFile, "%02X ", &tmp)]: the conversion, then the blank of the
    format skips white space. *)
Definition scan_02X (inp : list ascii) : scan_result * list ascii :=
  match scan_X2 inp with
  | (ScanOk v, r) => (ScanOk v, skip_ws r)
  | res => res
  end.

(** [for (j = 3; j >= 0; j--) { size = fscanf(...); if (size == ~0)
    break; data[i + j] = tmp & 0xFF; }]: [k] values remain; the flag
    says whether the loop met the end of the file. *)
Fixpoint load_bytes (k i : nat) (junk : Z) (inp : list ascii) (data : list Z)
  : bool * list ascii * list Z :=
  match k with
  | O => (false, inp, data)
  | S k' =>
      let '(res, inp') := scan_02X inp in
      match res with
      | ScanEOF => (true, inp', data)
      | ScanOk v => load_bytes k' i junk inp' (<[(i + k')%nat := Z.land v 255]> data)
      | ScanMatchFail => load_bytes k' i junk inp' (<[(i + k')%nat := Z.land junk 255]> data)
      end
  end.

(** [for (i = 0; i < (20 * EFUSE_NUM_BLOCK); i += 4) { ... if (size == ~0)
    break; }]: [n] groups of four bytes remain, from byte [i]. *)
Fixpoint load_groups (n i : nat) (junk : Z) (inp : list ascii) (data : list Z) : list Z :=
  match n with
  | O => data
  | S n' =>
      let '(eof, inp', data') := load_bytes 4 i junk inp data in
      if eof then data' else load_groups n' (i + 4) junk inp' data'
  end.

Definition EFUSE_GROUPS : nat := EF_DATA_STRUCT_SIZE * EFUSE_NUM_BLOCK / 4.

(** [file] is [None] when [file_path] is [NULL] or [fopen] fails. *)
Definition load_efuse_from_file (file : option (list ascii)) (junk : Z) (data : list Z)
  : Z * list Z :=
  match file with
  | None => (-! FAIL_LOAD_FILE, data)
  | Some inp => (code SUCCESS, load_groups EFUSE_GROUPS 0 junk inp data)
  end.

(** ** One number *)

Definition digit_fact (d : Z) : Prop :=
  hex_val (hex_lower d) = Some d /\ is_space (hex_lower d) = false.

#[local] Instance digit_fact_dec d : Decision (digit_fact d).
Proof. unfold digit_fact. apply _. Defined.

Lemma digit_fact_all d : 0 <= d < 16 -> digit_fact d.
Proof. change 16 with (Z.of_nat 16). apply (@forall_range_Z digit_fact digit_fact_dec). vm_compute. reflexivity. Qed.

Lemma skip_ws_fmt v s : is_byte v -> skip_ws (fmt_02x v ++ s) = fmt_02x v ++ s.
Proof.
  intros Hv. destruct (digit_fact_all (v / 16)) as [_ Hs]; [zlia|].
  simpl. rewrite Hs. reflexivity.
Qed.

Lemma skip_ws_space l : skip_ws (space :: l) = skip_ws l.
Proof. reflexivity. Qed.

Lemma skip_ws_newline l : skip_ws (newline :: l) = skip_ws l.
Proof. reflexivity. Qed.

(** [%02X] reads back what [%02x] printed. *)
Lemma scan_fmt v s : is_byte v -> scan_02X (fmt_02x v ++ s) = (ScanOk v, skip_ws s).
Proof.
  intros Hv. unfold scan_02X, scan_X2. rewrite skip_ws_fmt by exact Hv.
  destruct (digit_fact_all (v / 16)) as [H1 _]; [zlia|].
  destruct (digit_fact_all (v mod 16)) as [H2 _]; [zlia|].
  simpl. rewrite H1, H2. do 2 f_equal. zlia.
Qed.

Lemma land_byte v : is_byte v -> Z.land v 255 = v.
Proof. intros Hv. rewrite land_255. apply Z.mod_small. exact Hv. Qed.

#[local] Hint Rewrite skip_ws_space skip_ws_newline : ax_rw.

(** ** One line *)

(** A line holding [a], [b], [c], [d] in this order. *)
Definition group_text (a b c d : Z) : list ascii :=
  fmt_02x a ++ [space] ++ fmt_02x b ++ [space] ++ fmt_02x c ++ [space] ++ fmt_02x d ++ [newline].

(** Line [g] of the text of the flat byte array [flat]. *)
Definition group_at (flat : list Z) (g : nat) : list ascii :=
  group_text (nth (4 * g + 3) flat 0) (nth (4 * g + 2) flat 0)
             (nth (4 * g + 1) flat 0) (nth (4 * g) flat 0).

Definition flat_text (flat : list Z) (g n : nat) : list ascii :=
  concat (map (group_at flat) (seq g n)).

Lemma four_inserts (data : list Z) i x0 x1 x2 x3 :
  (i + 4 <= length data)%nat ->
  <[(i + 0)%nat := x0]> (<[(i + 1)%nat := x1]> (<[(i + 2)%nat := x2]> (<[(i + 3)%nat := x3]> data))) =
  write_range data i [x0; x1; x2; x3].
Proof.
  intros Hl.
  rewrite <- !write_range_cons by (rewrite ?length_insert; lia). rewrite write_range_nil.
  rewrite !Nat.add_succ_r, !Nat.add_0_r.
  rewrite (list_insert_insert_ne _ (S (S i)) (S (S (S i)))),
    (list_insert_insert_ne _ (S i) (S (S (S i)))), (list_insert_insert_ne _ i (S (S (S i)))),
    (list_insert_insert_ne _ (S i) (S (S i))), (list_insert_insert_ne _ i (S (S i))),
    (list_insert_insert_ne _ i (S i)) by lia.
  reflexivity.
Qed.

(** The four [fscanf] calls of one turn of the outer loop read one line. *)
Lemma load_bytes_line a b c d i junk rest data :
  is_byte a -> is_byte b -> is_byte c -> is_byte d -> (i + 4 <= length data)%nat ->
  load_bytes 4 i junk (group_text a b c d ++ rest) data =
  (false, skip_ws rest, write_range data i [d; c; b; a]).
Proof.
  intros Ha Hb Hc Hd Hl. unfold group_text. rewrite <- !app_assoc.
  cbn [load_bytes]. rewrite scan_fmt by exact Ha. cbn [app]. autorewrite with ax_rw.
  rewrite skip_ws_fmt, scan_fmt by exact Hb. cbn [app]. autorewrite with ax_rw.
  rewrite skip_ws_fmt, scan_fmt by exact Hc. cbn [app]. autorewrite with ax_rw.
  rewrite skip_ws_fmt, scan_fmt by exact Hd. cbn [app]. autorewrite with ax_rw.
  rewrite !land_byte by assumption. f_equal. apply four_inserts, Hl.
Qed.

(** ** The whole text *)

Lemma take4_drop (l : list Z) k :
  (k + 4 <= length l)%nat ->
  take 4 (drop k l) = [nth k l 0; nth (k + 1) l 0; nth (k + 2) l 0; nth (k + 3) l 0].
Proof.
  intros Hl. rewrite <- !(nth_skipn k l).
  replace (nth k l 0) with (nth 0 (drop k l) 0) by (rewrite nth_skipn, Nat.add_0_r; reflexivity).
  assert (Hd : (4 <= length (drop k l))%nat) by (rewrite length_drop; lia).
  destruct (drop k l) as [|x0 [|x1 [|x2 [|x3 d]]]]; simpl in Hd; try lia. reflexivity.
Qed.

Lemma write_range_app (l A B : list Z) off :
  (off + length A + length B <= length l)%nat ->
  write_range (write_range l off A) (off + length A) B = write_range l off (A ++ B).
Proof.
  intros Hl. unfold write_range.
  assert (Hf : length (take off l ++ A) = (off + length A)%nat)
    by (rewrite length_app, length_take; lia).
  rewrite (app_assoc (take off l) A).
  rewrite take_app_length' by (symmetry; exact Hf).
  rewrite <- (drop_drop _ (length B) (off + length A)).
  rewrite drop_app_length' by (symmetry; exact Hf).
  rewrite drop_drop, length_app, <- !app_assoc. rewrite Nat.add_assoc. reflexivity.
Qed.

Lemma bytes_nth flat k : bytes_ok flat -> is_byte (nth k flat 0).
Proof.
  intros Hb. destruct (decide (k < length flat)%nat) as [Hk|Hk].
  - apply Forall_nth; assumption.
  - rewrite nth_overflow by lia. unfold is_byte. lia.
Qed.

Lemma skip_ws_flat_text flat g n :
  bytes_ok flat -> skip_ws (flat_text flat g n) = flat_text flat g n.
Proof.
  intros Hb. destruct n as [|n]; [reflexivity|].
  unfold flat_text. cbn [seq map concat]. unfold group_at, group_text.
  rewrite <- !app_assoc. apply skip_ws_fmt, bytes_nth, Hb.
Qed.

(** The loader reads [m] whole lines starting at line [g] into bytes
    [4 g .. 4 (g + m)), then stops at the end of the text or of its
    [n] turns. *)
Lemma load_groups_text flat data junk n m g :
  bytes_ok flat -> (m <= n)%nat ->
  (4 * (g + m) <= length flat)%nat -> (4 * (g + m) <= length data)%nat ->
  load_groups n (4 * g) junk (flat_text flat g m) data =
  write_range data (4 * g) (take (4 * m) (drop (4 * g) flat)).
Proof.
  intros Hb. revert n g data. induction m as [|m IH]; intros n g data Hmn Hf Hd.
  - rewrite take_0, write_range_nil. destruct n; reflexivity.
  - destruct n as [|n]; [lia|]. cbn [load_groups].
    unfold flat_text. cbn [seq map concat]. fold (flat_text flat (S g) m).
    unfold group_at. rewrite load_bytes_line by (try apply bytes_nth; auto; lia).
    rewrite <- take4_drop by lia. rewrite skip_ws_flat_text by exact Hb.
    replace (4 * g + 4)%nat with (4 * S g)%nat by lia.
    rewrite IH; [| lia | lia | rewrite length_write_range; rewrite ?length_take, ?length_drop; lia].
    replace (4 * S g)%nat with (4 * g + length (take 4 (drop (4 * g) flat)))%nat
      by (rewrite length_take, length_drop; lia).
    rewrite write_range_app by (rewrite !length_take, !length_drop; lia).
    f_equal. replace (4 * S m)%nat with (4 + 4 * m)%nat by lia.
    rewrite <- take_take_drop, drop_drop, length_take, length_drop, Nat.min_l by lia.
    reflexivity.
Qed.

(** ** The printed text is the text of the flat array *)

Lemma nth_concat_blocks (dump : list block) n r :
  Forall (fun b => length b = EF_DATA_STRUCT_SIZE) dump ->
  (n < length dump)%nat -> (r < EF_DATA_STRUCT_SIZE)%nat ->
  nth (EF_DATA_STRUCT_SIZE * n + r) (concat dump) 0 = blk (efuse_at dump n) r.
Proof.
  intros Hs. revert n. induction Hs as [|b rest Hb Hrest IH]; intros n Hn Hr.
  { simpl in Hn. lia. }
  destruct n as [|n]; cbn [concat].
  - rewrite app_nth1 by lia. unfold efuse_at, blk. simpl. f_equal; lia.
  - rewrite app_nth2 by lia. rewrite Hb.
    replace (EF_DATA_STRUCT_SIZE * S n + r - EF_DATA_STRUCT_SIZE)%nat
      with (EF_DATA_STRUCT_SIZE * n + r)%nat by lia.
    apply IH; simpl in Hn; lia.
Qed.

Section Blocks.
Variable dump : list block.
Hypothesis Hsizes : Forall (fun b => length b = EF_DATA_STRUCT_SIZE) dump.

Lemma efuse_line_flat n j :
  (n < length dump)%nat -> (j < 5)%nat ->
  efuse_line (efuse_at dump n) j = group_at (concat dump) (5 * n + j).
Proof.
  intros Hn Hj.
  assert (E : forall k, (k < 4)%nat ->
            nth (4 * (5 * n + j) + k) (concat dump) 0 = blk (efuse_at dump n) (j * 4 + k)).
  { intros k Hk. rewrite <- nth_concat_blocks by (auto; unfold EF_DATA_STRUCT_SIZE; lia).
    f_equal. unfold EF_DATA_STRUCT_SIZE. lia. }
  unfold efuse_line, group_at. rewrite (E 3%nat), (E 2%nat), (E 1%nat) by lia.
  specialize (E 0%nat). rewrite !Nat.add_0_r in E. rewrite E by lia. reflexivity.
Qed.

Lemma flat_text_app flat g a b :
  flat_text flat g (a + b) = flat_text flat g a ++ flat_text flat (g + a) b.
Proof. unfold flat_text. rewrite seq_app, map_app, concat_app. reflexivity. Qed.

Lemma dump_blocks_text n :
  (n <= length dump)%nat ->
  concat (map (fun i => concat (map (efuse_line (efuse_at dump i)) (seq 0 5))) (seq 0 n)) =
  flat_text (concat dump) 0 (5 * n).
Proof.
  induction n as [|n IH]; intros Hn; [reflexivity|].
  rewrite (seq_S n 0), map_app, concat_app, IH by lia.
  replace (5 * S n)%nat with (5 * n + 5)%nat by lia. rewrite flat_text_app.
  f_equal. cbn [map concat]. rewrite app_nil_r. unfold flat_text. f_equal.
  cbn [seq map]. rewrite !efuse_line_flat by lia. repeat (apply (f_equal2 cons); [f_equal; lia|]). reflexivity.
Qed.

End Blocks.

Lemma length_flat_text flat g n : length (flat_text flat g n) = (12 * n)%nat.
Proof.
  revert g. induction n as [|n IH]; intros g; [reflexivity|].
  unfold flat_text in *. cbn [seq map concat]. rewrite length_app, IH. unfold group_at, group_text. simpl. lia.
Qed.

Lemma dump_wf_sizes dump :
  Forall block_wf dump -> Forall (fun b => length b = EF_DATA_STRUCT_SIZE) dump.
Proof. apply Forall_impl. intros b [Hl _]. exact Hl. Qed.

Lemma dump_flat_bytes dump : Forall block_wf dump -> bytes_ok (concat dump).
Proof.
  intros Hall. apply Forall_concat. eapply Forall_impl; [|exact Hall]. intros b [_ Hb]. exact Hb.
Qed.

Lemma dump_flat_length dump :
  Forall block_wf dump ->
  length (concat dump) = (EF_DATA_STRUCT_SIZE * length dump)%nat.
Proof.
  induction 1 as [|b rest [Hl _] _ IH]; [reflexivity|].
  cbn [concat length]. rewrite length_app, Hl, IH. lia.
Qed.

(** The text of a dump of 32 blocks: five lines per block. *)
Lemma dump_text_flat dump :
  length dump = EFUSE_NUM_BLOCK -> Forall block_wf dump ->
  dump_text dump = flat_text (concat dump) 0 EFUSE_GROUPS.
Proof.
  intros Hl Hall. unfold dump_text.
  rewrite (dump_blocks_text dump (dump_wf_sizes dump Hall) 32) by (rewrite Hl; reflexivity).
  reflexivity.
Qed.

(** Reading the first [k] lines of a text. *)
Lemma load_text_lines dump junk data k :
  length dump = EFUSE_NUM_BLOCK -> Forall block_wf dump ->
  (EF_DATA_STRUCT_SIZE * EFUSE_NUM_BLOCK <= length data)%nat -> (k <= EFUSE_GROUPS)%nat ->
  load_groups EFUSE_GROUPS 0 junk (flat_text (concat dump) 0 k) data =
  write_range data 0 (take (4 * k) (concat dump)).
Proof.
  intros Hl Hall Hd Hk.
  pose proof (dump_flat_length dump Hall) as Hf. rewrite Hl in Hf.
  pose proof (load_groups_text (concat dump) data junk EFUSE_GROUPS k 0
                (dump_flat_bytes dump Hall) Hk) as H.
  rewrite Nat.mul_0_r, drop_0 in H. change EFUSE_GROUPS with 160%nat in *. unfold EF_DATA_STRUCT_SIZE, EFUSE_NUM_BLOCK in *. apply H; lia.
Qed.

(** Loading the printed text of a dump (shared by the properties). *)
Lemma load_dump_text dump junk data :
  length dump = EFUSE_NUM_BLOCK -> Forall block_wf dump ->
  (EF_DATA_STRUCT_SIZE * EFUSE_NUM_BLOCK <= length data)%nat ->
  load_efuse_from_file (Some (dump_text dump)) junk data =
  (0, concat dump ++ drop (EF_DATA_STRUCT_SIZE * EFUSE_NUM_BLOCK) data).
Proof.
  intros Hl Hall Hd. unfold load_efuse_from_file.
  rewrite dump_text_flat, load_text_lines by (auto; reflexivity). f_equal.
  pose proof (dump_flat_length dump Hall) as Hf. rewrite Hl in Hf.
  unfold write_range. rewrite take_0, take_ge by (cbv in Hf |- *; lia).
  simpl. rewrite Hf. reflexivity.
Qed.

(** ** Properties *)

(** C10: the text [readefuse_func] writes reads back exactly: loading
    the dump of 32 well-formed blocks with [load_efuse_from_file] returns
    [SUCCESS] and fills the first 640 bytes of the buffer with the 32
    blocks, leaving the rest of the buffer as it was. *)
Theorem efuse_text_roundtrip dump junk data :
  length dump = EFUSE_NUM_BLOCK -> Forall block_wf dump ->
  (EF_DATA_STRUCT_SIZE * EFUSE_NUM_BLOCK <= length data)%nat ->
  load_efuse_from_file (Some (dump_text dump)) junk data =
  (0, concat dump ++ drop (EF_DATA_STRUCT_SIZE * EFUSE_NUM_BLOCK) data).
Proof. apply load_dump_text. Qed.

(** C25: a text cut after [k] whole lines still loads with [SUCCESS]:
    the first [4 k] bytes come from the text and the others keep their
    value (zero in the buffer [writeefuse_func] clears), so a file may
    leave trailing blocks out. *)
Theorem efuse_text_prefix dump junk data k :
  length dump = EFUSE_NUM_BLOCK -> Forall block_wf dump ->
  (EF_DATA_STRUCT_SIZE * EFUSE_NUM_BLOCK <= length data)%nat -> (k <= EFUSE_GROUPS)%nat ->
  load_efuse_from_file (Some (take (12 * k) (dump_text dump))) junk data =
  (0, write_range data 0 (take (4 * k) (concat dump))).
Proof.
  intros Hl Hall Hd Hk. unfold load_efuse_from_file.
  rewrite dump_text_flat by assumption.
  replace EFUSE_GROUPS with (k + (EFUSE_GROUPS - k))%nat at 2 by lia.
  rewrite flat_text_app, take_app_length' by (rewrite length_flat_text; reflexivity).
  rewrite load_text_lines by assumption. reflexivity.
Qed.

(** ** Witnesses *)

Definition text_sample : list block :=
  map (fun i => map (fun j => Z.of_nat ((7 * i + 13 * j) mod 256)) (seq 0 20)) (seq 0 32).

Lemma text_sample_wf : Forall block_wf text_sample.
Proof. apply (bool_decide_unpack _). vm_compute. exact I. Qed.

Lemma efuse_text_roundtrip_witness :
  load_efuse_from_file (Some (dump_text text_sample)) 0 (repeat 0 1280) =
  (0, concat text_sample ++ drop (EF_DATA_STRUCT_SIZE * EFUSE_NUM_BLOCK) (repeat 0 1280)).
Proof.
  apply efuse_text_roundtrip.
  - reflexivity.
  - exact text_sample_wf.
  - apply Nat.leb_le. vm_compute. reflexivity.
Defined.

Lemma efuse_text_prefix_witness :
  load_efuse_from_file (Some (take (12 * 7) (dump_text text_sample))) 0 (repeat 0 1280) =
  (0, write_range (repeat 0 1280) 0 (take (4 * 7) (concat text_sample))).
Proof.
  apply efuse_text_prefix.
  - reflexivity.
  - exact text_sample_wf.
  - apply Nat.leb_le. vm_compute. reflexivity.
  - apply Nat.leb_le. vm_compute. reflexivity.
Defined.

(** A file whose first line has a non-hexadecimal entry: the two good
    values are stored, and then every remaining [fscanf] fails on the
    same character without consuming it, so every other byte of the
    image, up to byte 639, receives the uninitialised [tmp]. *)
Example load_malformed :
  load_efuse_from_file (Some (list_ascii_of_string "01 02 zz")) 7 (repeat 0 1280) =
  (0, [7; 7; 2; 1] ++ repeat 7 636 ++ repeat 0 640).
Proof. vm_compute. reflexivity. Qed.

(** Upper-case digits read back as well: [%X] accepts both cases. *)
Example load_upper :
  scan_02X (list_ascii_of_string "Fe a") = (ScanOk 254, list_ascii_of_string "a").
Proof. vm_compute. reflexivity. Qed.
