(* ===== verification/EfuseProg.v ===== *)
(** * The eFuse commands: [wefuse] and [refuse]

    [__dump_efuse] (lines 704-745) reads blocks from the chip one
    [AX88179A_DUMP_EFUSE] request at a time, sleeping 200 ms after each;
    [__program_efuse_block] (lines 844-885) sends one
    [AX88179A_PROGRAM_EFUSE] request per block of a range.
    [writeefuse_func] (lines 887-1040) parses its options, loads the
    text file into the first half of a 128-block buffer ([file_efuse]),
    applies the MAC and serial edits, dumps the chip into the second half
    ([dump_efuse]), merges, programs the merged range, sleeps 100 ms,
    dumps the chip again over [file_efuse] and compares 32 blocks.
    [readefuse_func] (lines 1042-1118) dumps the chip and prints it.

    Each half of the buffer is a list of 64 blocks here: [merge_efuse]
    never writes past block 57 of its half, and the dumps write blocks
    0..31, so the halves never overlap.  [getopt] is modelled by the
    sequence of option letters it returns, each with the argument the
    code reads from [argv[optind]]; the files by a function from path to
    contents.  Every [fprintf(stderr, ...)] on the way is an [eprint];
    the messages printed inside [merge_efuse], [load_efuse_from_file]
    and the edits are the lists [merge_efuse_diag], [load_efuse_diag]
    and [edits_diag].  [dump_efuse_data] (lines 765-779) prints only
    under [__DEBUG], which line 46 leaves undefined. *)

From Stdlib Require Import ZArith Lia String Ascii.
From stdpp Require Import base strings pretty list decidable.
From S2P Require Import Prelude Checksum EfuseMerge Device Flash EfuseEdit EfuseText.

Open Scope Z_scope.
Open Scope ax_scope.

(** ** Parsing the options *)

(** The letter [getopt] returned and [argv[optind]] at that point;
    [None] when [optind = argc], where [argv] holds [NULL]. *)
Abbreviation opt := (ascii * option string)%type.

(** [sscanf(mac_address, "%02X:%02X:%02X:%02X:%02X:%02X", ...)]: the
    count it returns and the array [MAC] afterwards. *)
Fixpoint scan_mac (k idx : nat) (inp : list ascii) (mac : list Z) (count : Z) : Z * list Z :=
  match k with
  | O => (count, mac)
  | S k' =>
      match scan_X2 inp with
      | (ScanOk v, r) =>
          let mac' := <[idx := v]> mac in
          match k', r with
          | O, _ => (count + 1, mac')
          | _, c :: r' => if (c =? ":")%char then scan_mac k' (S idx) r' mac' (count + 1)
                          else (count + 1, mac')
          | _, [] => (count + 1, mac')
          end
      | (ScanMatchFail, _) => (count, mac)
      | (ScanEOF, _) => (if count =? 0 then -1 else count, mac)
      end
  end.

Definition sscanf_mac (s : string) (mac : list Z) : Z * list Z :=
  scan_mac 6 0 (list_ascii_of_string s) mac 0.

Record wefuse_args := mk_wefuse_args {
  wa_mac : option (list Z);
  wa_serial : option string;
  wa_file : option string
}.

(** The [while ((c = getopt(info->argc, info->argv, "msf")) != -1)]
    loop; [MAC] starts as [{0}].  [None]: [-m] or [-s] was the last
    argument, and [sscanf] or [strlen] is handed the [NULL] of
    [argv[argc]], which crashes the process. *)
Fixpoint parse_wefuse (os : list opt) (mac : list Z) (a : wefuse_args)
    : option ((Z * list string) + wefuse_args) :=
  match os with
  | [] => Some (inr a)
  | (c, arg) :: os' =>
      if (c =? "m")%char then
        match arg with
        | None => None
        | Some s =>
            let '(i, mac') := sscanf_mac s mac in
            if negb (i =? 6) then Some (inl (-! FAIL_IVALID_VALUE, ["writeefuse_func: Invalid MAC address." +:+ nl]))
            else parse_wefuse os' mac' (mk_wefuse_args (Some mac') (wa_serial a) (wa_file a))
        end
      else if (c =? "s")%char then
        match arg with
        | None => None
        | Some s =>
            if (18 <? String.length s)%nat
            then Some (inl (-! FAIL_IVALID_VALUE, ["writeefuse_func: Invalid Serial number." +:+ nl]))
            else parse_wefuse os' mac (mk_wefuse_args (wa_mac a) (Some s) (wa_file a))
        end
      else if (c =? "f")%char then
        parse_wefuse os' mac (mk_wefuse_args (wa_mac a) (wa_serial a) arg)
      else Some (inl (-! FAIL_INVALID_PARAMETER, []))
  end.

(** [getopt(..., "f")] in [readefuse_func]; a [-f] with no argument
    after it leaves [file_path] [NULL]. *)
Fixpoint parse_refuse (os : list opt) (file : option string) : Z + option string :=
  match os with
  | [] => inr file
  | (c, arg) :: os' =>
      if (c =? "f")%char then parse_refuse os' arg else inl (-! FAIL_INVALID_PARAMETER)
  end.

(** The two edits, in the order the code applies them. *)
Definition apply_edits (a : wefuse_args) (file_efuse : list block) : Z * list block :=
  let '(r, fe) := match wa_mac a with
                  | Some m => change_mac_address file_efuse m
                  | None => (code SUCCESS, file_efuse)
                  end in
  if r <? 0 then (r, fe) else
  match wa_serial a with
  | Some s => change_serial_number fe s
  | None => (code SUCCESS, fe)
  end.

(** [n] blocks of a flat byte buffer. *)
Definition blocks_of (data : list Z) (n : nat) : list block :=
  map (fun i => take EF_DATA_STRUCT_SIZE (drop (EF_DATA_STRUCT_SIZE * i) data)) (seq 0 n).

(** The value of the macro [PRINT_LOAD_FILE_FAIL] in [writeefuse_func]:
    the number of characters [fprintf] printed. *)
Definition PRINT_LOAD_FILE_FAIL_writeefuse : Z :=
  Z.of_nat (String.length (PRINT_LOAD_FILE_FAIL "writeefuse_func")).

(** ** The diagnostics of the pure steps *)

(** What [merge_efuse] prints on stderr (lines 816-818 and 831-834):
    the same tests as [merge_efuse], with the message of each failure. *)
Definition merge_efuse_diag (dump_efuse file_efuse : list block) : list string :=
  let dump_empty_index := find_empty_block_index dump_efuse in
  if dump_empty_index <? 0 then ["merge_efuse: Non empty block." +:+ nl]
  else
    let '(ret, _, _) := merge_loop (EFUSE_NUM_BLOCK - EFUSE_FIRST) EFUSE_FIRST
                          (Z.to_nat dump_empty_index) dump_efuse file_efuse 0 in
    if ret <? 0 then ["merge_efuse: ERROR eFuse block in file." +:+ nl] else [].

(** What [load_efuse_from_file] prints (lines 676-681): a path given
    that [fopen] cannot open. *)
Definition load_efuse_diag (file_path : option string) (file : option (list ascii)) : list string :=
  match file_path, file with
  | Some p, None => [open_fail_msg "load_efuse_from_file" p]
  | _, _ => []
  end.

(** What the edits print (lines 636-640, 654-658 and 969-989): the
    message of the editing function, then the handler's own, which says
    "MAC address" for the serial number as well. *)
Definition edits_diag (a : wefuse_args) (file_efuse : list block) : list string :=
  let serial_diag fe :=
    match wa_serial a with
    | Some s =>
        if fst (change_serial_number fe s) <? 0
        then ["change_serial_number: Not found type 4 from eFuese file" +:+ nl;
              "writeefuse_func: Changing MAC address failed." +:+ nl]
        else []
    | None => []
    end in
  match wa_mac a with
  | Some m =>
      if fst (change_mac_address file_efuse m) <? 0
      then ["change_mac_address: Not found type 1 from eFuese file" +:+ nl;
            "writeefuse_func: Changing MAC address failed." +:+ nl]
      else serial_diag (snd (change_mac_address file_efuse m))
  | None => serial_diag file_efuse
  end.

(** ** [dump_efuse_data] *)

(** Line 46 leaves [__DEBUG] undefined ([//#define __DEBUG]), so the
    body of [dump_efuse_data] (lines 765-779) is compiled out. *)
Definition __DEBUG : bool := false.

(** What one pass of the loop of [dump_efuse_data] prints, one entry
    per [printf]: the four bytes of group [i] last byte first, the
    block number when [i] starts a block, the newline. *)
Definition debug_group (data : list Z) (i : nat) : list string :=
  [string_of_list_ascii (fmt_02X (nth (i + 3) data 0) ++ [space] ++ fmt_02X (nth (i + 2) data 0) ++ [space] ++
                         fmt_02X (nth (i + 1) data 0) ++ [space] ++ fmt_02X (nth i data 0))] ++
  (if (i mod 20 =? 0)%nat then [" == " +:+ pretty (Z.of_nat (i / 20))] else []) ++ [nl].

(** [for (i = 0; i < (20 * EFUSE_NUM_BLOCK); i += 4)] over the bytes of
    the array. *)
Definition debug_dump_lines (efuse : list block) : list string :=
  concat (map (fun g => debug_group (concat efuse) (4 * g))
              (seq 0 (EF_DATA_STRUCT_SIZE * EFUSE_NUM_BLOCK / 4))).

Section EfuseProg.
Context `{AxConfig} {D : Type} `{Backend D}.

Abbreviation M := (st (world D)).

(** [dump_efuse_data]: the lines go to stdout under [__DEBUG]. *)
Definition dump_efuse_data (efuse : list block) : M unit :=
  if __DEBUG then fold_right (fun s k => print s ;; k) (st_ret tt) (debug_dump_lines efuse)
  else st_ret tt.

(** ** Talking to the chip *)

(** The driver copies the 20 bytes of block [i] into [efuse[i]]. *)
Definition fill_block (b : block) (data : list Z) : block :=
  write_range b 0 (take EF_DATA_STRUCT_SIZE data).

(** [for (i = block_offset; i < limit; i++) { ... ioctl ...; usleep(200000); }] *)
Fixpoint dump_loop (n i : nat) (efuse : list block) : M (Z * list block) :=
  match n with
  | O => st_ret (code SUCCESS, efuse)
  | S n' =>
      rp <- do_ioctl (AX88179A_DUMP_EFUSE (Z.of_nat i)) ;;
      if rp_ret rp <? 0 then
        report_ioctl_fail "__dump_efuse" "FLASH READ status: " rp ;; st_ret (-! FAIL_IOCTL, efuse)
      else
        usleep 200000 ;;
        dump_loop n' (S i) (<[i := fill_block (efuse_at efuse i) (rp_data rp)]> efuse)
  end.

Definition __dump_efuse (efuse : list block) (block_offset block_num : nat) : M (Z * list block) :=
  let limit := (block_offset + block_num)%nat in
  if (EFUSE_NUM_BLOCK <? limit)%nat then
    eprint ("__dump_efuse: Invalid dump block size" +:+ nl) ;; st_ret (-! FAIL_IVALID_VALUE, efuse) else
  ret <- scan_ax_device ;;
  if negb (ret =? 0) then eprint (PRINT_SCAN_DEV_FAIL "__dump_efuse") ;; st_ret (-! FAIL_SCAN_DEV, efuse) else
  dump_loop (limit - block_offset) block_offset efuse.

Definition dump_efuse_from_chip (efuse : list block) : M (Z * list block) :=
  __dump_efuse efuse 0 32.

(** [for (i = block_offset; i < limit; i++) { ... ioctl ... }] *)
Fixpoint program_loop (n : nat) (i : Z) (efuse : list block) : M Z :=
  match n with
  | O => st_ret (code SUCCESS)
  | S n' =>
      rp <- do_ioctl (AX88179A_PROGRAM_EFUSE i (efuse_at efuse (Z.to_nat i))) ;;
      if rp_ret rp <? 0 then
        report_ioctl_fail "__program_efuse_block" "FLASH PROGRAM status: " rp ;; st_ret (-! FAIL_IOCTL)
      else program_loop n' (i + 1) efuse
  end.

(** [block_offset] and [block_num] are [unsigned int]; [limit] and [i]
    are [int]. *)
Definition __program_efuse_block (efuse : list block) (block_offset block_num : Z) : M Z :=
  let limit := to_int (block_offset + block_num) in
  if Z.of_nat EFUSE_NUM_BLOCK <? limit then
    eprint ("__program_efuse_block: eFuse block not enough" +:+ nl) ;; st_ret (-! FAIL_IVALID_VALUE) else
  ret <- scan_ax_device ;;
  if negb (ret =? 0) then eprint (PRINT_SCAN_DEV_FAIL "__program_efuse_block") ;; st_ret (-! FAIL_SCAN_DEV) else
  program_loop (Z.to_nat (limit - to_int block_offset)) (to_int block_offset) efuse.

(** ** [writeefuse_func] *)

(** From the chip dump on: the merge, the programming and the check. *)
Definition program_merged (file_efuse : list block) : M Z :=
  p <- dump_efuse_from_chip (repeat zero_block EFUSE_HALF) ;;
  let '(ret, dump_efuse) := p in
  if ret <? 0 then st_ret ret else
  dump_efuse_data dump_efuse ;;
  let mr := merge_efuse dump_efuse file_efuse 0 0 in
  eprints (merge_efuse_diag dump_efuse file_efuse) ;;
  if mr_ret mr <? 0 then st_ret (mr_ret mr) else
  dump_efuse_data (mr_dump mr) ;;
  ret <- __program_efuse_block (mr_dump mr) (mr_program_index mr) (mr_program_block mr) ;;
  if ret <? 0 then st_ret ret else
  usleep 100000 ;;
  p <- dump_efuse_from_chip file_efuse ;;
  let '(ret, file_efuse') := p in
  if ret <? 0 then st_ret ret else
  if bool_decide (concat (take EFUSE_NUM_BLOCK file_efuse') =
                  concat (take EFUSE_NUM_BLOCK (mr_dump mr)))
  then st_ret (code SUCCESS)
  else eprint ("writeefuse_func: Comparing efuse failed." +:+ nl) ;; st_ret (-! FAIL_EFUSE_WRITE).

(** [files] gives the contents of a file [fopen] can open; [heap] the
    bytes [malloc] can hand out; [junk] the uninitialised [tmp] of the
    loader.  The result is the [exit_code] the handler leaves, [None]
    when the option loop crashes. *)
Definition writeefuse_body (a : wefuse_args) (files : string -> option (list ascii))
    (heap junk : Z) : M Z :=
  h <- (if wa_file a is None then show_cmd_help "wefuse" else st_ret None) ;;
  if h is Some c then st_ret c else
  if heap <? Z.of_nat (EF_DATA_STRUCT_SIZE * 128) then
    eprint (PRINT_ALLCATE_MEM_FAIL "writeefuse_func") ;; st_ret (-! FAIL_ALLCATE_MEM) else
  let file := match wa_file a with Some f => files f | None => None end in
  eprints (load_efuse_diag (wa_file a) file) ;;
  let '(r, data) := load_efuse_from_file file junk (repeat 0 (EF_DATA_STRUCT_SIZE * EFUSE_HALF)) in
  if negb (r =? 0) then
    eprint (PRINT_LOAD_FILE_FAIL "writeefuse_func") ;;
    eprint (PRINT_LOAD_FILE_FAIL "writeefuse_func") ;;
    st_ret (- PRINT_LOAD_FILE_FAIL_writeefuse) else
  dump_efuse_data (blocks_of data EFUSE_HALF) ;;
  eprints (edits_diag a (blocks_of data EFUSE_HALF)) ;;
  let '(ret, file_efuse) := apply_edits a (blocks_of data EFUSE_HALF) in
  if ret <? 0 then st_ret ret else
  dump_efuse_data file_efuse ;;
  program_merged file_efuse.

Definition writeefuse_func (os : list opt) (files : string -> option (list ascii))
    (heap junk : Z) : M (option Z) :=
  match parse_wefuse os [0; 0; 0; 0; 0; 0] (mk_wefuse_args None None None) with
  | None => st_ret None
  | Some (inl (c, msgs)) => eprints msgs ;; st_ret (Some c)
  | Some (inr a) => r <- writeefuse_body a files heap junk ;; st_ret (Some r)
  end.

(** ** [readefuse_func] *)

(** [can_write] says whether [fopen(file_path, "w")] succeeds; the path
    and the text written to the file are returned with the code. *)
Definition readefuse_func (os : list opt) (can_write : string -> bool) (heap : Z)
    : M (Z * option (string * list ascii)) :=
  match parse_refuse os None with
  | inl c => st_ret (c, None)
  | inr file =>
      h <- (if file is None then show_cmd_help "refuse" else st_ret None) ;;
      if h is Some c then st_ret (c, None) else
      if heap <? Z.of_nat (EF_DATA_STRUCT_SIZE * 32) then
        eprint (PRINT_ALLCATE_MEM_FAIL "readefuse_func") ;; st_ret (-! FAIL_ALLCATE_MEM, None) else
      p <- dump_efuse_from_chip (repeat zero_block 32) ;;
      let '(ret, dump_efuse) := p in
      if ret <? 0 then st_ret (ret, None) else
      match file with
      | Some f => if can_write f then dump_efuse_data dump_efuse ;; st_ret (code SUCCESS, Some (f, dump_text dump_efuse))
                  else eprint (open_fail_msg "readefuse_func" f) ;; st_ret (-! FAIL_LOAD_FILE, None)
      | None => st_ret (-! FAIL_LOAD_FILE, None)
      end
  end.

(** [__DEBUG] is off: the dump prints nothing. *)
Lemma debug_off_run {A} e (k : unit -> M A) (w : world D) : st_bind (dump_efuse_data e) k w = k tt w.
Proof. reflexivity. Qed.

End EfuseProg.

(** ** Only valid blocks are burnt *)

(** A request that burns a block sends a valid block to one of the
    blocks 5..31. *)
Definition burn_ok (e : event) : Prop :=
  match e with
  | EvIoctl _ (AX88179A_PROGRAM_EFUSE i d) _ =>
      Z.of_nat EFUSE_FIRST <= i < Z.of_nat EFUSE_NUM_BLOCK /\ block_valid d = true
  | _ => True
  end.

Definition is_program (r : request) : bool :=
  match r with AX88179A_PROGRAM_EFUSE _ _ => true | _ => false end.

Section Burns.
Context `{AxConfig} {D : Type} `{Backend D}.

Abbreviation M := (st (world D)).

(** Actions whose requests all satisfy [burn_ok]. *)
Class BurnsOk {A} (c : M A) : Prop :=
  burns_ok : forall w, exists evs, w_log (snd (c w)) = w_log w ++ evs /\ Forall burn_ok evs.

#[global] Instance bo_ret {A} (x : A) : BurnsOk (st_ret x : M A).
Proof. intros w. exists []. rewrite app_nil_r. split; [reflexivity | constructor]. Qed.

(** Sequencing, where the continuation may rely on a property of the
    first action's result. *)
Lemma bo_bind_post {A B} (P : A -> Prop) (c : M A) (k : A -> M B) :
  BurnsOk c -> (forall w, P (fst (c w))) -> (forall x, P x -> BurnsOk (k x)) ->
  BurnsOk (st_bind c k).
Proof.
  intros Hc HP Hk w. unfold st_bind. specialize (Hc w). specialize (HP w).
  destruct (c w) as [x w1]. destruct Hc as (evs1 & Hl1 & Hn1). simpl in Hl1, HP.
  destruct (Hk x HP w1) as (evs2 & Hl2 & Hn2). exists (evs1 ++ evs2).
  rewrite Hl2, Hl1, app_assoc. split; [reflexivity | apply Forall_app; auto].
Qed.

#[global] Instance bo_bind {A B} (c : M A) (k : A -> M B) :
  BurnsOk c -> (forall x, BurnsOk (k x)) -> BurnsOk (st_bind c k).
Proof. intros Hc Hk. apply (bo_bind_post (fun _ => True)); auto. Qed.

#[global] Instance bo_if {A} (b : bool) (c1 c2 : M A) :
  BurnsOk c1 -> BurnsOk c2 -> BurnsOk (if b then c1 else c2).
Proof. destruct b; auto. Qed.

#[global] Instance bo_usleep us : BurnsOk (usleep us : M unit).
Proof. intros w. eexists. split; [reflexivity | repeat constructor]. Qed.

#[global] Instance bo_print s : BurnsOk (print s : M unit).
Proof. intros w. exists []. rewrite app_nil_r. split; [reflexivity | constructor]. Qed.

#[global] Instance bo_eprint s : BurnsOk (eprint s : M unit).
Proof. intros w. exists []. rewrite app_nil_r. split; [reflexivity | constructor]. Qed.

#[global] Instance bo_eprints l : BurnsOk (eprints l : M unit).
Proof. induction l; simpl; apply _. Qed.

#[global] Instance bo_report_ioctl_fail f l rp : BurnsOk (report_ioctl_fail f l rp : M unit).
Proof. unfold report_ioctl_fail. apply _. Qed.

#[global] Instance bo_dump_efuse_data e : BurnsOk (dump_efuse_data e : M unit).
Proof. unfold dump_efuse_data. destruct __DEBUG; [induction (debug_dump_lines e); simpl|]; apply _. Qed.

#[global] Instance bo_show_cmd_help s : BurnsOk (show_cmd_help s : M (option Z)).
Proof. unfold show_cmd_help. destruct (lookup_cmd s); apply _. Qed.

#[global] Instance bo_dump_ioctl i : BurnsOk (do_ioctl (AX88179A_DUMP_EFUSE i) : M reply).
Proof.
  intros w. unfold do_ioctl. destruct (be_ioctl _ _ _).
  eexists. split; [reflexivity | repeat constructor].
Qed.

#[global] Instance bo_scan : BurnsOk (scan_ax_device : M Z).
Proof.
  intros w. pose proof (scan_rounds_log SCAN_DEV_MAX_RETRY w) as Hs.
  unfold scan_ax_device. destruct (scan_rounds _ w) as [r w'].
  destruct Hs as (evs & Hl & _ & Hf & _). exists evs. split; [exact Hl|].
  eapply Forall_impl; [|exact Hf]. intros [? []|] Hx; simpl in *; tauto.
Qed.

#[global] Instance bo_dump_loop n i efuse : BurnsOk (dump_loop n i efuse : M (Z * list block)).
Proof. revert i efuse. induction n as [|n IH]; intros i efuse; simpl; apply _. Qed.

#[global] Instance bo_dump efuse off num : BurnsOk (__dump_efuse efuse off num : M (Z * list block)).
Proof. unfold __dump_efuse. apply _. Qed.

(** The programming loop burns what the buffer holds in its range. *)
Lemma bo_program_loop n i efuse :
  Z.of_nat EFUSE_FIRST <= i -> i + Z.of_nat n <= Z.of_nat EFUSE_NUM_BLOCK ->
  (forall k, i <= k < i + Z.of_nat n -> block_valid (efuse_at efuse (Z.to_nat k)) = true) ->
  BurnsOk (program_loop n i efuse : M Z).
Proof.
  revert i. induction n as [|n IH]; intros i Hi Hn Hv; simpl; [apply _|].
  apply bo_bind; [|intros rp; apply bo_if; [apply _ | apply IH; intros; try apply Hv; lia]].
  intros w. unfold do_ioctl. destruct (be_ioctl _ _ _).
  eexists. split; [reflexivity|]. repeat constructor; [lia | lia | apply Hv; lia].
Qed.
End Burns.

Section BurnsProg.
Context `{AxConfig} {D : Type} `{Backend D}.

Abbreviation M := (st (world D)).

Lemma dump_loop_length n i efuse (w : world D) :
  length (snd (fst (dump_loop n i efuse w))) = length efuse.
Proof.
  revert i efuse w. induction n as [|n IH]; intros i efuse w; [reflexivity|].
  cbn [dump_loop]. unfold st_bind at 1, do_ioctl. destruct (be_ioctl _ _ _) as [rp d].
  destruct (rp_ret rp <? 0); [rewrite st_seq_ret_fst; reflexivity|].
  unfold st_bind, usleep. rewrite IH. apply length_insert.
Qed.

Lemma dump_length efuse (w : world D) :
  length (snd (fst (dump_efuse_from_chip efuse w))) = length efuse.
Proof.
  unfold dump_efuse_from_chip, __dump_efuse. cbn -[scan_ax_device dump_loop].
  unfold st_bind. destruct (scan_ax_device w) as [r w1].
  destruct (negb (r =? 0)); [reflexivity | apply dump_loop_length].
Qed.

Lemma bo_program_block efuse off num :
  Z.of_nat EFUSE_FIRST <= off -> 0 <= num -> off + num < 2 ^ 31 ->
  (forall k, off <= k < off + num -> block_valid (efuse_at efuse (Z.to_nat k)) = true) ->
  BurnsOk (__program_efuse_block efuse off num : M Z).
Proof.
  intros Ho Hn Hs Hv. unfold __program_efuse_block.
  rewrite !to_int_id by (cbn in Ho; lia).
  destruct (Z.ltb_spec (Z.of_nat EFUSE_NUM_BLOCK) (off + num)); [apply _|].
  apply bo_bind; [apply _| intros r; apply bo_if; [apply _|]].
  apply bo_program_loop; rewrite ?Z2Nat.id by lia; [lia | lia | intros k Hk; apply Hv; lia].
Qed.

Lemma bo_program_merged fe : BurnsOk (program_merged fe : M Z).
Proof.
  unfold program_merged.
  apply (bo_bind_post (fun p => length (snd p) = EFUSE_HALF)); [apply _ | |].
  { intros w. rewrite dump_length. apply repeat_length. }
  intros [ret dump] Hlen. cbn beta iota in *. apply bo_if; [apply _|].
  apply bo_bind; [apply _ | intros _]. cbv zeta. apply bo_bind; [apply _ | intros _].
  pose proof (merge_ret_nonpos dump fe 0 0 Hlen) as Hnp.
  destruct (Z.ltb_spec (mr_ret (merge_efuse dump fe 0 0)) 0); [apply _|].
  destruct (merge_success dump fe 0 0 Hlen ltac:(lia)) as (m & Hm & Hpi & Hpb & _).
  pose proof (hwm_range dump m Hm).
  pose proof (new_blocks_length fe EFUSE_FIRST (EFUSE_NUM_BLOCK - EFUSE_FIRST)).
  fold (file_new_blocks fe) in *.
  apply bo_bind; [apply _ | intros _].
  apply bo_bind; [|intros r; apply bo_if; [apply _|]; apply bo_bind; [apply _|]; intros _; apply bo_bind; [apply _|]; intros [? ?]; cbn beta iota; apply _].
  unfold EFUSE_FIRST, EFUSE_NUM_BLOCK in *. rewrite Hpi, Hpb. apply bo_program_block; unfold EFUSE_FIRST in *; [lia | lia | lia |].
  intros k Hk. rewrite <- (Z2Nat.id k) in Hk by lia.
  apply (merge_staged_valid dump fe 0 0); [exact Hlen | lia | rewrite Hpi, Hpb; lia].
Qed.

Lemma bo_writeefuse_body a files heap junk : BurnsOk (writeefuse_body a files heap junk : M Z).
Proof.
  unfold writeefuse_body. apply bo_bind; [destruct (wa_file a); apply _|].
  intros [c|]; [apply _|]. apply bo_if; [apply _|]. cbv zeta.
  apply bo_bind; [apply _ | intros _].
  destruct (load_efuse_from_file _ _ _) as [r data]. apply bo_if; [apply _|].
  do 2 (apply bo_bind; [apply _ | intros _]).
  destruct (apply_edits _ _) as [ret fe].
  apply bo_if; [apply _ | apply bo_bind; [apply _ | intros _; apply bo_program_merged]].
Qed.

End BurnsProg.

Section BurnsClaim.
Context `{AxConfig} {D : Type} `{Backend D}.

(** C4: whatever the chip answers and whatever the file holds, every
    [AX88179A_PROGRAM_EFUSE] request [writeefuse_func] sends burns a block
    that passes [check_efuse_block_valid] into one of the blocks 5..31:
    an invalid block, or one of the reserved blocks 0..4, is never
    burnt. *)
Theorem writeefuse_burns_valid os files heap junk (w : world D) :
  let '(r, w') := writeefuse_func os files heap junk w in
  exists evs, w_log w' = w_log w ++ evs /\ Forall burn_ok evs.
Proof.
  cut (BurnsOk (writeefuse_func os files heap junk)).
  { intros Hb. destruct (Hb w) as (evs & Hl & Hf).
    destruct (writeefuse_func os files heap junk w) as [r w']. eauto. }
  unfold writeefuse_func. destruct (parse_wefuse _ _ _) as [[[c msgs]|a]|]; [apply _| |apply _].
  apply bo_bind; [apply bo_writeefuse_body | intros; apply _].
Qed.

End BurnsClaim.

(** ** A memory eFuse device

    32 blocks; a dump request answers with the block, a program request
    sets bits ([|]) in it, as an eFuse can only go from 0 to 1. *)

Record efusedev := mk_efusedev { fe_chip : list block }.

#[export] Instance mem_efuse `{AxConfig} : Backend efusedev := {|
  be_ioctl n r d :=
    match r with
    | AX_SIGNATURE => (reply_ok AX88179A_DRV_NAME [], d)
    | AX88179A_DUMP_EFUSE i =>
        if (0 <=? i) && (i <? Z.of_nat EFUSE_NUM_BLOCK)
        then (reply_ok ""%string (efuse_at (fe_chip d) (Z.to_nat i)), d)
        else (reply_fail, d)
    | AX88179A_PROGRAM_EFUSE i data =>
        if (0 <=? i) && (i <? Z.of_nat EFUSE_NUM_BLOCK)
        then (reply_ok ""%string [],
              mk_efusedev (<[Z.to_nat i := zip_with Z.lor (efuse_at (fe_chip d) (Z.to_nat i)) data]>
                             (fe_chip d)))
        else (reply_fail, d)
    | _ => (reply_fail, d)
    end;
  be_ifaddrs _ := ["eth0"%string];
  be_sleep _ d := d
|}.

Section MemEfuse.
Context `{AxConfig}.

Abbreviation W := (world efusedev).

Definition chip_of (w : W) : list block := fe_chip (w_dev w).

Definition sized (l : list block) : Prop := Forall (fun b => length b = EF_DATA_STRUCT_SIZE) l.

Lemma mem_answers : answers_signature (D := efusedev).
Proof.
  intros n d. eexists. split; [reflexivity|]. split; [cbn; lia | apply prefix_refl].
Qed.

Lemma scan_efuse (w : W) :
  (0 < SCAN_DEV_MAX_RETRY)%nat ->
  exists w', scan_ax_device w = (0, w') /\ w_dev w' = w_dev w /\ w_oob w' = w_oob w.
Proof. intros Hmax. apply scan_honest; [exact Hmax | exact mem_answers | discriminate]. Qed.

Lemma sized_at l i : sized l -> (i < length l)%nat -> length (efuse_at l i) = EF_DATA_STRUCT_SIZE.
Proof. intros Hs Hi. unfold efuse_at. apply (proj1 (Forall_nth _ l) Hs i zero_block Hi). Qed.

Lemma fill_block_full b data :
  length b = EF_DATA_STRUCT_SIZE -> length data = EF_DATA_STRUCT_SIZE -> fill_block b data = data.
Proof.
  intros Hb Hd. unfold fill_block. rewrite take_ge by lia.
  unfold write_range. simpl. rewrite drop_ge by lia. apply app_nil_r.
Qed.

(** [n] dump requests from block [i] copy the chip's blocks into the buffer. *)
Lemma dump_loop_mem n i e (w : W) :
  (i + n <= EFUSE_NUM_BLOCK)%nat -> (i + n <= length e)%nat -> sized e ->
  length (chip_of w) = EFUSE_NUM_BLOCK -> sized (chip_of w) ->
  exists w', dump_loop n i e w = ((0, write_range e i (take n (drop i (chip_of w)))), w') /\
             w_dev w' = w_dev w /\ w_oob w' = w_oob w.
Proof.
  revert i e w. induction n as [|n IH]; intros i e w Hn He Hs Hl Hc.
  - eexists. rewrite take_0, write_range_nil. split; [reflexivity | auto].
  - cbn [dump_loop]. unfold st_bind at 1, do_ioctl. cbn [be_ioctl mem_efuse].
    rewrite (proj2 (Z.leb_le 0 _)), (proj2 (Z.ltb_lt _ _)) by (cbn in *; lia).
    cbn [andb rp_ret reply_ok]. rewrite Z.ltb_irrefl. unfold st_bind, usleep. cbn -[dump_loop].
    rewrite Nat2Z.id, fill_block_full
      by (apply sized_at; auto; lia || (unfold chip_of in *; lia)).
    set (w1 := mk_world _ _ _ _ _ _).
    destruct (IH (S i) (<[i := efuse_at (chip_of w) i]> e) w1) as (w' & Hd & Hdev & Hoob);
      try (subst w1; unfold chip_of in *; cbn; auto; rewrite ?length_insert; lia).
    { apply Forall_insert; [exact Hs | apply sized_at; [exact Hc | unfold chip_of in *; lia]]. }
    change (fe_chip (w_dev w)) with (chip_of w). rewrite Hd. exists w'. split; [|subst w1; split; assumption].
    do 2 f_equal. rewrite write_range_cons by lia.
    rewrite (take_S_drop _ i n zero_block) by lia. reflexivity.
Qed.

Lemma sized_efuse_at l i : sized l -> length (efuse_at l i) = EF_DATA_STRUCT_SIZE.
Proof.
  intros Hs. destruct (decide (i < length l)%nat); [apply sized_at; auto|].
  unfold efuse_at. rewrite nth_overflow by lia. apply repeat_length.
Qed.

Lemma dump_mem e (w : W) :
  (0 < SCAN_DEV_MAX_RETRY)%nat -> (EFUSE_NUM_BLOCK <= length e)%nat -> sized e ->
  length (chip_of w) = EFUSE_NUM_BLOCK -> sized (chip_of w) ->
  exists w', dump_efuse_from_chip e w = ((0, write_range e 0 (chip_of w)), w') /\
             w_dev w' = w_dev w /\ w_oob w' = w_oob w.
Proof.
  intros Hmax He Hs Hl Hc. unfold dump_efuse_from_chip, __dump_efuse. cbn -[scan_ax_device dump_loop].
  destruct (scan_efuse w Hmax) as (w1 & Hsc & Hd1 & Ho1).
  unfold st_bind. rewrite Hsc. cbn -[dump_loop].
  assert (Hch : chip_of w1 = chip_of w) by (unfold chip_of; rewrite Hd1; reflexivity).
  destruct (dump_loop_mem 32 0 e w1) as (w' & Hd & Hdev & Hoob);
    try (rewrite ?Hch; auto; unfold EFUSE_NUM_BLOCK in *; lia).
  rewrite Hd, Hch, drop_0, take_ge by (rewrite Hl; reflexivity).
  exists w'. split; [reflexivity | split; congruence].
Qed.

Lemma zip_lor_zero (b : block) : zip_with Z.lor (repeat 0 (length b)) b = b.
Proof. induction b as [|x b IH]; [reflexivity|]. simpl. rewrite IH. reflexivity. Qed.

(** [n] program requests from block [i] write the buffer's blocks into
    unburnt blocks of the chip. *)
Lemma program_loop_mem n i src (w : W) :
  (i + n <= EFUSE_NUM_BLOCK)%nat -> length (chip_of w) = EFUSE_NUM_BLOCK ->
  (forall k, (i <= k < i + n)%nat -> efuse_at (chip_of w) k = zero_block) ->
  (forall k, (i <= k < i + n)%nat -> length (efuse_at src k) = EF_DATA_STRUCT_SIZE) ->
  exists w', program_loop n (Z.of_nat i) src w = (0, w') /\
    chip_of w' = write_range (chip_of w) i (map (efuse_at src) (seq i n)) /\ w_oob w' = w_oob w.
Proof.
  revert i w. induction n as [|n IH]; intros i w Hn Hl Hz Hsz.
  - eexists. split; [reflexivity|]. cbn [seq map]. rewrite write_range_nil. auto.
  - cbn [program_loop]. unfold st_bind at 1, do_ioctl. cbn [be_ioctl mem_efuse].
    rewrite (proj2 (Z.leb_le 0 _)), (proj2 (Z.ltb_lt _ _)) by (cbn in *; lia).
    cbn [andb rp_ret reply_ok]. rewrite Z.ltb_irrefl, !Nat2Z.id.
    fold (chip_of w). rewrite (Hz i) by lia.
    unfold zero_block. rewrite <- (Hsz i) by lia. rewrite zip_lor_zero.
    set (w1 := mk_world _ _ _ _ _ _).
    replace (Z.of_nat i + 1) with (Z.of_nat (S i)) by lia.
    assert (Hc1 : chip_of w1 = <[i := efuse_at src i]> (chip_of w)) by reflexivity.
    destruct (IH (S i) w1) as (w' & Hp & Hc & Ho).
    + lia.
    + rewrite Hc1, length_insert. exact Hl.
    + intros k Hk. rewrite Hc1. unfold efuse_at. rewrite nth_insert_ne by lia. apply Hz. lia.
    + intros k Hk. apply Hsz. lia.
    + rewrite Hp. exists w'. split; [reflexivity|]. split; [|exact Ho].
      rewrite Hc, Hc1, write_range_cons by lia. reflexivity.
Qed.

Lemma usleep_efuse (w : W) us :
  exists w', usleep us w = (tt, w') /\ w_dev w' = w_dev w /\ w_oob w' = w_oob w.
Proof. eexists. split; [reflexivity | split; reflexivity]. Qed.

Lemma program_block_mem d m len (w : W) :
  (0 < SCAN_DEV_MAX_RETRY)%nat -> (m + len <= EFUSE_NUM_BLOCK)%nat ->
  length (chip_of w) = EFUSE_NUM_BLOCK ->
  (forall k, (m <= k < m + len)%nat -> efuse_at (chip_of w) k = zero_block) ->
  (forall k, (m <= k < m + len)%nat -> length (efuse_at d k) = EF_DATA_STRUCT_SIZE) ->
  exists w', __program_efuse_block d (Z.of_nat m) (Z.of_nat len) w = (0, w') /\
    chip_of w' = write_range (chip_of w) m (map (efuse_at d) (seq m len)) /\ w_oob w' = w_oob w.
Proof.
  intros Hmax Hfit Hl Hz Hsz. unfold __program_efuse_block.
  rewrite !to_int_id by (unfold EFUSE_NUM_BLOCK in *; lia).
  rewrite (proj2 (Z.ltb_ge _ _)) by (unfold EFUSE_NUM_BLOCK in *; lia).
  destruct (scan_efuse w Hmax) as (w1 & Hs & Hd & Ho). run Hs. cbn [negb Z.eqb].
  assert (Hc : chip_of w1 = chip_of w) by (unfold chip_of; rewrite Hd; reflexivity).
  replace (Z.to_nat (Z.of_nat m + Z.of_nat len - Z.of_nat m)) with len by lia.
  destruct (program_loop_mem len m d w1) as (w' & Hp & Hc' & Ho');
    rewrite ?Hc; auto.
  exists w'. rewrite Hp, Hc'. split; [reflexivity | split; [rewrite Hc; reflexivity | congruence]].
Qed.

Lemma blocks_of_cons (b : block) rest n :
  length b = EF_DATA_STRUCT_SIZE -> blocks_of (b ++ rest) (S n) = b :: blocks_of rest n.
Proof.
  intros Hb. unfold blocks_of. cbn [seq map]. rewrite Nat.mul_0_r, drop_0.
  rewrite take_app_length' by (symmetry; exact Hb). f_equal.
  rewrite <- seq_shift, map_map. apply map_ext. intros i.
  rewrite Nat.mul_succ_r, Nat.add_comm, <- drop_drop, drop_app_length' by (symmetry; exact Hb).
  reflexivity.
Qed.

Lemma blocks_of_concat (bs : list block) rest n :
  sized bs -> blocks_of (concat bs ++ rest) (length bs + n) = bs ++ blocks_of rest n.
Proof.
  induction 1 as [|b bs Hb _ IH]; [reflexivity|].
  cbn [concat length plus]. rewrite <- app_assoc, blocks_of_cons by exact Hb. rewrite IH. reflexivity.
Qed.

Lemma blocks_of_zeros n : blocks_of (repeat 0 (EF_DATA_STRUCT_SIZE * n)) n = repeat zero_block n.
Proof.
  induction n as [|n IH]; [reflexivity|].
  rewrite Nat.mul_succ_r, Nat.add_comm, repeat_app, blocks_of_cons by apply repeat_length.
  rewrite IH. reflexivity.
Qed.

Lemma scan_type_ext a b t i n :
  (forall k, (i <= k < i + n)%nat -> efuse_at a k = efuse_at b k) ->
  scan_type a t i n = scan_type b t i n.
Proof.
  revert i. induction n as [|n IH]; intros i Hk; [reflexivity|]. simpl.
  rewrite (Hk i) by lia. rewrite IH by (intros; apply Hk; lia). reflexivity.
Qed.

Lemma new_blocks_ext a b i n :
  (forall k, (i <= k < i + n)%nat -> efuse_at a k = efuse_at b k) ->
  new_blocks a i n = new_blocks b i n.
Proof.
  revert i. induction n as [|n IH]; intros i Hk; [reflexivity|]. simpl.
  rewrite (Hk i) by lia. rewrite IH by (intros; apply Hk; lia). reflexivity.
Qed.

Lemma efuse_at_app_l (l x : list block) k : (k < length l)%nat -> efuse_at (l ++ x) k = efuse_at l k.
Proof. intros Hk. apply app_nth1, Hk. Qed.

(** Only blocks 0..31 count for the mark and for the new blocks. *)
Lemma hwm_app (l x : list block) :
  length l = EFUSE_NUM_BLOCK -> high_water_mark (l ++ x) = high_water_mark l.
Proof. intros Hl. apply scan_type_ext. intros k Hk. apply efuse_at_app_l. unfold EFUSE_FIRST, EFUSE_NUM_BLOCK in *. lia. Qed.

Lemma file_new_blocks_app (l x : list block) :
  length l = EFUSE_NUM_BLOCK -> file_new_blocks (l ++ x) = file_new_blocks l.
Proof. intros Hl. apply new_blocks_ext. intros k Hk. apply efuse_at_app_l. unfold EFUSE_FIRST, EFUSE_NUM_BLOCK in *. lia. Qed.

Lemma take_write_range_app (l x src : list block) off :
  (off + length src <= length l)%nat ->
  take (length l) (write_range (l ++ x) off src) = write_range l off src.
Proof.
  intros Hl. unfold write_range.
  rewrite (take_app_le l x off), (drop_app_le l x (off + length src)) by lia. rewrite !app_assoc.
  rewrite take_app_length'; [reflexivity|].
  rewrite !length_app, length_take, length_drop. lia.
Qed.

Lemma map_efuse_at_write_range (d src : list block) off :
  (off + length src <= length d)%nat ->
  map (efuse_at (write_range d off src)) (seq off (length src)) = src.
Proof. apply map_nth_write_range. Qed.

Lemma sized_repeat_zero n : sized (repeat zero_block n).
Proof. apply Forall_forall. intros b ->%repeat_spec. apply repeat_length. Qed.

Lemma sized_write_range l off src : sized l -> sized src -> sized (write_range l off src).
Proof.
  intros Hl Hs. unfold write_range. apply Forall_app; split; [apply Forall_take, Hl|].
  apply Forall_app; split; [exact Hs | apply Forall_drop, Hl].
Qed.

Lemma sized_new_blocks fe i n : sized fe -> sized (new_blocks fe i n).
Proof.
  intros Hs. revert i. induction n as [|n IH]; intros i; [constructor|]. simpl.
  destruct (_ =? 0); [constructor|]. constructor; [apply sized_efuse_at, Hs | apply IH].
Qed.

(** The merge of a dump that reads the chip followed by empty blocks. *)
Lemma merge_chip (chip fe : list block) m :
  length chip = EFUSE_NUM_BLOCK -> high_water_mark chip = Some m ->
  Forall (fun b => block_valid b = true) (file_new_blocks fe) ->
  let mr := merge_efuse (chip ++ repeat zero_block 32) fe 0 0 in
  mr_ret mr = 0 /\ mr_program_index mr = Z.of_nat m /\
  mr_program_block mr = Z.of_nat (length (file_new_blocks fe)) /\
  mr_dump mr = write_range (chip ++ repeat zero_block 32) m (file_new_blocks fe).
Proof.
  intros Hl Hm Hv. cbv zeta.
  assert (Hlen : length (chip ++ repeat zero_block 32) = EFUSE_HALF)
    by (rewrite length_app, repeat_length, Hl; reflexivity).
  assert (Hr : mr_ret (merge_efuse (chip ++ repeat zero_block 32) fe 0 0) = 0).
  { pose proof (merge_view_spec _ fe 0 0 Hlen) as Hs. unfold merge_view, merge_spec in Hs.
    rewrite hwm_app, Hm in Hs by exact Hl.
    rewrite (proj2 (list_find_None _ _)) in Hs
      by (eapply Forall_impl; [|exact Hv]; cbn; congruence).
    destruct (Z.eqb_spec (mr_ret (merge_efuse (chip ++ repeat zero_block 32) fe 0 0)) 0);
      [assumption | discriminate]. }
  destruct (merge_success _ fe 0 0 Hlen Hr) as (m' & Hm' & Hpi & Hpb & Hd & _).
  rewrite hwm_app, Hm in Hm' by exact Hl. injection Hm' as <-. auto.
Qed.

(** A merge that succeeds prints nothing. *)
Lemma merge_diag_ok d fe pb pi : mr_ret (merge_efuse d fe pb pi) = 0 -> merge_efuse_diag d fe = [].
Proof.
  unfold merge_efuse, merge_efuse_diag. destruct (_ <? 0); [cbn; discriminate|].
  destruct (merge_loop _ _ _ _ _ _) as [[ret d'] pb']. destruct (Z.ltb_spec ret 0); cbn; [lia | auto].
Qed.

Lemma program_merged_mem (fe : list block) (w : W) m :
  (0 < SCAN_DEV_MAX_RETRY)%nat -> length (chip_of w) = EFUSE_NUM_BLOCK -> sized (chip_of w) ->
  high_water_mark (chip_of w) = Some m ->
  (forall k, (m <= k < EFUSE_NUM_BLOCK)%nat -> efuse_at (chip_of w) k = zero_block) ->
  length fe = EFUSE_HALF -> sized fe ->
  Forall (fun b => block_valid b = true) (file_new_blocks fe) ->
  (m + length (file_new_blocks fe) <= EFUSE_NUM_BLOCK)%nat ->
  let '(r, w') := program_merged fe w in
  r = 0 /\ chip_of w' = write_range (chip_of w) m (file_new_blocks fe) /\ w_oob w' = w_oob w.
Proof.
  intros Hmax Hl Hs Hm Hz Hfe Hsf Hv Hfit. unfold program_merged.
  destruct (dump_mem (repeat zero_block EFUSE_HALF) w Hmax) as (w1 & H1 & D1 & O1);
    rewrite ?repeat_length; auto using sized_repeat_zero; [cbv; lia|].
  run H1. rewrite Z.ltb_irrefl, debug_off_run.
  assert (Hd : write_range (repeat zero_block EFUSE_HALF) 0 (chip_of w) =
               chip_of w ++ repeat zero_block 32).
  { unfold write_range. rewrite Hl. cbn [take app]. rewrite drop_repeat. reflexivity. }
  rewrite Hd. destruct (merge_chip (chip_of w) fe m Hl Hm Hv) as (Hr & Hpi & Hpb & Hdump).
  rewrite (merge_diag_ok _ _ 0 0 Hr). cbn [eprints fold_right]. rewrite st_bind_ret.
  rewrite Hr, Z.ltb_irrefl, Hpi, Hpb, debug_off_run.
  set (nb := file_new_blocks fe) in *.
  set (dump' := mr_dump _) in *.
  assert (Hc1 : chip_of w1 = chip_of w) by (unfold chip_of; rewrite D1; reflexivity).
  assert (Hlen' : (m + length nb <= length (chip_of w ++ repeat zero_block 32))%nat)
    by (rewrite length_app; unfold EFUSE_NUM_BLOCK in *; lia).
  destruct (program_block_mem dump' m (length nb) w1) as (w2 & H2 & C2 & O2);
    rewrite ?Hc1; auto.
  all: try (intros k Hk; apply Hz; lia).
  { intros k Hk. rewrite Hdump. apply sized_efuse_at, sized_write_range.
    - apply Forall_app. split; [exact Hs | apply sized_repeat_zero].
    - apply sized_new_blocks, Hsf. }
  run H2. rewrite Z.ltb_irrefl.
  assert (Hc2 : chip_of w2 = write_range (chip_of w) m nb).
  { rewrite C2, Hc1, Hdump, map_efuse_at_write_range by exact Hlen'. reflexivity. }
  destruct (usleep_efuse w2 100000) as (w3 & H3 & D3 & O3). run H3.
  assert (Hc3 : chip_of w3 = write_range (chip_of w) m nb) by (unfold chip_of in *; congruence).
  assert (Hl3 : length (chip_of w3) = EFUSE_NUM_BLOCK)
    by (rewrite Hc3, length_write_range; lia).
  destruct (dump_mem fe w3 Hmax) as (w4 & H4 & D4 & O4); auto; [rewrite Hfe; cbv; lia| |].
  { rewrite Hc3. apply sized_write_range; [exact Hs | apply sized_new_blocks, Hsf]. }
  run H4. rewrite Z.ltb_irrefl.
  rewrite bool_decide_eq_true_2; cycle 1.
  { f_equal. unfold write_range at 1. rewrite take_0. cbn [app]. rewrite take_app_length' by (symmetry; exact Hl3).
    rewrite Hdump, <- Hl, take_write_range_app by (unfold EFUSE_NUM_BLOCK in *; lia).
    exact Hc3. }
  unfold st_ret. split; [reflexivity|]. split; [unfold chip_of in *; congruence | congruence].
Qed.

Lemma wf_sized l : Forall block_wf l -> sized l.
Proof. apply Forall_impl. intros b [Hl _]. exact Hl. Qed.

(** The file buffer after loading the text of a 32-block image. *)
Lemma file_buffer_of_text (img : list block) junk :
  length img = EFUSE_NUM_BLOCK -> Forall block_wf img ->
  load_efuse_from_file (Some (dump_text img)) junk (repeat 0 (EF_DATA_STRUCT_SIZE * EFUSE_HALF)) =
  (0, concat img ++ repeat 0 (EF_DATA_STRUCT_SIZE * 32)) /\
  blocks_of (concat img ++ repeat 0 (EF_DATA_STRUCT_SIZE * 32)) EFUSE_HALF =
  img ++ repeat zero_block 32.
Proof.
  intros Hl Hwf. split.
  - rewrite load_dump_text by (rewrite ?repeat_length; auto; cbv; lia).
    rewrite drop_repeat. reflexivity.
  - replace EFUSE_HALF with (length img + 32)%nat by (rewrite Hl; reflexivity).
    rewrite blocks_of_concat, blocks_of_zeros by (apply wf_sized, Hwf). reflexivity.
Qed.

(** C7: on a memory eFuse device whose blocks from the high-water mark on
    are unburnt, [wefuse -f file] with the text of a 32-block image
    whose new blocks are valid and fit returns [SUCCESS], and the chip
    afterwards holds exactly the image's new blocks appended at the mark:
    the blocks already burnt are untouched. *)
Theorem writeefuse_programs (img : list block) path files heap junk (w : W) m :
  (0 < SCAN_DEV_MAX_RETRY)%nat ->
  length (chip_of w) = EFUSE_NUM_BLOCK -> Forall block_wf (chip_of w) ->
  high_water_mark (chip_of w) = Some m ->
  (forall k, (m <= k < EFUSE_NUM_BLOCK)%nat -> efuse_at (chip_of w) k = zero_block) ->
  length img = EFUSE_NUM_BLOCK -> Forall block_wf img -> files path = Some (dump_text img) ->
  Forall (fun b => block_valid b = true) (file_new_blocks img) ->
  (m + length (file_new_blocks img) <= EFUSE_NUM_BLOCK)%nat ->
  Z.of_nat (EF_DATA_STRUCT_SIZE * 128) <= heap ->
  let '(r, w') := writeefuse_func [("f"%char, Some path)] files heap junk w in
  r = Some 0 /\ chip_of w' = write_range (chip_of w) m (file_new_blocks img) /\ w_oob w' = w_oob w.
Proof.
  intros Hmax Hl Hwf Hm Hz Hil Hiw Hf Hv Hfit Hheap. unfold writeefuse_func.
  replace (parse_wefuse _ _ _) with (Some (@inr (Z * list string) _ (mk_wefuse_args None None (Some path))))
    by reflexivity.
  unfold writeefuse_body, st_bind. cbn [wa_file]. unfold st_ret at 1. cbn beta iota.
  rewrite (proj2 (Z.ltb_ge _ _)) by exact Hheap. rewrite Hf.
  cbn [load_efuse_diag eprints fold_right]. unfold st_ret at 1. cbn beta iota.
  destruct (file_buffer_of_text img junk Hil Hiw) as [-> ->].
  cbn [negb Z.eqb edits_diag apply_edits wa_mac wa_serial code eprints fold_right].
  unfold st_ret at 1. cbn beta iota. rewrite Z.ltb_irrefl.
  pose proof (program_merged_mem (img ++ repeat zero_block 32) w m Hmax Hl (wf_sized _ Hwf) Hm Hz)
    as Hp.
  rewrite file_new_blocks_app in Hp by exact Hil.
  cbn beta iota. rewrite Z.ltb_irrefl. unfold dump_efuse_data, __DEBUG, st_ret. cbn beta iota.
  destruct (program_merged _ w) as [r w'].
  destruct Hp as (-> & ? & ?); auto.
  - rewrite length_app, repeat_length, Hil. reflexivity.
  - apply Forall_app. split; [apply wf_sized, Hiw | apply sized_repeat_zero].
Qed.

(** C11: on a memory eFuse device, [refuse -f file] returns [SUCCESS]
    and writes a text that [load_efuse_from_file] reads back as exactly
    the 32 blocks of the chip; the chip is not changed. *)
Theorem readefuse_roundtrip path can_write heap junk (w : W) :
  (0 < SCAN_DEV_MAX_RETRY)%nat ->
  length (chip_of w) = EFUSE_NUM_BLOCK -> Forall block_wf (chip_of w) ->
  can_write path = true -> Z.of_nat (EF_DATA_STRUCT_SIZE * 32) <= heap ->
  let '((r, text), w') := readefuse_func [("f"%char, Some path)] can_write heap w in
  r = 0 /\ chip_of w' = chip_of w /\
  exists t, text = Some (path, t) /\
    load_efuse_from_file (Some t) junk (repeat 0 (EF_DATA_STRUCT_SIZE * EFUSE_HALF)) =
    (0, concat (chip_of w) ++ repeat 0 (EF_DATA_STRUCT_SIZE * 32)).
Proof.
  intros Hmax Hl Hwf Hw Hheap. unfold readefuse_func.
  replace (parse_refuse _ _) with (@inr Z _ (Some path)) by reflexivity.
  unfold st_bind at 1, st_ret at 1. cbn beta iota. rewrite (proj2 (Z.ltb_ge _ _)) by exact Hheap.
  destruct (dump_mem (repeat zero_block 32) w Hmax) as (w1 & H1 & D1 & O1);
    rewrite ?repeat_length; auto using sized_repeat_zero, wf_sized.
  run H1. rewrite Z.ltb_irrefl, Hw.
  assert (Hd : write_range (repeat zero_block 32) 0 (chip_of w) = chip_of w).
  { unfold write_range. rewrite Hl, take_0, drop_ge by (rewrite repeat_length; reflexivity).
    apply app_nil_r. }
  rewrite Hd. split; [reflexivity|]. split; [unfold chip_of; rewrite D1; reflexivity|].
  eexists. split; [reflexivity|].
  rewrite load_dump_text by (rewrite ?repeat_length; auto; cbv; lia).
  rewrite drop_repeat. reflexivity.
Qed.
End MemEfuse.

(** ** The file image has the size of the array *)

Lemma load_bytes_length k i junk inp data eof inp' data' :
  load_bytes k i junk inp data = (eof, inp', data') -> length data' = length data.
Proof.
  revert inp data. induction k as [|k IH]; intros inp data; simpl; [congruence|].
  destruct (scan_02X inp) as [[v| |] rest]; [| |congruence];
    intros E; rewrite (IH _ _ E), length_insert; reflexivity.
Qed.

Lemma load_groups_length n i junk inp data : length (load_groups n i junk inp data) = length data.
Proof.
  revert i inp data. induction n as [|n IH]; intros i inp data; cbn [load_groups]; [reflexivity|].
  destruct (load_bytes 4 i junk inp data) as [[eof inp'] data'] eqn:E.
  apply load_bytes_length in E. destruct eof; [exact E|]. rewrite IH. exact E.
Qed.

Lemma load_efuse_length f junk data : length (snd (load_efuse_from_file f junk data)) = length data.
Proof. destruct f; [apply load_groups_length | reflexivity]. Qed.

Lemma blocks_of_sized data n : (EF_DATA_STRUCT_SIZE * n <= length data)%nat -> sized (blocks_of data n).
Proof.
  intros Hl. apply Forall_forall. intros b Hb. apply in_map_iff in Hb. destruct Hb as (i & <- & Hi).
  apply in_seq in Hi. rewrite length_take, length_drop. nia.
Qed.

Lemma set_mac_length b m : length (set_mac b m) = length b.
Proof.
  unfold set_mac. generalize b. induction (seq 0 6) as [|i l IH]; intros b'; [reflexivity|].
  simpl. rewrite IH, length_insert. reflexivity.
Qed.

Lemma checksum_length b : length (checksum_efuse_block b) = length b.
Proof. apply length_insert. Qed.

Lemma set_serial_length b s :
  length b = EF_DATA_STRUCT_SIZE -> (String.length s <= 18)%nat -> length (set_serial b s) = length b.
Proof.
  intros Hb Hs. unfold set_serial.
  rewrite !length_write_range; rewrite ?length_write_range, ?length_string_bytes, ?repeat_length;
    unfold TYPE04_SERIAL, SERIAL_LEN in *; rewrite ?repeat_length, Hb; unfold EF_DATA_STRUCT_SIZE; lia.
Qed.

(** Whatever [-s] was given is at most 18 characters long: [parse_wefuse]
    rejects longer serial numbers. *)
Definition serial_ok (a : wefuse_args) : Prop :=
  forall s, wa_serial a = Some s -> (String.length s <= 18)%nat.

Lemma parse_wefuse_serial os mac a a' :
  parse_wefuse os mac a = Some (inr a') -> serial_ok a -> serial_ok a'.
Proof.
  revert mac a. induction os as [|[c arg] os IH]; intros mac a; simpl.
  - intros [= ->]. auto.
  - intros E Ha. repeat case_match; simplify_eq; eapply IH; try eassumption.
    all: unfold serial_ok in *; simpl; intros s' [= <-]; apply Nat.ltb_ge; assumption.
Qed.

Lemma change_mac_sized fe m : sized fe -> sized (snd (change_mac_address fe m)).
Proof.
  intros Hs. unfold change_mac_address. case_match; [exact Hs|]. apply Forall_insert; [exact Hs|].
  rewrite checksum_length, set_mac_length. apply sized_efuse_at, Hs.
Qed.

Lemma change_serial_sized fe s :
  sized fe -> (String.length s <= 18)%nat -> sized (snd (change_serial_number fe s)).
Proof.
  intros Hs Hl. unfold change_serial_number. case_match; [exact Hs|]. apply Forall_insert; [exact Hs|].
  rewrite checksum_length, set_serial_length by (apply sized_efuse_at, Hs || exact Hl).
  apply sized_efuse_at, Hs.
Qed.

Lemma apply_edits_sized a fe : serial_ok a -> sized fe -> sized (snd (apply_edits a fe)).
Proof.
  intros Ha Hs. unfold apply_edits.
  destruct (match wa_mac a with Some m => change_mac_address fe m
            | None => (code SUCCESS, fe) end) as [r fe1] eqn:E1.
  assert (E : sized fe1).
  { destruct (wa_mac a) as [m|]; [|injection E1 as _ <-; exact Hs].
    pose proof (change_mac_sized fe m Hs) as Hm. rewrite E1 in Hm. exact Hm. }
  destruct (r <? 0); [exact E|]. destruct (wa_serial a) as [s|] eqn:Es; [|exact E].
  apply change_serial_sized; [exact E | apply Ha, Es].
Qed.

(** The MAC edit writes bytes 5..10, the serial edit bytes 1..18 of a
    serial of at most 18 characters, the checksum byte 0: none reaches
    the [reserve] byte. *)
Lemma set_mac_reserve b m : length b = EF_DATA_STRUCT_SIZE -> reserve_byte (set_mac b m) = reserve_byte b.
Proof.
  intros Hb. unfold reserve_byte, EF_DATA_STRUCT_SIZE in *. rewrite set_mac_write_range by lia.
  apply blk_write_range_out; rewrite length_map, length_seq; unfold TYPE01_MAC; lia.
Qed.

Lemma set_serial_reserve b s :
  length b = EF_DATA_STRUCT_SIZE -> (String.length s <= 18)%nat -> reserve_byte (set_serial b s) = reserve_byte b.
Proof.
  intros Hb Hs. unfold reserve_byte, set_serial, TYPE04_SERIAL, SERIAL_LEN, EF_DATA_STRUCT_SIZE in *.
  rewrite blk_write_range_out; rewrite ?length_write_range, ?length_string_bytes, ?repeat_length; try lia.
  - apply blk_write_range_out; rewrite ?repeat_length; lia.
  - rewrite ?length_write_range, ?repeat_length; lia.
Qed.

(** Re-checksumming an edited block [i] of a sized image keeps the
    [reserve] byte of every block when the edit keeps it. *)
Lemma insert_edit_reserve fe i (f : block -> block) k :
  (forall b, length b = EF_DATA_STRUCT_SIZE -> reserve_byte (f b) = reserve_byte b) -> sized fe ->
  reserve_byte (efuse_at (<[i := checksum_efuse_block (f (efuse_at fe i))]> fe) k) = reserve_byte (efuse_at fe k).
Proof.
  intros Hf Hs. destruct (decide (i < length fe)%nat) as [Hi|Hi]; [|rewrite list_insert_ge by lia; reflexivity].
  destruct (decide (i = k)) as [<-|Hik]; [|rewrite efuse_at_insert_ne by exact Hik; reflexivity].
  rewrite efuse_at_insert_eq by exact Hi. unfold reserve_byte at 1. rewrite checksum_blk_ne by lia.
  apply Hf, sized_efuse_at, Hs.
Qed.

Lemma apply_edits_reserve a fe k :
  serial_ok a -> sized fe -> reserve_byte (efuse_at (snd (apply_edits a fe)) k) = reserve_byte (efuse_at fe k).
Proof.
  intros Ha Hs. unfold apply_edits.
  destruct (wa_mac a) as [m|] eqn:Em; cbv beta iota.
  - pose proof (change_mac_sized fe m Hs) as Hs1.
    assert (H1 : forall k, reserve_byte (efuse_at (snd (change_mac_address fe m)) k) = reserve_byte (efuse_at fe k)).
    { intros k'. unfold change_mac_address. case_match; [reflexivity|].
      apply (insert_edit_reserve _ _ (fun b => set_mac b m)); [intros b Hb; apply set_mac_reserve, Hb | exact Hs]. }
    destruct (change_mac_address fe m) as [r fe1]. cbn [snd] in *. destruct (r <? 0); [apply H1|].
    destruct (wa_serial a) as [s|] eqn:Es; [|apply H1]. rewrite <- H1.
    unfold change_serial_number. case_match; [reflexivity|]. cbn [snd].
    apply (insert_edit_reserve _ _ (fun b => set_serial b s)); [intros b Hb; apply set_serial_reserve; [exact Hb | apply Ha, Es] | exact Hs1].
  - destruct (code SUCCESS <? 0); [reflexivity|]. destruct (wa_serial a) as [s|] eqn:Es; [|reflexivity].
    unfold change_serial_number. case_match; [reflexivity|]. cbn [snd].
    apply (insert_edit_reserve _ _ (fun b => set_serial b s)); [intros b Hb; apply set_serial_reserve; [exact Hb | apply Ha, Es] | exact Hs].
Qed.

(** C14: every option list [parse_wefuse] accepts leads to edits that
    keep every block of the image 20 bytes long and leave the [reserve]
    byte of every block as it was: the parser's [strlen(serial) > 18]
    check is what keeps [memcpy] of the serial number inside its
    18-byte field. *)
Theorem edits_keep_block_size os mac a fe :
  parse_wefuse os mac (mk_wefuse_args None None None) = Some (inr a) ->
  sized fe ->
  sized (snd (apply_edits a fe)) /\
  forall k, reserve_byte (efuse_at (snd (apply_edits a fe)) k) = reserve_byte (efuse_at fe k).
Proof.
  intros Hp Hs. assert (Ha : serial_ok a) by (eapply parse_wefuse_serial; [exact Hp | intros s' [=]]).
  split; [apply apply_edits_sized | intros k; apply apply_edits_reserve]; assumption.
Qed.

(** ** Diagnostics

    [writeefuse_func] reports every failure of the programming run on
    stderr: each diagnostic list ([merge_efuse_diag], [edits_diag],
    [load_efuse_diag]) is non-empty exactly when the step it mirrors
    fails. *)

Lemma merge_diag_iff d fe pb pi :
  merge_efuse_diag d fe <> [] <-> mr_ret (merge_efuse d fe pb pi) < 0.
Proof.
  unfold merge_efuse, merge_efuse_diag. destruct (_ <? 0); [cbn; split; [lia | discriminate]|].
  destruct (merge_loop _ _ _ _ _ _) as [[ret d'] pb']. destruct (Z.ltb_spec ret 0); cbn;
    split; solve [discriminate | lia | intros []; reflexivity].
Qed.

Lemma edits_diag_iff a fe : edits_diag a fe <> [] <-> fst (apply_edits a fe) < 0.
Proof.
  unfold edits_diag, apply_edits.
  destruct (wa_mac a) as [m|]; [destruct (change_mac_address fe m) as [r fe'] eqn:Em|].
  all: cbn [fst snd]; repeat case_match; cbn [fst] in *; rewrite ?Z.ltb_lt, ?Z.ltb_ge in *;
    split; solve [discriminate | lia | intros []; reflexivity].
Qed.

Section Diagnostics.
Context `{AxConfig} {D : Type} `{Backend D}.

#[local] Instance reports_dump_loop n i e : Reports (D := D) (fun p => fst p < 0) (dump_loop n i e).
Proof. revert i e. induction n; intros i e; cbn [dump_loop]; rep_tac_with ltac:(apply IHn). Qed.

#[local] Instance reports_dump e o n : Reports (D := D) (fun p => fst p < 0) (__dump_efuse e o n).
Proof. unfold __dump_efuse. cbv zeta. rep_tac. Qed.

#[local] Instance reports_program_loop n i e : Reports (D := D) (fun r => r < 0) (program_loop n i e).
Proof. revert i. induction n; intros i; cbn [program_loop]; rep_tac_with ltac:(apply IHn). Qed.

#[local] Instance reports_program_block e o n :
  Reports (D := D) (fun r => r < 0) (__program_efuse_block e o n).
Proof. unfold __program_efuse_block. cbv zeta. rep_tac. Qed.

#[local] Instance reports_merge_diag d fe :
  Reports (D := D) (fun _ => mr_ret (merge_efuse d fe 0 0) < 0) (eprints (merge_efuse_diag d fe)) | 0.
Proof.
  intros w. destruct (reports_eprints (merge_efuse_diag d fe) w) as (l & Hl & Hp). exists l.
  cbv beta in *. rewrite <- (merge_diag_iff d fe 0 0). auto.
Qed.

#[local] Instance reports_edits_diag a fe :
  Reports (D := D) (fun _ => fst (apply_edits a fe) < 0) (eprints (edits_diag a fe)) | 0.
Proof.
  intros w. destruct (reports_eprints (edits_diag a fe) w) as (l & Hl & Hp). exists l.
  cbv beta in *. rewrite <- (edits_diag_iff a fe). auto.
Qed.

Lemma program_merged_reports fe : Reports (D := D) (fun r => r <> 0) (program_merged fe).
Proof. unfold program_merged, dump_efuse_from_chip. cbv zeta. rep_tac. Qed.

Lemma PRINT_LOAD_FILE_FAIL_writeefuse_pos : 0 < PRINT_LOAD_FILE_FAIL_writeefuse.
Proof. reflexivity. Qed.

(** C30: once the options name an eFuse file, [writeefuse_func]
    reports every failure on stderr and nothing when it succeeds: it
    only appends to stderr, and it appends something exactly when its
    return code is not [SUCCESS] (allocation, open, MAC or serial edit,
    dump, merge, programming and compare failures alike). *)
Theorem writeefuse_reports a f files heap junk (w : world D) :
  wa_file a = Some f ->
  exists l, w_err (snd (writeefuse_body a files heap junk w)) = w_err w ++ l /\
            (fst (writeefuse_body a files heap junk w) <> 0 <-> l <> []).
Proof.
  intros Hf. revert w. change (Reports (fun r => r <> 0) (writeefuse_body a files heap junk)).
  pose proof PRINT_LOAD_FILE_FAIL_writeefuse_pos.
  unfold writeefuse_body. rewrite Hf. cbv beta iota zeta.
  destruct (files f) as [inp|]; cbn [load_efuse_diag load_efuse_from_file];
    rep_tac_with ltac:(apply program_merged_reports).
Qed.

(** C31: once the options name an output file, [readefuse_func]
    reports every failure on stderr and nothing when it succeeds: it
    only appends to stderr, and it appends something exactly when its
    return code is not [SUCCESS] (allocation, dump and [fopen]
    failures). *)
Theorem readefuse_reports os can_write heap f (w : world D) :
  parse_refuse os None = inr (Some f) ->
  exists l, w_err (snd (readefuse_func os can_write heap w)) = w_err w ++ l /\
            (fst (fst (readefuse_func os can_write heap w)) <> 0 <-> l <> []).
Proof.
  intros Hp. revert w. change (Reports (fun p => fst p <> 0) (readefuse_func os can_write heap)).
  unfold readefuse_func, dump_efuse_from_chip. rewrite Hp. cbv beta iota. rep_tac.
Qed.

End Diagnostics.

(** ** Witnesses *)

#[local] Existing Instance demo_config.

Definition efuse_chip : list block := repeat zero_block 5 ++ [sample_type01] ++ repeat zero_block 26.
Definition efuse_img : list block := repeat zero_block 5 ++ [sample_serial] ++ repeat zero_block 26.
Definition bad_img : list block := repeat zero_block 5 ++ [<[1%nat := 7]> sample_serial] ++ repeat zero_block 26.
Definition efuse_world : world efusedev := mk_world (mk_efusedev efuse_chip) "" [] [] [] [].

Lemma writeefuse_programs_witness :
  let '(r, w') := writeefuse_func [("f"%char, Some "efuse.txt"%string)]
                    (fun _ => Some (dump_text efuse_img)) 100000 0 efuse_world in
  r = Some 0 /\ chip_of w' = write_range (chip_of efuse_world) 6 (file_new_blocks efuse_img) /\
  w_oob w' = w_oob efuse_world.
Proof.
  apply (writeefuse_programs efuse_img "efuse.txt"%string (fun _ => Some (dump_text efuse_img))
           100000 0 efuse_world 6).
  - cbv. lia.
  - reflexivity.
  - apply (bool_decide_unpack _). vm_compute. exact I.
  - vm_compute. reflexivity.
  - apply (forall_range_nat (fun k => efuse_at (chip_of efuse_world) k = zero_block) 6 26).
    vm_compute. reflexivity.
  - reflexivity.
  - apply (bool_decide_unpack _). vm_compute. exact I.
  - reflexivity.
  - apply (bool_decide_unpack _). vm_compute. exact I.
  - vm_compute. lia.
  - vm_compute. discriminate.
Defined.

Lemma readefuse_roundtrip_witness :
  let '((r, text), w') := readefuse_func [("f"%char, Some "dump.txt"%string)] (fun _ => true) 100000
                            efuse_world in
  r = 0 /\ chip_of w' = chip_of efuse_world /\
  exists t, text = Some ("dump.txt"%string, t) /\
    load_efuse_from_file (Some t) 0 (repeat 0 (EF_DATA_STRUCT_SIZE * EFUSE_HALF)) =
    (0, concat (chip_of efuse_world) ++ repeat 0 (EF_DATA_STRUCT_SIZE * 32)).
Proof.
  apply (readefuse_roundtrip "dump.txt"%string (fun _ => true) 100000 0 efuse_world).
  - cbv. lia.
  - reflexivity.
  - apply (bool_decide_unpack _). vm_compute. exact I.
  - reflexivity.
  - vm_compute. discriminate.
Defined.

(** Writing back a file saved by [refuse] burns the chip's blocks a
    second time: every used block of the file from block 5 on counts as
    new, so block 5 is copied to the first free block, 6. *)
Example wefuse_reburns_dump :
  let text := dump_text efuse_chip in
  let '(r, w') := writeefuse_func [("f"%char, Some "dump.txt"%string)] (fun _ => Some text) 100000 0
                    efuse_world in
  r = Some 0 /\ efuse_at (chip_of w') 6 = sample_type01.
Proof. vm_compute. split; reflexivity. Qed.

(** A failed merge burns nothing: a file whose new block has a wrong
    checksum ends with the merge's error and no program request. *)
Example wefuse_invalid_no_burn :
  let '(r, w') := writeefuse_func [("f"%char, Some "bad.txt"%string)] (fun _ => Some (dump_text bad_img))
                    100000 0 efuse_world in
  r = Some (-! FAIL_IVALID_CHKSUM) /\ chip_of w' = efuse_chip.
Proof. vm_compute. split; reflexivity. Qed.

Lemma edits_keep_block_size_witness :
  let a := mk_wefuse_args None (Some "SN0123456789ABCDEF"%string) None in
  sized (snd (apply_edits a efuse_img)) /\
  forall k, reserve_byte (efuse_at (snd (apply_edits a efuse_img)) k) = reserve_byte (efuse_at efuse_img k).
Proof.
  apply (edits_keep_block_size [("s"%char, Some "SN0123456789ABCDEF"%string)] [0; 0; 0; 0; 0; 0]).
  - reflexivity.
  - apply (bool_decide_unpack _). vm_compute. exact I.
Defined.

Lemma writeefuse_reports_witness :
  let a := mk_wefuse_args None None (Some "bad.txt"%string) in
  let run := writeefuse_body a (fun _ => Some (dump_text bad_img)) 100000 0 efuse_world in
  wa_file a = Some "bad.txt"%string /\
  exists l, w_err (snd run) = w_err efuse_world ++ l /\ (fst run <> 0 <-> l <> []).
Proof. split; [reflexivity | apply (writeefuse_reports _ "bad.txt"%string); reflexivity]. Defined.

(** The merge's own message is the one diagnostic of a file with a
    block that fails its checksum. *)
Example wefuse_invalid_reported :
  let '(r, w') := writeefuse_func [("f"%char, Some "bad.txt"%string)] (fun _ => Some (dump_text bad_img))
                    100000 0 efuse_world in
  r = Some (-! FAIL_IVALID_CHKSUM) /\ w_err w' = ["merge_efuse: ERROR eFuse block in file." +:+ nl].
Proof. vm_compute. split; reflexivity. Qed.

(** In a [__DEBUG] build the dump prints, for each group of four bytes,
    the bytes last first, then [ == n] at the start of block [n], then a
    newline: 160 groups and 32 block numbers.  Block 5 of the sample
    chip is the type-1 block [sample_type01]. *)
Example debug_dump_sample :
  take 4 (debug_dump_lines efuse_chip) = ["00 00 00 00"%string; " == 0"%string; nl; "00 00 00 00"%string] /\
  drop 55 (take 57 (debug_dump_lines efuse_chip)) = ["90 0B 95 A1"%string; " == 5"%string] /\
  length (debug_dump_lines efuse_chip) = 352%nat.
Proof. vm_compute. auto. Qed.

Lemma readefuse_reports_witness :
  let os := [("f"%char, Some "dump.txt"%string)] in
  parse_refuse os None = inr (Some "dump.txt"%string) /\
  exists l, w_err (snd (readefuse_func os (fun _ => false) 100000 efuse_world)) = w_err efuse_world ++ l /\
            (fst (fst (readefuse_func os (fun _ => false) 100000 efuse_world)) <> 0 <-> l <> []).
Proof. split; [reflexivity | apply (readefuse_reports _ _ _ "dump.txt"%string); reflexivity]. Defined.
