(* ===== verification/Commands.v ===== *)
(** * The command layer: [main], [getopt] and the small handlers

    [main] (lines 1229-1279) prints the banner, shows the usage when
    there is no command, scans for the adapter ([return FAIL_SCAN_DEV]
    when there is none), sets [exit_code = -FAIL_NONE], runs the handler
    of the first table entry whose name is a prefix of [argv[1]] and maps
    the global [exit_code] to its return value: a code still equal to
    [-FAIL_NONE] shows the usage and returns [SUCCESS]; any other code
    prints ["SUCCESS"], nothing (for [-FAIL_INVALID_PARAMETER]) or
    ["FAIL"], and is returned negated.

    Handlers are modelled as actions that return the value [exit_code]
    holds when they return ([None] when the process crashes first).
    The small handlers are defined here: [show_usage] (207-214),
    [help_func] (243-260), [read_version] (262-283), [read_mac_address]
    (285-305), [readversion_func] (307-329), [readmac_func] (331-359) and
    [reload_func] (1120-1153).

    The file system is a function from paths to byte contents, threaded
    through [main] so that a file [refuse] writes can be read by a later
    [wefuse].  glibc's [getopt] is not part of the repository; it is
    modelled for option strings of plain letters by [getopt_all]. *)

From Stdlib Require Import ZArith Lia String Ascii.
From stdpp Require Import base pretty list decidable.
From S2P Require Import Prelude Checksum EfuseMerge Device Flash EfuseEdit EfuseText EfuseProg.

Open Scope Z_scope.
Open Scope ax_scope.

(** ** [getopt] *)

(** A letter of the option string is returned as itself, any other
    character as ['?']. *)
Definition getopt_letter (optstring : list ascii) (c : ascii) : ascii :=
  if existsb (fun o => (o =? c)%char) optstring then c else "?"%char.

(** The letters of one option element [argv[k]] (after its ['-']), each
    with [argv[optind]]: [optind] moves past [argv[k]] only after its
    last letter. *)
Fixpoint getopt_chars (optstring : list ascii) (argv : list string) (k : nat) (cs : list ascii)
    : list opt :=
  match cs with
  | [] => []
  | c :: cs' =>
      (getopt_letter optstring c, argv !! (if cs' is [] then S k else k))
        :: getopt_chars optstring argv k cs'
  end.

(** Every value [getopt] returns before [-1], scanning [argv[k..]].
    Elements that do not start with ['-'] (or are just ["-"]) are skipped:
    glibc permutes them behind the options, which only moves elements
    before [optind], so [argv[optind]] is the element that followed the
    option in the original order.  ["--"] ends the scan. *)
Fixpoint getopt_from (optstring : list ascii) (argv : list string) (k : nat) (rest : list string)
    : list opt :=
  match rest with
  | [] => []
  | a :: rest' =>
      match list_ascii_of_string a with
      | c :: (c2 :: cs) as tail =>
          if (c =? "-")%char then
            if (c2 =? "-")%char && (if cs is [] then true else false) then []
            else getopt_chars optstring argv k tail ++ getopt_from optstring argv (S k) rest'
          else getopt_from optstring argv (S k) rest'
      | _ => getopt_from optstring argv (S k) rest'
      end
  end.

(** The [while ((c = getopt(argc, argv, optstring)) != -1)] sequence of
    a handler: [optind] starts at 1. *)
Definition getopt_all (optstring : list ascii) (argv : list string) : list opt :=
  getopt_from optstring argv 1 (drop 1 argv).

(** ** Files *)

(** The files the tool may open, as bytes; whether [fopen(path, "w")]
    succeeds; what [malloc] can still hand out; the uninitialised [tmp]
    of the eFuse loader. *)
Record env := mk_env {
  env_fs : string -> option (list Z);
  env_can_write : string -> bool;
  env_heap : Z;
  env_junk : Z
}.

Definition ascii_of_byte (b : Z) : ascii := ascii_of_nat (Z.to_nat b).
Definition byte_of_ascii (c : ascii) : Z := Z.of_nat (nat_of_ascii c).

(** A text stream reads the same bytes as characters. *)
Definition text_of (path : string) (e : env) : option (list ascii) :=
  map ascii_of_byte <$> env_fs e path.

(** The file system after [fputs] has written [text] to [path]. *)
Definition write_file (path : string) (text : list ascii) (e : env) : env :=
  mk_env (fun p => if String.eqb p path then Some (map byte_of_ascii text) else env_fs e p)
         (env_can_write e) (env_heap e) (env_junk e).

(** ** Printing *)


(** ["%02X:%02X:%02X:%02X:%02X:%02X"] of six bytes. *)
Definition mac_text (mac : list Z) : list ascii :=
  match mac with
  | [] => []
  | b :: bs => fmt_02X b ++ concat (map (fun x => ":"%char :: fmt_02X x) bs)
  end.

(** The bytes of a [char] array up to its first NUL; [None] when there
    is none, and [printf("%s")] reads past the array. *)
Definition c_string (buf : list Z) : option (list Z) :=
  match list_find (fun b => b = 0) buf with
  | Some (i, _) => Some (take i buf)
  | None => None
  end.

Definition string_of_bytes (l : list Z) : string := string_of_list_ascii (map ascii_of_byte l).

(** [printf("Firmware Version: %s\n", version)] of the bytes [%s] reads. *)
Definition version_line (s : list Z) : string :=
  "Firmware Version: " +:+ string_of_bytes s +:+ nl.

(** [printf("MAC address: %02X:%02X:%02X:%02X:%02X:%02X\n", ...)]. *)
Definition mac_line (mac : list Z) : string :=
  "MAC address: " +:+ string_of_list_ascii (mac_text mac) +:+ nl.

Definition AX88179A_IOCTL_VERSION : string :=
  "AX88179A/AX88772D Linux Flash/eFuse Programming Tool v1.0.0".

Section Commands.
Context `{AxConfig} {D : Type} `{Backend D}.

Abbreviation M := (st (world D)).

(** [show_usage] (lines 207-214). *)
Definition show_usage : M unit :=
  print ("Usage:" +:+ nl) ;;
  fold_right (fun e k => print (help_ins e +:+ nl) ;; k) (st_ret tt) ax88179a_cmd_list.

(** [help_func] (lines 243-260): [argv2] is [argv[2]]; [None] when
    [exit_code] is left alone. *)
Definition help_func (argv2 : option string) : M (option Z) :=
  match argv2 with
  | None => st_ret None
  | Some s => show_cmd_help s
  end.

(** [memset(ioctl_cmd.version.version, 0, 16)], then the driver's
    string over it. *)
Definition version_bytes (rp : reply) : list Z :=
  take 16 (map byte_of_ascii (list_ascii_of_string (rp_str rp)) ++ repeat 0 16).

(** [read_version] (lines 262-283): the code and the array [version]
    afterwards. *)
Definition read_version (version : list Z) : M (Z * list Z) :=
  rp <- do_ioctl AX88179A_READ_VERSION ;;
  if rp_ret rp <? 0 then eprint (PRINT_IOCTL_FAIL "read_version" (rp_ret rp)) ;; st_ret (-! FAIL_IOCTL, version)
  else st_ret (code SUCCESS, version_bytes rp).

(** [read_mac_address] (lines 285-305): both failures return the callee's
    own value.  The kernel fills the six address bytes of [sa_data]. *)
Definition read_mac_address (mac : list Z) : M (Z * list Z) :=
  ret <- scan_ax_device ;;
  if ret <? 0 then eprint (PRINT_SCAN_DEV_FAIL "read_mac_address") ;; st_ret (ret, mac) else
  rp <- do_ioctl SIOCGIFHWADDR ;;
  if rp_ret rp <? 0 then eprint (PRINT_IOCTL_FAIL "read_mac_address" (rp_ret rp)) ;; st_ret (rp_ret rp, mac)
  else st_ret (code SUCCESS, map u8 (take 6 (rp_data rp ++ repeat 0 6))).

(** [readversion_func] (lines 307-329). *)
Definition readversion_func (argv1 : string) (argc : nat) : M Z :=
  h <- (if negb (argc =? 2)%nat then show_cmd_help argv1 else st_ret None) ;;
  if h is Some c then st_ret c else
  p <- read_version (repeat 0 16) ;;
  let '(ret, version) := p in
  (if ret =? 0 then
     match c_string version with
     | Some s => print (version_line s)
     | None => oob "printf(version)" ;; print (version_line version)
     end
   else st_ret tt) ;;
  st_ret ret.

(** [readmac_func] (lines 331-359). *)
Definition readmac_func (argv1 : string) (argc : nat) : M Z :=
  h <- (if negb (argc =? 2)%nat then show_cmd_help argv1 else st_ret None) ;;
  if h is Some c then st_ret c else
  p <- read_mac_address (repeat 0 6) ;;
  let '(ret, mac) := p in
  (if ret =? 0 then print (mac_line mac) else st_ret tt) ;;
  st_ret ret.

(** [reload_func] (lines 1120-1153). *)
Definition reload_func (argv1 : string) (argc : nat) : M Z :=
  h <- (if negb (argc =? 2)%nat then show_cmd_help argv1 else st_ret None) ;;
  if h is Some c then st_ret c else
  ret <- scan_ax_device ;;
  if negb (ret =? 0) then eprint (PRINT_SCAN_DEV_FAIL "reload_func") ;; st_ret (-! FAIL_SCAN_DEV) else
  _ <- sw_reset ;;
  ret <- scan_ax_device ;;
  if negb (ret =? 0) then eprint (PRINT_SCAN_DEV_FAIL "reload_func") ;; st_ret (-! FAIL_SCAN_DEV) else
  st_ret (code SUCCESS).

(** [(ax88179a_cmd_list[i].OptFunc)(&info)]: the value of [exit_code]
    afterwards ([None]: the process crashed), and the files. *)
Definition dispatch (i : nat) (argv : list string) (e : env) : M (option Z * env) :=
  let argc := length argv in
  let argv1 := default "" (argv !! 1%nat) in
  match i with
  | 0%nat => h <- help_func (argv !! 2%nat) ;; st_ret (Some (default (-! FAIL_NONE) h), e)
  | 1%nat => r <- readversion_func argv1 argc ;; st_ret (Some r, e)
  | 2%nat => r <- readmac_func argv1 argc ;; st_ret (Some r, e)
  | 3%nat => r <- writeflash_func argv1 argc (default "" (argv !! 2%nat)) (argv !! 2%nat ≫= env_fs e)
                    (env_heap e) ;;
             st_ret (Some r, e)
  | 4%nat => r <- writeefuse_func (getopt_all ["m"; "s"; "f"]%char argv)
                    (fun p => text_of p e) (env_heap e) (env_junk e) ;;
             st_ret (r, e)
  | 5%nat => p <- readefuse_func (getopt_all ["f"]%char argv) (env_can_write e) (env_heap e) ;;
             let '(r, out) := p in
             st_ret (Some r, match out with Some (f, t) => write_file f t e | None => e end)
  | _ => r <- reload_func argv1 argc ;; st_ret (Some r, e)
  end.

(** The end of [main] (lines 1268-1278): from the value [exit_code]
    holds after the handler to the return value. *)
Definition main_exit (p : option Z * env) : M (option Z * env) :=
  let '(ec, e') := p in
  match ec with
  | None => st_ret (None, e')
  | Some ec =>
      if ec =? -! FAIL_NONE then show_usage ;; st_ret (Some (code SUCCESS), e') else
      (if ec =? 0 then print ("SUCCESS" +:+ nl)
       else if ec =? -! FAIL_INVALID_PARAMETER then st_ret tt
       else print ("FAIL" +:+ nl)) ;;
      st_ret (Some (- ec), e')
  end.

(** [main] (lines 1229-1279): its return value ([None]: a crash) and the
    files afterwards. *)
Definition main (argv : list string) (e : env) : M (option Z * env) :=
  print (AX88179A_IOCTL_VERSION +:+ nl) ;;
  if (length argv <? 2)%nat then show_usage ;; st_ret (Some (code SUCCESS), e) else
  ret <- scan_ax_device ;;
  if negb (ret =? 0) then
    print ("No " +:+ AX88179A_SIGNATURE +:+ " found" +:+ nl) ;; st_ret (Some (code FAIL_SCAN_DEV), e)
  else
  p <- match find_cmd (default "" (argv !! 1%nat)) with
       | Some i => dispatch i argv e
       | None => st_ret (Some (-! FAIL_NONE), e)
       end ;;
  main_exit p.

End Commands.

(** ** The MAC address text *)

Definition upper_fact (d : Z) : Prop :=
  hex_val (hex_upper d) = Some d /\ is_space (hex_upper d) = false.

#[local] Instance upper_fact_dec d : Decision (upper_fact d).
Proof. unfold upper_fact. apply _. Defined.

Lemma upper_fact_all d : 0 <= d < 16 -> upper_fact d.
Proof. change 16 with (Z.of_nat 16). apply (@forall_range_Z upper_fact upper_fact_dec). vm_compute. reflexivity. Qed.

(** [%X] reads back the two digits of [%02X] and nothing more. *)
Lemma scan_X2_fmt_02X v s : is_byte v -> scan_X2 (fmt_02X v ++ s) = (ScanOk v, s).
Proof.
  intros Hv. destruct (upper_fact_all (v / 16)) as [H1 Hs]; [zlia|].
  destruct (upper_fact_all (v mod 16)) as [H2 _]; [zlia|].
  unfold scan_X2. simpl. rewrite Hs, H1, H2. do 2 f_equal. zlia.
Qed.

Lemma scan_mac_text (bs : list Z) : forall b idx mac count,
  Forall is_byte (b :: bs) -> (idx + S (length bs) <= length mac)%nat ->
  scan_mac (S (length bs)) idx (fmt_02X b ++ concat (map (fun x => ":"%char :: fmt_02X x) bs))
           mac count = (count + Z.of_nat (S (length bs)), write_range mac idx (b :: bs)).
Proof.
  induction bs as [|b2 bs IH]; intros b idx mac count Hb Hl; inversion_clear Hb as [|? ? Hb0 Hbs].
  - cbn [scan_mac concat map]. rewrite scan_X2_fmt_02X by exact Hb0. cbn [length].
    rewrite <- write_range_cons, write_range_nil by (simpl in Hl; lia). f_equal; lia.
  - cbn [scan_mac concat map]. rewrite scan_X2_fmt_02X by exact Hb0. cbn [length app].
    rewrite IH by (rewrite ?length_insert; auto; simpl in Hl; lia).
    rewrite write_range_cons by (simpl in Hl; lia). f_equal; lia.
Qed.

(** C17: the address [rmacaddr] prints ([%02X:] six times) is read back
    by the [-m] option of [wefuse] ([sscanf] with the same format) as
    the same six bytes, with [sscanf] reporting six conversions. *)
Theorem mac_text_roundtrip (mac mac0 : list Z) :
  length mac = 6%nat -> Forall is_byte mac -> length mac0 = 6%nat ->
  sscanf_mac (string_of_list_ascii (mac_text mac)) mac0 = (6, mac).
Proof.
  intros Hl Hb Hl0. destruct mac as [|b bs]; [discriminate|].
  unfold sscanf_mac, mac_text. rewrite list_ascii_of_string_of_list_ascii.
  simpl in Hl. injection Hl as Hl. rewrite <- Hl.
  rewrite scan_mac_text by (auto; simpl; lia).
  rewrite Hl, write_range_full by (simpl; lia). reflexivity.
Qed.

(** ** The version string *)

Lemma c_string_none l : c_string l = None <-> ~ In 0 l.
Proof.
  unfold c_string. destruct (list_find _ l) as [[i x]|] eqn:E.
  - split; [discriminate|]. intros Hn. exfalso. apply Hn.
    apply list_find_Some in E as (Hl & Hx & _). subst x.
    apply list_elem_of_In. eapply list_elem_of_lookup_2. exact Hl.
  - split; [intros _ Hin | reflexivity]. apply list_find_None in E. rewrite Forall_forall in E.
    apply (E 0); [exact Hin | reflexivity].
Qed.

Lemma byte_of_ascii_zero c : byte_of_ascii c = 0 <-> c = "000"%char.
Proof.
  unfold byte_of_ascii. split; [|intros ->; reflexivity].
  intros Hz. rewrite <- (ascii_nat_embedding c). replace (nat_of_ascii c) with 0%nat by lia.
  reflexivity.
Qed.

Lemma length_list_ascii_of_string s : length (list_ascii_of_string s) = String.length s.
Proof. induction s as [|c s IH]; simpl; auto. Qed.

(** The 16 version bytes hold a NUL exactly when the driver's string is
    shorter than 16 characters or holds a NUL among its first 16. *)
Lemma version_bytes_nul rp :
  In 0 (version_bytes rp) <->
  (String.length (rp_str rp) < 16)%nat \/ In "000"%char (take 16 (list_ascii_of_string (rp_str rp))).
Proof.
  unfold version_bytes. rewrite <- length_list_ascii_of_string.
  set (l := list_ascii_of_string (rp_str rp)).
  destruct (Nat.lt_ge_cases (length l) 16) as [Hs|Hs].
  - split; [auto|intros _].
    rewrite take_app, length_map. apply in_or_app. right.
    apply list_elem_of_In, elem_of_take. exists 0%nat.
    replace (16 - length l)%nat with (S (15 - length l)) by lia. simpl. split; [reflexivity | lia].
  - rewrite take_app_le by (rewrite length_map; lia). rewrite firstn_map.
    split.
    + intros Hin. right. apply in_map_iff in Hin as (c & Hc & Hin).
      apply byte_of_ascii_zero in Hc. subst c. exact Hin.
    + intros [?|Hin]; [lia|]. apply in_map_iff. exists "000"%char. split; [reflexivity | exact Hin].
Qed.

(** ** Runs of [main] on an adapter that answers its signature *)

Section Runs.
Context `{AxConfig} {D : Type} `{Backend D}.
Hypothesis Hmax : (0 < SCAN_DEV_MAX_RETRY)%nat.
Hypothesis Hans : answers_signature (D := D).
Hypothesis Hif : forall d : D, NET_INTERFACE = INTERFACE_SCAN -> be_ifaddrs d <> [].

Abbreviation W := (world D).

Lemma scan_ok (w : W) :
  exists w', scan_ax_device w = (0, w') /\ w_dev w' = w_dev w /\ w_oob w' = w_oob w /\
             w_out w' = w_out w.
Proof.
  destruct (scan_honest w Hmax Hans (Hif (w_dev w))) as (w' & Hs & Hd & Ho).
  exists w'. split; [exact Hs|]. split; [exact Hd|]. split; [exact Ho|].
  pose proof (silent_scan w) as Hq. rewrite Hs in Hq. exact Hq.
Qed.

Definition banner : string := AX88179A_IOCTL_VERSION +:+ nl.

Lemma print_run {A} s (k : unit -> st W A) (w : W) : st_bind (print s) k w = k tt (snd (print s w)).
Proof. reflexivity. Qed.

(** Run the returns and prints at the front of a sequence and evaluate
    the exit-code arithmetic. *)
Ltac go := repeat first
  [ rewrite st_bind_assoc | rewrite st_bind_ret | rewrite print_run
  | progress cbn [code Z.eqb Z.ltb Z.compare Pos.compare Pos.eqb negb andb orb] ].

Lemma main_exit_success e' (w : W) :
  main_exit (Some 0, e') w = ((Some 0, e'), snd (print ("SUCCESS" +:+ nl) w)).
Proof. reflexivity. Qed.

Lemma main_exit_invalid e' (w : W) : main_exit (Some (-1), e') w = ((Some 1, e'), w).
Proof. reflexivity. Qed.

(** With a command and an adapter present, [main] prints the banner,
    scans, and runs the handler the table picks for [argv[1]]. *)
Lemma main_runs argv e i (w : W) :
  (2 <= length argv)%nat -> find_cmd (default "" (argv !! 1%nat)) = Some i ->
  exists w2, main argv e w = st_bind (dispatch i argv e) main_exit w2 /\
    w_dev w2 = w_dev w /\ w_oob w2 = w_oob w /\ w_out w2 = w_out w ++ [banner].
Proof.
  intros Hl Hf. unfold main. fold banner.
  set (w1 := snd (print banner w)).
  assert (E1 : print banner w = (tt, w1)) by reflexivity. run E1.
  rewrite (proj2 (Nat.ltb_ge _ _)) by exact Hl.
  destruct (scan_ok w1) as (w2 & E2 & D2 & O2 & Q2). run E2. rewrite Hf.
  exists w2. split; [reflexivity|]. split; [exact D2|]. split; [exact O2 | exact Q2].
Qed.

(** C15: [rmacaddr] prints the address the kernel reports and
    [SUCCESS]; when [SIOCGIFHWADDR] fails, [read_mac_address] hands back
    the [ioctl]'s [-1], which is [-FAIL_INVALID_PARAMETER]: the process
    exits with status 1, the invalid-parameter status, and prints
    neither the usage nor ["FAIL"]. *)
Theorem main_rmacaddr argv0 e rp (w : W) :
  (forall n d, fst (be_ioctl n SIOCGIFHWADDR d) = rp) -> (rp_ret rp < 0 -> rp_ret rp = -1) ->
  let '((r, e'), w') := main [argv0; "rmacaddr"%string] e w in
  e' = e /\
  (rp_ret rp < 0 -> r = Some (code FAIL_INVALID_PARAMETER) /\ w_out w' = w_out w ++ [banner]) /\
  (0 <= rp_ret rp -> r = Some 0 /\
     w_out w' = w_out w ++ [banner; mac_line (map u8 (take 6 (rp_data rp ++ repeat 0 6)));
                            ("SUCCESS" +:+ nl)%string]).
Proof.
  intros Hmac Hneg.
  destruct (main_runs [argv0; "rmacaddr"%string] e 2 w) as (w2 & -> & D2 & O2 & Q2);
    [simpl; lia | reflexivity|].
  unfold dispatch. cbn [length default lookup list_lookup]. st_norm.
  unfold readmac_func. cbn [negb Nat.eqb]. st_norm. unfold read_mac_address. st_norm.
  destruct (scan_ok w2) as (w3 & E3 & D3 & O3 & Q3). run E3.
  cbn [Z.ltb Z.compare]. st_norm.
  set (w4 := snd (do_ioctl SIOCGIFHWADDR w3)).
  assert (E4 : do_ioctl SIOCGIFHWADDR w3 = (rp, w4)).
  { subst w4. unfold do_ioctl. pose proof (Hmac (w_ifr w3) (w_dev w3)) as Hm.
    destruct (be_ioctl _ _ _). simpl in Hm. subst. reflexivity. }
  assert (Q4 : w_out w4 = w_out w ++ [banner]) by (subst w4; rewrite silent_ioctl, Q3, Q2; reflexivity).
  clearbody w4. run E4.
  destruct (Z.ltb_spec (rp_ret rp) 0) as [Hn|Hp].
  - rewrite (Hneg Hn). st_norm. unfold main_exit. cbn. split; [reflexivity|]. split; [|lia]. auto.
  - st_norm. unfold main_exit. cbn. split; [reflexivity|]. split; [lia|]. intros _. split; [reflexivity|].
    rewrite ?Q4. cbn [w_out]. rewrite ?Q4, <- !app_assoc. reflexivity.
Qed.

(** C16: [rversion] prints the firmware version up to its first NUL
    and [SUCCESS].  When the driver's string fills all 16 bytes of
    [version] without a NUL, [printf("%s")] reads past the array; the
    out-of-bounds read happens exactly then. *)
Theorem main_rversion argv0 e rp (w : W) :
  (forall n d, fst (be_ioctl n AX88179A_READ_VERSION d) = rp) -> 0 <= rp_ret rp ->
  let '((r, e'), w') := main [argv0; "rversion"%string] e w in
  r = Some 0 /\ e' = e /\
  w_out w' = w_out w ++ [banner; version_line (default (version_bytes rp) (c_string (version_bytes rp)));
                         ("SUCCESS" +:+ nl)%string] /\
  (w_oob w' = w_oob w \/ w_oob w' = w_oob w ++ ["printf(version)"%string]) /\
  (w_oob w' <> w_oob w <->
   (16 <= String.length (rp_str rp))%nat /\ ~ In "000"%char (take 16 (list_ascii_of_string (rp_str rp)))).
Proof.
  intros Hv Hr.
  destruct (main_runs [argv0; "rversion"%string] e 1 w) as (w2 & -> & D2 & O2 & Q2);
    [simpl; lia | reflexivity|].
  unfold dispatch. cbn [length default lookup list_lookup]. st_norm.
  unfold readversion_func. cbn [negb Nat.eqb]. st_norm. unfold read_version. st_norm.
  set (w3 := snd (do_ioctl AX88179A_READ_VERSION w2)).
  assert (E3 : do_ioctl AX88179A_READ_VERSION w2 = (rp, w3)).
  { subst w3. unfold do_ioctl. pose proof (Hv (w_ifr w2) (w_dev w2)) as Hm.
    destruct (be_ioctl _ _ _). simpl in Hm. subst. reflexivity. }
  assert (Q3 : w_out w3 = w_out w ++ [banner]) by (subst w3; rewrite silent_ioctl, Q2; reflexivity).
  assert (O3 : w_oob w3 = w_oob w) by (subst w3; unfold do_ioctl; destruct (be_ioctl _ _ _); exact O2).
  clearbody w3. run E3. rewrite (proj2 (Z.ltb_ge _ _)) by exact Hr. st_norm.
  pose proof (version_bytes_nul rp) as Hn. pose proof (c_string_none (version_bytes rp)) as Hc.
  destruct (c_string (version_bytes rp)) as [v|] eqn:Ec; go;
    [| unfold st_bind at 1, oob; cbn beta iota; go]; rewrite main_exit_success;
    cbn [w_out w_oob snd print]; rewrite ?Q3, ?O3, <- ?app_assoc; (split; [reflexivity|]);
    (split; [reflexivity|]); (split; [reflexivity|]).
  - assert (Hin : In 0 (version_bytes rp)).
    { destruct (in_dec Z.eq_dec 0 (version_bytes rp)) as [?|Hni]; [assumption|].
      apply Hc in Hni. discriminate. }
    apply Hn in Hin. split; [left; reflexivity|]. split; [intros Hne; exfalso; apply Hne; reflexivity|].
    intros [H16 Hno]. destruct Hin; [lia | tauto].
  - assert (Hni : ~ In 0 (version_bytes rp)) by (apply Hc; reflexivity).
    split; [right; reflexivity|]. split.
    + intros _. split; [|intros Hin; apply Hni, Hn; right; exact Hin].
      destruct (Nat.lt_ge_cases (String.length (rp_str rp)) 16) as [Hl|Hl]; [|exact Hl].
      exfalso. apply Hni, Hn. left. exact Hl.
    + intros _ Heq. apply (f_equal (@length string)) in Heq. rewrite length_app in Heq. simpl in Heq. lia.
Qed.

End Runs.

(** ** Witnesses *)

#[local] Existing Instance demo_config.

Definition fixed_version : string := "v1.2.3-build0042".
Definition fixed_mac : list Z := [0; 14; 198; 1; 2; 3].

(** An adapter that answers its signature, a 16-character firmware
    version and the address 00:0E:C6:01:02:03. *)
#[local] Instance fixed_adapter : Backend unit := {|
  be_ioctl n r d :=
    match r with
    | AX_SIGNATURE => (reply_ok AX88179A_DRV_NAME [], d)
    | AX88179A_READ_VERSION => (reply_ok fixed_version [], d)
    | SIOCGIFHWADDR => (reply_ok "" fixed_mac, d)
    | _ => (reply_fail, d)
    end;
  be_ifaddrs _ := ["eth0"%string];
  be_sleep _ d := d
|}.

Lemma fixed_answers : answers_signature (D := unit).
Proof. intros n d. eexists. split; [reflexivity|]. split; [cbn; lia | apply prefix_refl]. Qed.

Definition fixed_world : world unit := mk_world tt "" [] [] [] [].
Definition no_files : env := mk_env (fun _ => None) (fun _ => true) 100000 0.

Lemma mac_text_roundtrip_witness :
  sscanf_mac (string_of_list_ascii (mac_text fixed_mac)) [0; 0; 0; 0; 0; 0] = (6, fixed_mac).
Proof. apply mac_text_roundtrip; [reflexivity | | reflexivity]. repeat constructor; cbv; discriminate. Defined.

Lemma main_rmacaddr_witness :
  let '((r, e'), w') := main ["prog"; "rmacaddr"]%string no_files fixed_world in
  e' = no_files /\
  (rp_ret (reply_ok "" fixed_mac) < 0 ->
   r = Some (code FAIL_INVALID_PARAMETER) /\ w_out w' = w_out fixed_world ++ [banner]) /\
  (0 <= rp_ret (reply_ok "" fixed_mac) -> r = Some 0 /\
     w_out w' = w_out fixed_world ++
       [banner; mac_line (map u8 (take 6 (rp_data (reply_ok "" fixed_mac) ++ repeat 0 6)));
        ("SUCCESS" +:+ nl)%string]).
Proof.
  apply (@main_rmacaddr demo_config unit fixed_adapter ltac:(cbv; lia) fixed_answers ltac:(intros; discriminate)
           "prog" no_files (reply_ok "" fixed_mac) fixed_world).
  - intros; reflexivity.
  - cbv; discriminate.
Defined.

Lemma main_rversion_witness :
  let '((r, e'), w') := main ["prog"; "rversion"]%string no_files fixed_world in
  r = Some 0 /\ e' = no_files /\
  w_out w' = w_out fixed_world ++
    [banner; version_line (default (version_bytes (reply_ok fixed_version []))
                                   (c_string (version_bytes (reply_ok fixed_version []))));
     ("SUCCESS" +:+ nl)%string] /\
  (w_oob w' = w_oob fixed_world \/ w_oob w' = w_oob fixed_world ++ ["printf(version)"%string]) /\
  (w_oob w' <> w_oob fixed_world <->
   (16 <= String.length (rp_str (reply_ok fixed_version [])))%nat /\
   ~ In "000"%char (take 16 (list_ascii_of_string (rp_str (reply_ok fixed_version []))))).
Proof.
  apply (@main_rversion demo_config unit fixed_adapter ltac:(cbv; lia) fixed_answers ltac:(intros; discriminate)
           "prog" no_files (reply_ok fixed_version []) fixed_world).
  - intros; reflexivity.
  - cbv; discriminate.
Defined.

(** A 16-character version string: [printf] reads past [version]. *)
Example rversion_overread :
  w_oob (snd (main ["prog"; "rversion"]%string no_files fixed_world)) = ["printf(version)"%string].
Proof. vm_compute. reflexivity. Qed.

(** On an adapter whose driver does not answer [SIOCGIFHWADDR],
    [rmacaddr] exits with status 1, the status of an invalid parameter,
    without the usage text and without ["FAIL"]. *)
Example rmacaddr_ioctl_fail :
  let '((r, _), w') := main ["prog"; "rmacaddr"]%string no_files efuse_world in
  r = Some 1 /\ w_out w' = [banner].
Proof. vm_compute. split; reflexivity. Qed.

(** [wefuse -f file -m]: [getopt] hands [-m] the [NULL] of [argv[argc]]
    and [sscanf] crashes. *)
Example wefuse_missing_mac_crashes :
  fst (fst (main ["prog"; "wefuse"; "-f"; "x.txt"; "-m"]%string no_files efuse_world)) = None.
Proof. vm_compute. reflexivity. Qed.

(** An unknown command shows the usage and exits with status 0. *)
Example unknown_command_succeeds :
  fst (fst (main ["prog"; "flash"]%string no_files efuse_world)) = Some 0.
Proof. vm_compute. reflexivity. Qed.
