(* ===== verification/ExitStatus.v ===== *)
(** * The value [main] returns

    [main] returns [-exit_code], and the shell sees it modulo 256.  The
    handlers store codes of both signs: most store a negated [enum
    _exit_code], [writeflash_func] stores [-ret] of a negative [ret],
    and [exit_code = -PRINT_LOAD_FILE_FAIL] stores minus a character
    count.  This file bounds every value each handler can leave, given
    the contract of [ioctl(2)] (a failing call returns [-1]), and
    concludes that [main] returns a value in [-3 .. 99], negative only
    for [wflash].

    The class [RetIn P c] says that every run of [c] returns a value
    satisfying [P]; its lemmas compose along the code. *)

From Stdlib Require Import ZArith Lia String Ascii.
From stdpp Require Import base list decidable.
From S2P Require Import Prelude Checksum EfuseMerge Device Flash EfuseEdit EfuseText EfuseProg Commands.

Open Scope Z_scope.
Open Scope ax_scope.

(** The status the parent sees when [main] returns [r]: its low eight
    bits ([WEXITSTATUS]), so [return -exit_code] of a positive
    [exit_code] reaches the shell as [256 - exit_code]. *)
Definition exit_status (r : Z) : Z := Z.land r 255.

(** ** Codes of the pure parts *)

Lemma merge_loop_ret n i j dump file pb :
  -8 <= fst (fst (merge_loop n i j dump file pb)) <= 0.
Proof.
  revert i j dump pb. induction n as [|n IH]; intros i j dump pb; simpl; [lia|].
  destruct (_ =? _); [simpl; lia|].
  destruct (Z.ltb_spec (check_efuse_block_valid (efuse_at file i)) 0); [|apply IH].
  simpl. pose proof (check_cases (efuse_at file i)). lia.
Qed.

Lemma merge_ret_range dump file pb pi : -9 <= mr_ret (merge_efuse dump file pb pi) <= 0.
Proof.
  unfold merge_efuse. destruct (_ <? 0); [cbn; lia|].
  pose proof (merge_loop_ret (EFUSE_NUM_BLOCK - EFUSE_FIRST) EFUSE_FIRST
                (Z.to_nat (find_empty_block_index dump)) dump file 0) as Hr.
  destruct (merge_loop _ _ _ _ _ _) as [[ret d'] pb']. simpl in Hr.
  destruct (ret <? 0); cbn; lia.
Qed.

Lemma edits_ret a fe : -99 <= fst (apply_edits a fe) <= 0.
Proof.
  unfold apply_edits, change_mac_address, change_serial_number.
  repeat case_match; simplify_eq; cbn in *; lia.
Qed.

Lemma parse_wefuse_ret os mac a c d :
  parse_wefuse os mac a = Some (inl (c, d)) -> c = -! FAIL_IVALID_VALUE \/ c = -! FAIL_INVALID_PARAMETER.
Proof.
  revert mac a. induction os as [|[ch arg] os IH]; intros mac a; simpl; [discriminate|].
  repeat case_match; intros E; simplify_eq; eauto.
Qed.

Lemma parse_refuse_ret os f c :
  parse_refuse os f = inl c -> c = -! FAIL_INVALID_PARAMETER.
Proof.
  revert f. induction os as [|[ch arg] os IH]; intros f; simpl; [discriminate|].
  destruct (ch =? "f")%char; [apply IH | intros [= <-]; reflexivity].
Qed.

(** ** Returned values *)

Section RetIn.
Context `{AxConfig} {D : Type} `{Backend D}.

Abbreviation M := (st (world D)).

Class RetIn {A} (P : A -> Prop) (c : M A) : Prop :=
  ret_in : forall w, P (fst (c w)).

Lemma ri_ret {A} (P : A -> Prop) x : P x -> RetIn P (st_ret x).
Proof. intros Hx w. exact Hx. Qed.

Lemma ri_bind {A B} (Q : A -> Prop) (P : B -> Prop) (c : M A) (k : A -> M B) :
  RetIn Q c -> (forall x, Q x -> RetIn P (k x)) -> RetIn P (st_bind c k).
Proof.
  intros Hc Hk w. unfold st_bind. specialize (Hc w).
  destruct (c w) as [x w1]. apply Hk, Hc.
Qed.

Lemma ri_if {A} (P : A -> Prop) (b : bool) c1 c2 :
  RetIn P c1 -> RetIn P c2 -> RetIn P (if b then c1 else c2).
Proof. destruct b; auto. Qed.

Lemma ri_any {A} (c : M A) : RetIn (fun _ => True) c.
Proof. intros w. exact I. Qed.

Lemma ri_weaken {A} (P Q : A -> Prop) (c : M A) : RetIn P c -> (forall x, P x -> Q x) -> RetIn Q c.
Proof. intros Hc HPQ w. apply HPQ, Hc. Qed.

(** A step whose result does not matter. *)
Lemma ri_seq {A B} (P : B -> Prop) (c : M A) (k : A -> M B) :
  (forall x, RetIn P (k x)) -> RetIn P (st_bind c k).
Proof. intros Hk. apply (ri_bind (fun _ => True)); [apply ri_any | auto]. Qed.

(** Skip the diagnostics printed before a [return]. *)
Ltac ri_close :=
  repeat lazymatch goal with |- RetIn _ (st_bind _ _) => apply ri_seq; intros _ end;
  apply ri_ret.

Lemma ri_scan : RetIn (fun r => r = 0 \/ r = -! FAIL_SCAN_DEV) scan_ax_device.
Proof.
  intros w. unfold scan_ax_device. pose proof (scan_rounds_log SCAN_DEV_MAX_RETRY w) as Hs.
  destruct (scan_rounds _ w) as [r w']. destruct Hs as (evs & _ & _ & _ & [[-> _]|[-> _]]); auto.
Qed.

Lemma ri_help s : RetIn (fun h => h = None \/ h = Some (-! FAIL_INVALID_PARAMETER)) (show_cmd_help s).
Proof.
  unfold show_cmd_help. destruct (lookup_cmd s); [apply ri_seq; intros _|]; apply ri_ret; auto.
Qed.

Lemma ri_help_if (b : bool) s :
  RetIn (fun h => h = None \/ h = Some (-! FAIL_INVALID_PARAMETER))
        (if b then show_cmd_help s else st_ret None).
Proof. apply ri_if; [apply ri_help | apply ri_ret; auto]. Qed.

(** [ioctl(2)] fails only with [-1]. *)
Hypothesis ioctl_fails_minus_one :
  forall n r d, rp_ret (fst (be_ioctl n r d)) < 0 -> rp_ret (fst (be_ioctl n r d)) = -1.

Lemma ri_ioctl r : RetIn (fun rp => rp_ret rp < 0 -> rp_ret rp = -1) (do_ioctl r).
Proof.
  intros w. unfold do_ioctl. pose proof (ioctl_fails_minus_one (w_ifr w) r (w_dev w)) as Hc.
  destruct (be_ioctl _ _ _). exact Hc.
Qed.

(** ** The eFuse handlers *)

Lemma ri_dump_loop n i e : RetIn (fun p : Z * list block => fst p = 0 \/ fst p = -2) (dump_loop n i e).
Proof.
  revert i e. induction n as [|n IH]; intros i e; simpl; [ri_close; auto|].
  apply ri_seq; intros rp. apply ri_if; [ri_close; cbn; auto|]. apply ri_seq; intros _. apply IH.
Qed.

Lemma ri_dump e off num : RetIn (fun p : Z * list block => -7 <= fst p <= 0) (__dump_efuse e off num).
Proof.
  unfold __dump_efuse. apply ri_if; [ri_close; cbn; lia|]. apply ri_seq; intros ret.
  apply ri_if; [ri_close; cbn; lia|].
  eapply ri_weaken; [apply ri_dump_loop | intros p Hp; cbn beta in *; lia].
Qed.

Lemma ri_program_loop n i e : RetIn (fun r => r = 0 \/ r = -2) (program_loop n i e).
Proof.
  revert i. induction n as [|n IH]; intros i; simpl; [ri_close; auto|].
  apply ri_seq; intros rp. apply ri_if; [ri_close; cbn; auto | apply IH].
Qed.

Lemma ri_program_block e off num : RetIn (fun r => -7 <= r <= 0) (__program_efuse_block e off num).
Proof.
  unfold __program_efuse_block. apply ri_if; [ri_close; cbn; lia|]. apply ri_seq; intros ret.
  apply ri_if; [ri_close; cbn; lia|].
  eapply ri_weaken; [apply ri_program_loop | intros r Hr; cbn beta in *; lia].
Qed.

Lemma ri_program_merged fe : RetIn (fun r => -10 <= r <= 0) (program_merged fe).
Proof.
  unfold program_merged. eapply ri_bind; [apply ri_dump|]. intros [ret d] Hd. cbn beta in Hd. cbn in Hd.
  apply ri_if; [ri_close; lia|]. apply ri_seq; intros _.
  cbv zeta. apply ri_seq; intros _.
  pose proof (merge_ret_range d fe 0 0). apply ri_if; [ri_close; lia|]. apply ri_seq; intros _.
  eapply ri_bind; [apply ri_program_block|]. intros r Hr. cbn beta in Hr. apply ri_if; [ri_close; lia|].
  apply ri_seq; intros _. eapply ri_bind; [apply ri_dump|]. intros [ret' d'] Hd'. cbn beta in Hd'. cbn in Hd'.
  apply ri_if; [ri_close; lia|]. apply ri_if; ri_close; cbn; lia.
Qed.

Lemma ri_writeefuse os files heap junk :
  RetIn (fun o => forall c, o = Some c -> -99 <= c <= 0) (writeefuse_func os files heap junk).
Proof.
  unfold writeefuse_func. destruct (parse_wefuse _ _ _) as [[[c d]|a]|] eqn:Hp.
  - ri_close. intros c' [= <-]. apply parse_wefuse_ret in Hp. destruct Hp as [->| ->]; cbn; lia.
  - eapply ri_bind; [|intros r Hr; ri_close; intros c [= <-]; exact Hr].
    unfold writeefuse_body.
    apply (ri_bind (fun h => h = None \/ h = Some (-! FAIL_INVALID_PARAMETER)));
      [destruct (wa_file a); [ri_close; auto | apply ri_help]|]. intros h Hh.
    destruct h as [c|]; [ri_close; destruct Hh as [|[= Hc]]; [discriminate | subst c; cbn; lia]|].
    apply ri_if; [ri_close; cbn; lia|]. cbv zeta. apply ri_seq; intros _.
    destruct (load_efuse_from_file _ _ _) as [r data].
    apply ri_if; [ri_close; replace PRINT_LOAD_FILE_FAIL_writeefuse with 35 by reflexivity; lia|].
    do 2 (apply ri_seq; intros _).
    pose proof (edits_ret a (blocks_of data EFUSE_HALF)) as He.
    destruct (apply_edits _ _) as [ret fe]. cbn in He.
    apply ri_if; [ri_close; lia|]. apply ri_seq; intros _.
    eapply ri_weaken; [apply ri_program_merged | intros r' Hr'; cbn beta in *; lia].
  - ri_close. discriminate.
Qed.

Lemma ri_readefuse os cw heap :
  RetIn (fun p : Z * option (string * list ascii) => -7 <= fst p <= 0) (readefuse_func os cw heap).
Proof.
  unfold readefuse_func. destruct (parse_refuse os None) as [c|file] eqn:Hp.
  - ri_close. apply parse_refuse_ret in Hp. subst c. cbn. lia.
  - apply (ri_bind (fun h => h = None \/ h = Some (-! FAIL_INVALID_PARAMETER)));
      [destruct file; [ri_close; auto | apply ri_help]|]. intros h Hh.
    destruct h as [c|]; [ri_close; destruct Hh as [|[= Hc]]; [discriminate | subst c; cbn; lia]|].
    apply ri_if; [ri_close; cbn; lia|].
    eapply ri_bind; [apply ri_dump|]. intros [ret d] Hd. cbn beta in Hd. cbn in Hd.
    apply ri_if; [ri_close; cbn; lia|].
    destruct file as [f|]; [destruct (cw f)|]; ri_close; cbn; lia.
Qed.

(** ** The flash handler *)

Lemma ri_write_flash data off len : RetIn (fun r => r = 0 \/ r = -1) (write_flash data off len).
Proof.
  unfold write_flash. apply ri_seq; intros _. eapply ri_bind; [apply ri_ioctl|]. intros rp Hrp.
  destruct (Z.ltb_spec (rp_ret rp) 0) as [Hn|Hn]; ri_close; [right; apply Hrp, Hn | left; reflexivity].
Qed.

Lemma ri_read_flash data off len :
  RetIn (fun p : Z * list Z => fst p = 0 \/ fst p = -2) (read_flash data off len).
Proof.
  unfold read_flash. apply ri_seq; intros rp. apply ri_seq; intros d.
  apply ri_if; ri_close; cbn; auto.
Qed.

Lemma ri_erase : RetIn (fun r => r = 0 \/ r = -2) erase_flash.
Proof. unfold erase_flash. apply ri_seq; intros rp. apply ri_if; ri_close; cbn; auto. Qed.

Lemma ri_flash_fail c : RetIn (fun r => r = c) (flash_fail c).
Proof. unfold flash_fail. apply ri_seq; intros _. apply ri_ret. reflexivity. Qed.

(** The [fail:] label with a code in range. *)
Ltac ri_fail :=
  repeat lazymatch goal with |- RetIn _ (st_bind _ _) => apply ri_seq; intros _ end;
  eapply ri_weaken; [apply ri_flash_fail | intros ? ->; cbn; lia].

Lemma ri_program_image wbuf rbuf size : RetIn (fun r => -6 <= r <= 2) (program_image wbuf rbuf size).
Proof.
  unfold program_image. cbv zeta. do 4 (apply ri_seq; intros ?).
  eapply ri_bind; [apply ri_write_flash|]. intros ret Hret. cbn beta in Hret.
  apply ri_if; [ri_fail|].
  eapply ri_bind; [apply ri_read_flash|]. intros [ret2 rb] H2. cbn beta in H2. cbn in H2.
  apply ri_if; [ri_fail|]. apply ri_seq; intros same. apply ri_if; [ri_fail|].
  eapply ri_bind; [apply ri_write_flash|]. intros ret3 H3. cbn beta in H3.
  apply ri_if; [ri_fail|].
  eapply ri_bind; [apply ri_read_flash|]. intros [ret4 rb4] H4. cbn beta in H4. cbn in H4.
  apply ri_if; [ri_fail|]. apply ri_seq; intros same2. apply ri_if; [ri_fail | apply ri_ret; cbn; lia].
Qed.

Lemma ri_writeflash a argc path file heap :
  RetIn (fun r => -35 <= r <= 3) (writeflash_func a argc path file heap).
Proof.
  unfold writeflash_func. eapply ri_bind; [apply ri_help_if|]. intros h Hh.
  destruct h as [c|]; [apply ri_ret; destruct Hh as [|[= Hc]]; [discriminate | subst c; cbn; lia]|].
  apply ri_seq; intros _. apply ri_seq; intros _.
  eapply ri_bind; [apply ri_scan|]. intros ret Hs. cbn beta in Hs.
  apply ri_if; [ri_close; destruct Hs as [-> | ->]; cbn; lia|].
  eapply ri_bind; [apply ri_erase|]. intros ret2 He. cbn beta in He.
  apply ri_if; [apply ri_ret; lia|].
  destruct file as [contents|]; [|ri_fail].
  cbv zeta. replace PRINT_LOAD_FILE_FAIL_writeflash with 35 by reflexivity.
  repeat (apply ri_if; [ri_fail|]).
  eapply ri_weaken; [apply ri_program_image | intros; cbn beta in *; lia].
Qed.

(** ** The small handlers *)

(** The help branch of a handler: its [-FAIL_INVALID_PARAMETER] is in
    any range that holds [-1]. *)
Ltac ri_help_branch :=
  eapply ri_bind; [apply ri_help_if|]; intros [c|] Hh;
  [apply ri_ret; destruct Hh as [|[= Hc]]; [discriminate | subst c; cbn; lia]|].

Lemma ri_read_version v : RetIn (fun p : Z * list Z => fst p = 0 \/ fst p = -2) (read_version v).
Proof. unfold read_version. apply ri_seq; intros rp. apply ri_if; ri_close; cbn; auto. Qed.

Lemma ri_readversion a argc : RetIn (fun r => -2 <= r <= 0) (readversion_func a argc).
Proof.
  unfold readversion_func. ri_help_branch.
  eapply ri_bind; [apply ri_read_version|]. intros [ret v] Hr. cbn beta in Hr. cbn in Hr.
  apply ri_seq; intros _. apply ri_ret. lia.
Qed.

Lemma ri_readmac a argc : RetIn (fun r => -3 <= r <= 0) (readmac_func a argc).
Proof.
  unfold readmac_func. ri_help_branch.
  apply (ri_bind (fun p : Z * list Z => -3 <= fst p <= 0)).
  - unfold read_mac_address. eapply ri_bind; [apply ri_scan|]. intros ret Hs. cbn beta in Hs.
    apply ri_if; [ri_close; destruct Hs as [-> | ->]; cbn; lia|].
    eapply ri_bind; [apply ri_ioctl|]. intros rp Hrp.
    destruct (Z.ltb_spec (rp_ret rp) 0) as [Hn|Hn]; ri_close; cbn; [rewrite (Hrp Hn); lia | lia].
  - intros [ret mac] Hr. cbn in Hr. apply ri_seq; intros _. apply ri_ret. exact Hr.
Qed.

Lemma ri_reload a argc : RetIn (fun r => -3 <= r <= 0) (reload_func a argc).
Proof.
  unfold reload_func. ri_help_branch.
  apply ri_seq; intros ret. apply ri_if; [ri_close; cbn; lia|].
  apply ri_seq; intros _. apply ri_seq; intros ret'. apply ri_if; ri_close; cbn; lia.
Qed.

(** ** [main] *)

(** What a handler leaves in [exit_code]: [-FAIL_NONE] (untouched) or a
    value in [-99 .. 3], positive only for [wflash]. *)
Definition handler_ok (i : nat) (p : option Z * env) : Prop :=
  forall c, fst p = Some c -> (c = -! FAIL_NONE \/ -99 <= c <= 3) /\ (0 < c -> i = 3%nat).

Lemma ri_dispatch i argv e : RetIn (handler_ok i) (dispatch i argv e).
Proof.
  unfold dispatch, handler_ok.
  destruct i as [|[|[|[|[|[|i]]]]]].
  - eapply ri_bind; [unfold help_func; destruct (argv !! 2%nat); [apply ri_help | apply ri_ret; auto]|].
    intros h Hh. apply ri_ret. intros c Hc. cbn in Hc. injection Hc as <-.
    destruct Hh as [-> | ->]; cbn; lia.
  - eapply ri_bind; [apply ri_readversion|]. intros r Hr. apply ri_ret. intros c [= <-]. cbn beta in Hr. lia.
  - eapply ri_bind; [apply ri_readmac|]. intros r Hr. apply ri_ret. intros c [= <-]. cbn beta in Hr. lia.
  - eapply ri_bind; [apply ri_writeflash|]. intros r Hr. apply ri_ret. intros c [= <-]. cbn beta in Hr. lia.
  - eapply ri_bind; [apply ri_writeefuse|]. intros r Hr. apply ri_ret. intros c Hc. cbn in Hc.
    specialize (Hr c Hc). lia.
  - eapply ri_bind; [apply ri_readefuse|]. intros [r out] Hr. cbn beta in Hr. cbn in Hr.
    apply ri_ret. intros c [= <-]. lia.
  - eapply ri_bind; [apply ri_reload|]. intros r Hr. apply ri_ret. intros c [= <-]. cbn beta in Hr. lia.
Qed.

Definition main_ok (argv : list string) (p : option Z * env) : Prop :=
  forall c, fst p = Some c -> -3 <= c <= 99 /\ (c < 0 -> find_cmd (default ""%string (argv !! 1%nat)) = Some 3%nat).

Lemma ri_main_exit argv i p :
  find_cmd (default ""%string (argv !! 1%nat)) = Some i -> handler_ok i p -> RetIn (main_ok argv) (main_exit p).
Proof.
  intros Hf Hok. destruct p as [[ec|] e']; unfold main_exit; [|apply ri_ret; discriminate].
  destruct (Hok ec eq_refl) as [Hr Hpos].
  destruct (Z.eqb_spec ec (-! FAIL_NONE)) as [E|E].
  - apply ri_seq; intros _. apply ri_ret. intros c [= <-]. cbn. lia.
  - apply ri_seq; intros _. apply ri_ret. intros c [= <-].
    cbn in Hr, E. split; [lia|]. intros Hn. rewrite Hf. f_equal. apply Hpos. lia.
Qed.

Lemma ri_main argv e : RetIn (main_ok argv) (main argv e).
Proof.
  unfold main. apply ri_seq; intros _.
  apply ri_if; [apply ri_seq; intros _; apply ri_ret; intros c [= <-]; cbn; lia|].
  apply ri_seq; intros ret. apply ri_if; [apply ri_seq; intros _; apply ri_ret; intros c [= <-]; cbn; lia|].
  destruct (find_cmd _) as [i|] eqn:Hf.
  - eapply ri_bind; [apply ri_dispatch|]. intros p Hp. eapply ri_main_exit; eauto.
  - apply (ri_bind (fun p => p = (Some (-! FAIL_NONE), e))); [apply ri_ret; reflexivity|].
    intros p ->. unfold main_exit. cbn. apply ri_seq; intros _.
    apply ri_ret. intros c Hc. injection Hc as Hc. subst c. lia.
Qed.

(** C5: whatever the arguments, the files and the device's answers
    (with [ioctl] failing only with [-1]), [main] either crashes in the
    option loop of [wefuse] or returns a value in [-3 .. 99]; a negative
    value comes only from [wflash], and the shell sees it as an exit
    status of 253..255. *)
Theorem main_return_bounds argv e (w : world D) c :
  fst (fst (main argv e w)) = Some c ->
  -3 <= c <= 99 /\
  (c < 0 -> find_cmd (default ""%string (argv !! 1%nat)) = Some 3%nat /\ 253 <= exit_status c <= 255).
Proof.
  intros Hc. destruct (ri_main argv e w c Hc) as [Hb Hn]. split; [exact Hb|].
  intros Hneg. split; [exact (Hn Hneg)|].
  assert (c = -3 \/ c = -2 \/ c = -1) as [-> | [-> | ->]] by lia; vm_compute; split; discriminate.
Qed.

End RetIn.

(** ** Witnesses *)

#[local] Existing Instance demo_config.

Lemma mem_efuse_ioctl :
  forall n r d, rp_ret (fst (@be_ioctl _ mem_efuse n r d)) < 0 ->
                rp_ret (fst (@be_ioctl _ mem_efuse n r d)) = -1.
Proof. intros n r d. destruct r; cbn; repeat case_match; cbn; lia. Qed.

(** [wflash] on an adapter that refuses to erase: [exit_code = -ret]
    is [2] and [main] returns [-2], status 254. *)
Lemma main_return_bounds_witness :
  fst (fst (main ["prog"; "wflash"; "fw.bin"]%string no_files efuse_world)) = Some (-2) /\
  -3 <= -2 <= 99 /\
  (-2 < 0 -> find_cmd (default ""%string (["prog"; "wflash"; "fw.bin"]%string !! 1%nat)) = Some 3%nat /\
             253 <= exit_status (-2) <= 255).
Proof.
  assert (H : fst (fst (main ["prog"; "wflash"; "fw.bin"]%string no_files efuse_world)) = Some (-2))
    by (vm_compute; reflexivity).
  split; [exact H|]. exact (main_return_bounds mem_efuse_ioctl _ _ _ _ H).
Defined.
