(* ===== verification/EfuseInvariant.v ===== *)
(** * The eFuse array across runs of the tool

    The eFuse array is one-time programmable: a burn can only set bits.
    The tool keeps it in a shape the merge relies on: the reserved
    blocks 0..4 as shipped, then a prefix of blocks that pass
    [check_efuse_block_valid], then blank blocks ([chip_inv]).  This
    file proves that no run of [main], whatever its arguments, files and
    the device's answers, breaks that shape, so that every state
    reachable by a sequence of runs keeps it ([tool_step], [rtc]).

    The device is an interface: the class [OtpEfuse] states what the
    driver and the chip promise (a successful dump reads the chip's
    block, a successful burn ORs the data into one of the 32 blocks, a
    failed burn changes nothing, other requests and sleeps leave the
    array alone).  The memory device [mem_efuse] is an instance. *)

From Stdlib Require Import ZArith Lia String Ascii.
From stdpp Require Import base numbers list decidable relations.
From S2P Require Import Prelude Checksum EfuseMerge Device Flash EfuseEdit EfuseText EfuseProg Commands ExitStatus.

Open Scope Z_scope.
Open Scope ax_scope.

(** ** The interface *)

Class OtpEfuse (D : Type) `{Backend D} := {
  otp_chip : D -> list block;
  otp_keep n r d : is_program r = false -> otp_chip (snd (be_ioctl n r d)) = otp_chip d;
  otp_dump n i d :
    0 <= rp_ret (fst (be_ioctl n (AX88179A_DUMP_EFUSE i) d)) ->
    rp_data (fst (be_ioctl n (AX88179A_DUMP_EFUSE i) d)) = efuse_at (otp_chip d) (Z.to_nat i);
  otp_burn n i b d :
    0 <= rp_ret (fst (be_ioctl n (AX88179A_PROGRAM_EFUSE i b) d)) ->
    0 <= i < Z.of_nat EFUSE_NUM_BLOCK /\
    otp_chip (snd (be_ioctl n (AX88179A_PROGRAM_EFUSE i b) d)) =
      <[Z.to_nat i := zip_with Z.lor (efuse_at (otp_chip d) (Z.to_nat i)) b]> (otp_chip d);
  otp_burn_fail n i b d :
    rp_ret (fst (be_ioctl n (AX88179A_PROGRAM_EFUSE i b) d)) < 0 ->
    otp_chip (snd (be_ioctl n (AX88179A_PROGRAM_EFUSE i b) d)) = otp_chip d;
  otp_sleep us d : otp_chip (be_sleep us d) = otp_chip d
}.

(** ** The shape of the array *)

(** Blocks [5 .. m) pass the check, blocks [m .. 32) are blank. *)
Definition burnt_prefix (c : list block) (m : nat) : Prop :=
  (EFUSE_FIRST <= m <= EFUSE_NUM_BLOCK)%nat /\
  (forall k, (EFUSE_FIRST <= k < m)%nat -> block_valid (efuse_at c k) = true) /\
  (forall k, (m <= k < EFUSE_NUM_BLOCK)%nat -> efuse_at c k = zero_block).

(** The array of 32 blocks of 20 bytes, burnt up to the mark [m], that
    starts with [kept]: blocks before the mark, which no burn may touch
    (the reserved blocks 0..4 and blocks burnt earlier). *)
Definition chip_at (kept c : list block) (m : nat) : Prop :=
  length c = EFUSE_NUM_BLOCK /\ sized c /\ take (length kept) c = kept /\ (length kept <= m)%nat /\
  burnt_prefix c m.

Definition chip_inv (kept c : list block) : Prop := exists m, chip_at kept c m.

(** [burnt_prefix] as a test. *)
Definition burnt_prefixb (c : list block) (m : nat) : bool :=
  (EFUSE_FIRST <=? m)%nat && (m <=? EFUSE_NUM_BLOCK)%nat &&
  forallb (fun k => block_valid (efuse_at c k)) (seq EFUSE_FIRST (m - EFUSE_FIRST)) &&
  forallb (fun k => bool_decide (@eq (list Z) (efuse_at c k) zero_block)) (seq m (EFUSE_NUM_BLOCK - m)).

(** ** Facts about the shape *)

(** [lia] with the sizes of the array unfolded. *)
Ltac elia := unfold EFUSE_FIRST, EFUSE_NUM_BLOCK, EF_DATA_STRUCT_SIZE, EFUSE_HALF in *; lia.

Lemma burnt_prefixb_spec c m : burnt_prefixb c m = true -> burnt_prefix c m.
Proof.
  unfold burnt_prefixb. rewrite !andb_true_iff, !forallb_forall, !Nat.leb_le.
  intros [[[H1 H2] Hv] Hz]. split; [lia|]. split.
  - intros k Hk. apply Hv, in_seq. lia.
  - intros k Hk. pose proof (Hz k ltac:(apply in_seq; lia)) as E. by apply bool_decide_eq_true in E.
Qed.

(** A valid block is never of the empty type [EF_TYPE_REV]. *)
Lemma valid_type b : block_valid b = true -> ef_type_of b <> 0.
Proof.
  unfold block_valid, check_efuse_block_valid, ef_type_of. cbn [ef_type_val].
  destruct (Z.eqb_spec (Z.land (blk b 0) 15) 0); [discriminate | auto].
Qed.

(** The high-water mark of a shaped array is its mark. *)
Lemma hwm_mark c m m' : burnt_prefix c m -> high_water_mark c = Some m' -> m' = m.
Proof.
  intros (Hm & Hv & Hz) Hh. pose proof (hwm_range c m' Hh).
  apply scan_type_some in Hh as [Ht Hlt].
  destruct (Nat.lt_total m' m) as [Hl|[Hl|Hl]]; [|exact Hl|].
  - exfalso. apply (valid_type (efuse_at c m')); [apply Hv; unfold EFUSE_FIRST, EFUSE_NUM_BLOCK in *; lia | exact Ht].
  - exfalso. apply (Hlt m); [unfold EFUSE_FIRST, EFUSE_NUM_BLOCK in *; lia|].
    rewrite Hz by (unfold EFUSE_NUM_BLOCK in *; lia). reflexivity.
Qed.

(** Burning a valid block at the mark moves the mark by one. *)
Lemma burn_extend kept c m b :
  chip_at kept c m -> (m < EFUSE_NUM_BLOCK)%nat -> block_valid b = true ->
  length b = EF_DATA_STRUCT_SIZE -> chip_at kept (<[m := b]> c) (S m).
Proof.
  intros (Hl & Hs & Ht & Hkm & H5 & Hv & Hz) Hm Hb Hlb.
  unfold chip_at, burnt_prefix. split_and!; try elia.
  - rewrite length_insert. exact Hl.
  - apply Forall_insert; assumption.
  - rewrite take_insert_ge by lia. exact Ht.
  - intros k Hk. destruct (Nat.eq_dec k m) as [->|].
    + rewrite efuse_at_insert_eq by lia. exact Hb.
    + rewrite efuse_at_insert_ne by lia. apply Hv. lia.
  - intros k Hk. rewrite efuse_at_insert_ne by lia. apply Hz. lia.
Qed.

Lemma chip_at_blank kept c m k :
  chip_at kept c m -> (m <= k < EFUSE_NUM_BLOCK)%nat -> efuse_at c k = zero_block.
Proof. intros (_ & _ & _ & _ & _ & _ & Hz). apply Hz. Qed.

Lemma chip_at_mark kept c m : chip_at kept c m -> (EFUSE_FIRST <= m <= EFUSE_NUM_BLOCK)%nat.
Proof. intros (_ & _ & _ & _ & Hm & _). exact Hm. Qed.

(** The blocks a merge stages at [m] are valid and 20 bytes long. *)
Lemma window_ok (d nb : list block) m k :
  (m + length nb <= length d)%nat -> Forall (fun b => block_valid b = true) nb -> sized nb ->
  (m <= k < m + length nb)%nat ->
  block_valid (efuse_at (write_range d m nb) k) = true /\
  length (efuse_at (write_range d m nb) k) = EF_DATA_STRUCT_SIZE.
Proof.
  intros Hl Hv Hs Hk. unfold efuse_at. rewrite nth_write_range_in by lia.
  assert (Hin : nth (k - m) nb zero_block ∈ nb) by (apply list_elem_of_In, nth_In; lia).
  unfold sized in Hs. rewrite Forall_forall in Hv, Hs. split; [apply Hv | apply Hs]; exact Hin.
Qed.

(** ** Actions that leave the array alone *)

Section Keeps.
Context `{AxConfig} {D : Type} `{OtpEfuse D}.

Abbreviation M := (st (world D)).

Definition chip (w : world D) : list block := otp_chip (w_dev w).

Class Keeps {A} (c : M A) : Prop := keeps : forall w, chip (snd (c w)) = chip w.

#[global] Instance keeps_ret {A} (x : A) : Keeps (st_ret x : M A).
Proof. intros w. reflexivity. Qed.

#[global] Instance keeps_bind {A B} (c : M A) (k : A -> M B) :
  Keeps c -> (forall x, Keeps (k x)) -> Keeps (st_bind c k).
Proof.
  intros Hc Hk w. unfold st_bind. specialize (Hc w). destruct (c w) as [x w1].
  rewrite Hk. exact Hc.
Qed.

#[global] Instance keeps_if {A} (b : bool) (c1 c2 : M A) :
  Keeps c1 -> Keeps c2 -> Keeps (if b then c1 else c2).
Proof. destruct b; auto. Qed.

Lemma keeps_ioctl r : is_program r = false -> Keeps (do_ioctl r).
Proof.
  intros Hr w. unfold do_ioctl, chip. pose proof (otp_keep (w_ifr w) r (w_dev w) Hr) as Hk.
  destruct (be_ioctl _ _ _). exact Hk.
Qed.

#[global] Instance keeps_usleep us : Keeps (usleep us : M unit).
Proof. intros w. apply otp_sleep. Qed.

#[global] Instance keeps_set_ifr n : Keeps (set_ifr n : M unit).
Proof. intros w. reflexivity. Qed.

#[global] Instance keeps_oob s : Keeps (oob s : M unit).
Proof. intros w. reflexivity. Qed.

#[global] Instance keeps_print s : Keeps (print s : M unit).
Proof. intros w. reflexivity. Qed.

#[global] Instance keeps_eprint s : Keeps (eprint s : M unit).
Proof. intros w. reflexivity. Qed.

#[global] Instance keeps_eprints l : Keeps (eprints l : M unit).
Proof. induction l; simpl; apply _. Qed.

Lemma keeps_run {A} (c : M A) w : Keeps c -> chip (snd (c w)) = chip w.
Proof. intros Hc. apply Hc. Qed.

Lemma keeps_bind_run {A B} (c : M A) (k : A -> M B) w :
  Keeps c -> exists x w', st_bind c k w = k x w' /\ chip w' = chip w.
Proof. intros Hc. unfold st_bind. specialize (Hc w). destruct (c w) as [x w']. eauto. Qed.

#[global] Instance keeps_dump_efuse_data e : Keeps (dump_efuse_data e : M unit).
Proof. unfold dump_efuse_data. destruct __DEBUG; [induction (debug_dump_lines e); simpl|]; apply _. Qed.

#[global] Instance keeps_candidates : Keeps (candidates : M (list string)).
Proof. intros w. reflexivity. Qed.

End Keeps.

#[global] Hint Extern 1 (Keeps (do_ioctl _)) => apply keeps_ioctl; reflexivity : typeclass_instances.

(** Run the first action [c] of [c ;; k] from [w], which it keeps:
    [w] becomes the state after it and [Hk : chip w = chip w0] still
    holds. *)
Ltac keep_skip w Hk :=
  lazymatch goal with |- context [st_bind ?c ?k w] =>
    let x := fresh "x" in let w' := fresh "w" in let Hk' := fresh "Hk" in
    destruct (keeps_bind_run c k w _) as (x & w' & -> & Hk'); rewrite Hk in Hk';
    clear Hk w; rename Hk' into Hk; rename w' into w; cbv beta
  end.

(** Take an action apart and close each piece from the instances. *)
Ltac keeps_tac :=
  repeat match goal with
  | |- Keeps (st_bind _ _) => apply keeps_bind; [|intros ?; cbv beta]
  | |- Keeps (if _ then _ else _) => apply keeps_if
  | |- Keeps (match ?x with _ => _ end) => destruct x
  | |- Keeps _ => apply _
  end.

Section KeepsHandlers.
Context `{AxConfig} {D : Type} `{OtpEfuse D}.

Abbreviation M := (st (world D)).

#[global] Instance keeps_report_ioctl_fail f l rp : Keeps (report_ioctl_fail f l rp : M unit).
Proof. unfold report_ioctl_fail. keeps_tac. Qed.

#[global] Instance keeps_probe names : Keeps (probe names : M bool).
Proof. induction names; simpl; keeps_tac. Qed.

#[global] Instance keeps_scan_rounds k : Keeps (scan_rounds k : M Z).
Proof. induction k; simpl; keeps_tac. Qed.

#[global] Instance keeps_scan : Keeps (scan_ax_device : M Z).
Proof. apply _. Qed.

#[global] Instance keeps_show_cmd_help s : Keeps (show_cmd_help s : M (option Z)).
Proof. unfold show_cmd_help. keeps_tac. Qed.

#[global] Instance keeps_show_usage : Keeps (show_usage : M unit).
Proof. unfold show_usage. keeps_tac. Qed.

#[global] Instance keeps_dump_loop n i e : Keeps (dump_loop n i e : M (Z * list block)).
Proof. revert i e. induction n; intros i e; simpl; keeps_tac. Qed.

#[global] Instance keeps_dump e off num : Keeps (__dump_efuse e off num : M (Z * list block)).
Proof. unfold __dump_efuse. keeps_tac. Qed.

#[global] Instance keeps_dump_from_chip e : Keeps (dump_efuse_from_chip e : M (Z * list block)).
Proof. apply keeps_dump. Qed.

#[global] Instance keeps_writeflash a argc path file heap :
  Keeps (writeflash_func a argc path file heap : M Z).
Proof.
  unfold writeflash_func, program_image, flash_fail, write_flash, read_flash, erase_flash,
    boot_to_rom, read_at, memcmp_at, copy_in.
  keeps_tac.
Qed.

#[global] Instance keeps_readefuse os cw heap :
  Keeps (readefuse_func os cw heap : M (Z * option (string * list ascii))).
Proof. unfold readefuse_func. keeps_tac. Qed.

#[global] Instance keeps_help_func a : Keeps (help_func a : M (option Z)).
Proof. unfold help_func. keeps_tac. Qed.

#[global] Instance keeps_readversion a argc : Keeps (readversion_func a argc : M Z).
Proof. unfold readversion_func, read_version. keeps_tac. Qed.

#[global] Instance keeps_readmac a argc : Keeps (readmac_func a argc : M Z).
Proof. unfold readmac_func, read_mac_address. keeps_tac. Qed.

#[global] Instance keeps_reload a argc : Keeps (reload_func a argc : M Z).
Proof. unfold reload_func, sw_reset. keeps_tac. Qed.

#[global] Instance keeps_main_exit p : Keeps (main_exit p : M (option Z * env)).
Proof. unfold main_exit. keeps_tac. Qed.

End KeepsHandlers.

(** ** Dumping and burning on an OTP device *)

Section Otp.
Context `{AxConfig} {D : Type} `{OtpEfuse D}.

Abbreviation W := (world D).

Lemma do_ioctl_eq r (w : W) :
  do_ioctl r w =
  (fst (be_ioctl (w_ifr w) r (w_dev w)),
   mk_world (snd (be_ioctl (w_ifr w) r (w_dev w))) (w_ifr w)
            (w_log w ++ [EvIoctl (w_ifr w) r (fst (be_ioctl (w_ifr w) r (w_dev w)))]) (w_oob w) (w_out w) (w_err w)).
Proof. unfold do_ioctl. destruct (be_ioctl _ _ _). reflexivity. Qed.

(** A failure branch that reports on stderr, then returns a negative code. *)
Ltac neg_branch :=
  let Hx := fresh in
  intros Hx; exfalso; revert Hx; unfold report_ioctl_fail, eprint, st_ret; repeat case_match; cbn; lia.

(** A dump that reports success has read the array. *)
Lemma dump_loop_otp n i e (w : W) :
  (i + n <= EFUSE_NUM_BLOCK)%nat -> (i + n <= length e)%nat -> sized e ->
  length (chip w) = EFUSE_NUM_BLOCK -> sized (chip w) ->
  0 <= fst (fst (dump_loop n i e w)) ->
  snd (fst (dump_loop n i e w)) = write_range e i (take n (drop i (chip w))).
Proof.
  revert i e w. induction n as [|n IH]; intros i e w Hn He Hs Hl Hc.
  - intros _. cbn. rewrite take_0, write_range_nil. reflexivity.
  - cbn [dump_loop]. unfold st_bind. rewrite do_ioctl_eq. cbn -[dump_loop].
    destruct (Z.ltb_spec (rp_ret (fst (be_ioctl (w_ifr w) (AX88179A_DUMP_EFUSE (Z.of_nat i)) (w_dev w)))) 0)
      as [Hr|Hr]; [neg_branch|].
    pose proof (otp_dump (w_ifr w) (Z.of_nat i) (w_dev w) Hr) as Hd. rewrite Nat2Z.id in Hd.
    change (otp_chip (w_dev w)) with (chip w) in Hd. rewrite Hd.
    rewrite fill_block_full by (apply sized_efuse_at; assumption).
    set (w2 := mk_world _ _ _ _ _ _).
    assert (Hc2 : chip w2 = chip w) by (unfold chip, w2; cbn; rewrite otp_sleep, otp_keep by reflexivity; reflexivity).
    intros Hpos. rewrite (IH (S i) _ w2); rewrite ?Hc2, ?length_insert; auto; try lia.
    + rewrite write_range_cons, (take_S_drop _ i n zero_block) by lia. reflexivity.
    + apply Forall_insert; [exact Hs | apply sized_efuse_at, Hc].
Qed.

Lemma dump_otp e (w : W) :
  (EFUSE_NUM_BLOCK <= length e)%nat -> sized e ->
  length (chip w) = EFUSE_NUM_BLOCK -> sized (chip w) ->
  0 <= fst (fst (dump_efuse_from_chip e w)) ->
  snd (fst (dump_efuse_from_chip e w)) = write_range e 0 (chip w).
Proof.
  intros He Hs Hl Hc. unfold dump_efuse_from_chip, __dump_efuse. cbn -[scan_ax_device dump_loop].
  unfold st_bind. pose proof (keeps_scan w) as Hk. destruct (scan_ax_device w) as [ret w1]. cbn in Hk.
  destruct (negb (ret =? 0)); [neg_branch|].
  intros Hr. rewrite dump_loop_otp; rewrite ?Hk; auto; try elia.
  rewrite drop_0, take_ge by elia. reflexivity.
Qed.

Section Burn.
Variable kept : list block.

(** Burning from the mark valid blocks keeps the shape, however far the
    loop gets before an [ioctl] fails. *)
Lemma program_loop_otp n i src (w : W) :
  chip_at kept (chip w) i -> (i + n <= EFUSE_NUM_BLOCK)%nat ->
  (forall k, (i <= k < i + n)%nat ->
     block_valid (efuse_at src k) = true /\ length (efuse_at src k) = EF_DATA_STRUCT_SIZE) ->
  chip_inv kept (chip (snd (program_loop n (Z.of_nat i) src w))).
Proof.
  revert i w. induction n as [|n IH]; intros i w Hi Hn Hsrc; [exists i; exact Hi|].
  cbn [program_loop]. unfold st_bind at 1. rewrite do_ioctl_eq, Nat2Z.id. cbn beta iota.
  set (rp := be_ioctl _ _ _). set (w1 := mk_world _ _ _ _ _ _).
  assert (Hc1 : chip w1 = otp_chip (snd rp)) by reflexivity.
  destruct (Z.ltb_spec (rp_ret (fst rp)) 0) as [Hr|Hr].
  - exists i. rewrite keeps_run by keeps_tac. rewrite Hc1. subst rp. rewrite otp_burn_fail by exact Hr. exact Hi.
  - destruct (otp_burn _ _ _ _ Hr) as [_ Hb]. fold rp in Hb. rewrite Nat2Z.id in Hb.
    change (otp_chip (w_dev w)) with (chip w) in Hb.
    destruct (Hsrc i) as [Hv Hlb]; [lia|].
    rewrite (chip_at_blank kept (chip w) i i Hi) in Hb by lia.
    unfold zero_block in Hb. rewrite <- Hlb, zip_lor_zero in Hb.
    replace (Z.of_nat i + 1) with (Z.of_nat (S i)) by lia.
    apply IH; [| lia | intros k Hk; apply Hsrc; lia].
    rewrite Hc1, Hb. apply burn_extend; auto. lia.
Qed.

Lemma program_block_otp d m len (w : W) :
  chip_at kept (chip w) m -> (len <= EFUSE_NUM_BLOCK)%nat ->
  (forall k, (m <= k < m + len)%nat ->
     block_valid (efuse_at d k) = true /\ length (efuse_at d k) = EF_DATA_STRUCT_SIZE) ->
  chip_inv kept (chip (snd (__program_efuse_block d (Z.of_nat m) (Z.of_nat len) w))).
Proof.
  intros Hm Hlen Hd. pose proof (chip_at_mark _ _ _ Hm).
  unfold __program_efuse_block. rewrite !to_int_id by elia.
  destruct (Z.ltb_spec (Z.of_nat EFUSE_NUM_BLOCK) (Z.of_nat m + Z.of_nat len));
    [exists m; rewrite keeps_run by keeps_tac; exact Hm|].
  unfold st_bind at 1. pose proof (keeps_scan w) as Hk. destruct (scan_ax_device w) as [ret w1]. cbn in Hk.
  destruct (negb (ret =? 0)); [exists m; rewrite keeps_run by keeps_tac; rewrite Hk; exact Hm|].
  replace (Z.to_nat (Z.of_nat m + Z.of_nat len - Z.of_nat m)) with len by lia.
  apply program_loop_otp; [rewrite Hk; exact Hm | lia | exact Hd].
Qed.

Lemma inv_keeps {A} (c : st W A) (w : W) :
  Keeps c -> chip_inv kept (chip w) -> chip_inv kept (chip (snd (c w))).
Proof. intros Hk Hw. rewrite Hk. exact Hw. Qed.

Lemma dump_chip_zeros (c : list block) :
  length c = EFUSE_NUM_BLOCK -> write_range (repeat zero_block EFUSE_HALF) 0 c = c ++ repeat zero_block 32.
Proof. intros Hl. unfold write_range. rewrite Hl. cbn [take app]. rewrite drop_repeat. reflexivity. Qed.

(** The merge and the burn: whatever the file holds and wherever the
    device fails, the array keeps its shape. *)
Lemma program_merged_otp fe (w : W) :
  sized fe -> chip_inv kept (chip w) -> chip_inv kept (chip (snd (program_merged fe w))).
Proof.
  intros Hfe [m Hm]. pose proof Hm as (Hl & Hs & _ & _ & Hb). pose proof (chip_at_mark _ _ _ Hm).
  unfold program_merged. unfold st_bind at 1.
  pose proof (dump_otp (repeat zero_block EFUSE_HALF) w) as Hd.
  pose proof (keeps_dump_from_chip (repeat zero_block EFUSE_HALF) w) as Hk1.
  destruct (dump_efuse_from_chip _ w) as [[r d] w1]. cbn [fst snd] in Hd, Hk1. cbv beta iota.
  destruct (Z.ltb_spec r 0); [exists m; unfold st_ret; cbn [snd]; rewrite Hk1; exact Hm|].
  specialize (Hd ltac:(rewrite repeat_length; elia) (sized_repeat_zero _) Hl Hs ltac:(lia)).
  rewrite dump_chip_zeros in Hd by exact Hl. subst d. set (d := chip w ++ repeat zero_block 32) in *.
  keep_skip w1 Hk1. cbv zeta. keep_skip w1 Hk1.
  assert (Hld : length d = EFUSE_HALF) by (subst d; rewrite length_app, repeat_length, Hl; reflexivity).
  pose proof (merge_ret_nonpos d fe 0 0 Hld).
  destruct (Z.ltb_spec (mr_ret (merge_efuse d fe 0 0)) 0);
    [exists m; unfold st_ret; cbn [snd]; rewrite Hk1; exact Hm|].
  destruct (merge_success d fe 0 0 Hld ltac:(lia)) as (m' & Hh & -> & -> & Hdump & Hv).
  subst d. rewrite hwm_app in Hh by exact Hl. apply (hwm_mark _ _ _ Hb) in Hh as ->.
  set (nb := file_new_blocks fe) in *.
  assert (Hnb : (length nb <= 27)%nat) by apply new_blocks_length.
  keep_skip w1 Hk1. unfold st_bind at 1.
  pose proof (program_block_otp (mr_dump (merge_efuse (chip w ++ repeat zero_block 32) fe 0 0)) m (length nb) w1)
    as Hp.
  destruct (__program_efuse_block _ _ _ w1) as [ret w2]. cbn [snd] in Hp |- *.
  apply inv_keeps; [keeps_tac|]. apply Hp; [rewrite Hk1; exact Hm | elia|].
  intros k Hk. rewrite Hdump. apply window_ok; [|exact Hv | apply sized_new_blocks, Hfe | exact Hk].
  rewrite length_app, repeat_length. elia.
Qed.

End Burn.

End Otp.

(** ** Every run of the tool keeps the shape *)

Section Runs.
Context `{AxConfig} {D : Type} `{OtpEfuse D}.
Variable kept : list block.

Abbreviation M := (st (world D)).

Class PresInv {A} (c : M A) : Prop :=
  pres_inv : forall w, chip_inv kept (chip w) -> chip_inv kept (chip (snd (c w))).

Lemma pres_keeps {A} (c : M A) : Keeps c -> PresInv c.
Proof. intros Hk w. apply inv_keeps, Hk. Qed.

Lemma pres_bind {A B} (c : M A) (k : A -> M B) :
  PresInv c -> (forall x, PresInv (k x)) -> PresInv (st_bind c k).
Proof.
  intros Hc Hk w Hw. unfold st_bind. specialize (Hc w Hw). destruct (c w) as [x w1]. apply Hk, Hc.
Qed.

Lemma pres_if {A} (b : bool) (c1 c2 : M A) : PresInv c1 -> PresInv c2 -> PresInv (if b then c1 else c2).
Proof. destruct b; auto. Qed.

Lemma pres_writeefuse_body a files heap junk :
  serial_ok a -> PresInv (writeefuse_body a files heap junk).
Proof.
  intros Ha. unfold writeefuse_body. apply pres_bind; [apply pres_keeps; keeps_tac | intros h].
  destruct h; [apply pres_keeps, _|]. destruct (heap <? _); [apply pres_keeps, _|].
  cbv zeta. apply pres_bind; [apply pres_keeps, _ | intros _].
  pose proof (load_efuse_length (match wa_file a with Some f => files f | None => None end) junk
                (repeat 0 (EF_DATA_STRUCT_SIZE * EFUSE_HALF))) as Hl.
  destruct (load_efuse_from_file _ _ _) as [r data]. cbn [snd] in Hl.
  destruct (negb (r =? 0)); [apply pres_keeps, _|].
  do 2 (apply pres_bind; [apply pres_keeps, _ | intros _]).
  pose proof (apply_edits_sized a (blocks_of data EFUSE_HALF) Ha) as Hs.
  destruct (apply_edits a _) as [ret fe]. destruct (ret <? 0); [apply pres_keeps, _|].
  apply pres_bind; [apply pres_keeps, _ | intros _]. intros w. apply program_merged_otp, Hs, blocks_of_sized. rewrite Hl, repeat_length. lia.
Qed.

Lemma pres_writeefuse os files heap junk : PresInv (writeefuse_func os files heap junk).
Proof.
  unfold writeefuse_func.
  destruct (parse_wefuse os _ _) as [[[c msgs]|a]|] eqn:Ep; try (apply pres_keeps, _).
  apply pres_bind; [|intros; apply pres_keeps, _].
  apply pres_writeefuse_body. eapply parse_wefuse_serial; [exact Ep|]. intros s [=].
Qed.

Ltac pres_tac :=
  repeat match goal with
  | |- PresInv (st_bind _ _) => apply pres_bind; [|intros ?; cbv beta]
  | |- PresInv (if _ then _ else _) => apply pres_if
  | |- PresInv (writeefuse_func _ _ _ _) => apply pres_writeefuse
  | |- PresInv (match ?x with _ => _ end) => destruct x
  | |- PresInv _ => apply pres_keeps; keeps_tac
  end.

Lemma pres_main argv e : PresInv (main argv e).
Proof. unfold main, dispatch. pres_tac. Qed.

End Runs.

(** One run of the tool on the files and the device the last one left. *)
Inductive tool_step `{AxConfig} {D : Type} `{Backend D} : env * world D -> env * world D -> Prop :=
| tool_run argv e w : tool_step (e, w) (snd (fst (main argv e w)), snd (main argv e w)).

(** C2: whatever commands are run one after the other, with whatever
    arguments, files and device answers, the eFuse array keeps its
    shape: 32 blocks of 20 bytes, the blocks before the mark as they
    were (the reserved blocks 0..4 and every block burnt earlier), valid
    blocks up to the mark and blank blocks after it. *)
Theorem runs_keep_efuse_shape `{AxConfig} {D : Type} `{OtpEfuse D} (kept : list block)
    (s s' : env * world D) :
  rtc tool_step s s' -> chip_inv kept (chip (snd s)) -> chip_inv kept (chip (snd s')).
Proof.
  induction 1 as [|s1 s2 s3 Hs _ IH]; [auto|]. intros Hw. apply IH.
  destruct Hs as [argv e w]. apply pres_main, Hw.
Qed.

(** ** The memory device is an OTP device *)

#[export] Instance mem_otp `{AxConfig} : OtpEfuse efusedev.
Proof.
  refine {| otp_chip := fe_chip |}.
  - intros n r d Hr. destruct r; try discriminate; cbn; repeat case_match; reflexivity.
  - intros n i d. cbn. case_match; cbn; [reflexivity | lia].
  - intros n i b d. cbn. destruct (_ && _) eqn:Hi; cbn; [|lia]. intros _.
    apply andb_true_iff in Hi as [Hi1 Hi2]. apply Z.leb_le in Hi1. apply Z.ltb_lt in Hi2. auto.
  - intros n i b d. cbn. case_match; cbn; [lia | reflexivity].
  - reflexivity.
Defined.

(** ** Witness *)

#[local] Existing Instance demo_config.

(** The files and the device after one more run of [argv]. *)
Definition after (argv : list string) (s : env * world efusedev) : env * world efusedev :=
  (snd (fst (main argv (fst s) (snd s))), snd (main argv (fst s) (snd s))).

Lemma tool_step_after argv s : tool_step s (after argv s).
Proof. destruct s as [e w]. exact (tool_run argv e w). Qed.

Definition refuse_argv : list string := ["ax88179a_programmer"; "refuse"; "-f"; "dump.txt"]%string.
Definition wefuse_argv : list string := ["ax88179a_programmer"; "wefuse"; "-f"; "img.txt"]%string.

Definition img_files : env :=
  mk_env (fun p => if String.eqb p "img.txt"%string then Some (map byte_of_ascii (dump_text efuse_img)) else None)
         (fun _ => true) 100000 0.

Lemma runs_keep_efuse_shape_witness :
  chip_inv (take 6 efuse_chip)
    (chip (snd (after wefuse_argv (after refuse_argv (img_files, efuse_world))))).
Proof.
  apply (runs_keep_efuse_shape (take 6 efuse_chip) (img_files, efuse_world)).
  - apply (rtc_l _ _ (after refuse_argv (img_files, efuse_world))); [apply tool_step_after|].
    apply (rtc_l _ _ (after wefuse_argv (after refuse_argv (img_files, efuse_world))));
      [apply tool_step_after | apply rtc_refl].
  - exists 6%nat. split_and!.
    + reflexivity.
    + apply (bool_decide_unpack _). vm_compute. exact I.
    + reflexivity.
    + cbn. lia.
    + apply burnt_prefixb_spec. vm_compute. reflexivity.
Defined.

(** The second run of the witness does burn: the new block of the image
    lands at the mark, block 6, and [main] reports [SUCCESS]. *)
Example two_runs_burn :
  chip (snd (after wefuse_argv (after refuse_argv (img_files, efuse_world)))) =
  <[6%nat := sample_serial]> efuse_chip /\
  fst (fst (main wefuse_argv img_files efuse_world)) = Some 0.
Proof. split; vm_compute; reflexivity. Qed.
